(** * firebaseDb.js: the candidate store facade

    A shallow embedding of [class FirebaseSESAPDatabase] (src/firebaseDb.js)
    and of the JavaScript built-ins its methods call, followed by the
    properties of its read, export and write operations.

    Conventions of the model.
    - A JavaScript value is a tree ([value]): the primitives, arrays and
      plain objects.  An object is the list of its own properties in
      enumeration order.  The order of array-index-like keys, getters,
      prototypes other than the built-in ones, class instances and [-0]
      are not modelled.
    - A string is a [string]: a sequence of 8-bit units.  A character
      outside ASCII is carried as the bytes of its UTF-8 encoding.
    - A finite number is a decimal fraction [m * 10^e], kept in lowest
      terms; the rounding and the overflow of binary64 are not modelled.
      [NaN] and the two infinities are values of their own.  The
      properties that read a number from a text, compare numbers or test
      one for zero are stated for the numbers on which decimals and
      binary64 agree ([num_exact], [exact_value]).
    - No value of the model is a function.  So an object with an own
      property toString cannot be converted to a primitive, and the
      program throws a TypeError where it converts one ([converts]).
      [restoreData], [exportCSV] and [getRegionData] on a heap have an
      exception channel for it; [ToString], [ToNumber], [==] and
      [getRegionData] on a cache are total functions, and what is proved
      of them is stated for values that can be converted.
    - The remote document store, the clock and the console are explicit
      state ([world]); which remote calls are rejected is a parameter
      ([env]): a store answers a request by the request alone, and a
      session ([perform_all]) gives each call a store of its own.  What
      the page defines and the SDK answers at start-up is a parameter too
      ([page], [sdk]). *)

From Stdlib Require Import ZArith NArith List Bool Ascii Lia.
From Stdlib Require Strings.String.
Import String (string(..), list_ascii_of_string, string_of_list_ascii).
Import (notations) String.
From Stdlib Require Import Sorting.Sorted Sorting.Permutation.
Import ListNotations.

Open Scope string_scope.
Close Scope list_scope.
Open Scope list_scope.

(** ** Text *)

(** Program text and serialised data are lists of characters. *)
Definition text := list ascii.

Definition T (s : string) : text := list_ascii_of_string s.

Definition code (c : ascii) : N := N_of_ascii c.

(** The double quote and the backslash, by their codes. *)
Definition dquote : ascii := ascii_of_N 34.
Definition bslash : ascii := ascii_of_N 92.

Definition is_digit (c : ascii) : bool :=
  ((48 <=? code c) && (code c <=? 57))%N.

Definition digit_val (c : ascii) : N := (code c - 48)%N.

Definition digit_char (d : N) : ascii := ascii_of_N (48 + d).

(** Value of a run of decimal digits, most significant first. *)
Definition digits_value (ds : text) : N :=
  fold_left (fun a c => (10 * a + digit_val c)%N) ds 0%N.

Fixpoint digits_fuel (fuel : nat) (n : N) (acc : text) : text :=
  match fuel with
  | O => acc
  | S f =>
      let acc' := digit_char (n mod 10) :: acc in
      if (n <? 10)%N then acc' else digits_fuel f (n / 10) acc'
  end.

(** Decimal digits of [n], without leading zeros ([0] is the one digit 0). *)
Definition digits (n : N) : text :=
  digits_fuel (S (N.to_nat (N.log2 n))) n [].

(** Longest prefix of decimal digits, and what follows it. *)
Fixpoint span_digits (s : text) : text * text :=
  match s with
  | c :: r =>
      if is_digit c
      then let (d, r') := span_digits r in (c :: d, r')
      else ([], s)
  | [] => ([], [])
  end.

(** The ASCII members of the WhiteSpace and LineTerminator productions. *)
Definition is_space (c : ascii) : bool :=
  ((code c =? 9) || (code c =? 10) || (code c =? 11) || (code c =? 12)
   || (code c =? 13) || (code c =? 32))%N.

Fixpoint drop_while (p : ascii -> bool) (s : text) : text :=
  match s with
  | c :: r => if p c then drop_while p r else s
  | [] => []
  end.

Fixpoint starts_with (p s : text) : option text :=
  match p, s with
  | [], _ => Some s
  | a :: p', b :: s' => if Ascii.eqb a b then starts_with p' s' else None
  | _ :: _, [] => None
  end.

(** The other members of WhiteSpace and LineTerminator, by the bytes of
    their UTF-8 encoding: U+00A0, U+1680, U+2000 to U+200A, U+2028, U+2029,
    U+202F, U+205F, U+3000 and U+FEFF. *)
Definition wide_spaces : list text :=
  map (map ascii_of_N)
    [[194; 160]; [225; 154; 128];
     [226; 128; 128]; [226; 128; 129]; [226; 128; 130]; [226; 128; 131];
     [226; 128; 132]; [226; 128; 133]; [226; 128; 134]; [226; 128; 135];
     [226; 128; 136]; [226; 128; 137]; [226; 128; 138];
     [226; 128; 168]; [226; 128; 169]; [226; 128; 175]; [226; 129; 159];
     [227; 128; 128]; [239; 187; 191]]%N.

(** What follows the first of [seqs] that [s] starts with. *)
Fixpoint strip_any (seqs : list text) (s : text) : option text :=
  match seqs with
  | [] => None
  | p :: seqs' =>
      match starts_with p s with
      | Some r => Some r
      | None => strip_any seqs' s
      end
  end.

(** [s] without the white space it starts with: ASCII white space and the
    sequences [seqs]; [fuel] bounds the steps, the length of [s] is
    enough. *)
Fixpoint skip_spaces (seqs : list text) (fuel : nat) (s : text) : text :=
  match fuel with
  | O => s
  | S f =>
      match s with
      | c :: r =>
          if is_space c then skip_spaces seqs f r
          else match strip_any seqs s with
               | Some r' => skip_spaces seqs f r'
               | None => s
               end
      | [] => []
      end
  end.

(** [s] after the StrWhiteSpaceChar it starts with. *)
Definition skip_white (s : text) : text := skip_spaces wide_spaces (length s) s.

(** TrimString at both ends. *)
Definition trim (s : text) : text :=
  let s1 := skip_white s in
  rev (skip_spaces (map (@rev ascii) wide_spaces) (length s1) (rev s1)).

(** An ASCII character that is no white space. *)
Definition plain_char (c : ascii) : bool :=
  (negb (is_space c) && (code c <? 128)%N)%bool.

(** ** Numbers *)

Inductive number : Type :=
| NaN
| PosInf
| NegInf
| Fin (m e : Z).

Fixpoint strip_zeros (fuel : nat) (m e : Z) : Z * Z :=
  match fuel with
  | O => (m, e)
  | S f =>
      if (m mod 10 =? 0)%Z then strip_zeros f (m / 10)%Z (e + 1)%Z else (m, e)
  end.

(** The number [m * 10^e] in lowest terms. *)
Definition norm (m e : Z) : number :=
  if (m =? 0)%Z then Fin 0 0
  else let (m', e') := strip_zeros (S (Z.to_nat (Z.log2 (Z.abs m)))) m e in
       Fin m' e'.

Definition num_wf (x : number) : bool :=
  match x with
  | Fin m e => if (m =? 0)%Z then (e =? 0)%Z else negb (m mod 10 =? 0)%Z
  | _ => true
  end.

Definition is_NaN (x : number) : bool :=
  match x with NaN => true | _ => false end.

Definition is_finite (x : number) : bool :=
  match x with Fin _ _ => true | _ => false end.

(** The numbers on which this model and binary64 agree: zero, and the
    decimals of at most 15 significant digits and a magnitude from 1e-300
    up to 1e305.  Such a decimal is the shortest text of the binary64
    number nearest to it, and two of them have different nearest numbers,
    so reading a text, writing one, the order and the sign of a difference
    are those of binary64.  [NaN] and the infinities are as they are. *)
Definition num_exact (x : number) : bool :=
  match x with
  | Fin m e =>
      ((m =? 0) || ((Z.abs m <? 10 ^ 15) && (-300 <=? e) && (e <=? 290)))%Z
  | _ => true
  end.

(** [m * 10^e] counted in units of [10^k], for [k <= e]. *)
Definition scale (m e k : Z) : Z := (m * 10 ^ (e - k))%Z.

(** The binary [-] on numbers. *)
Definition num_sub (a b : number) : number :=
  match a, b with
  | NaN, _ | _, NaN => NaN
  | PosInf, PosInf => NaN
  | NegInf, NegInf => NaN
  | PosInf, _ => PosInf
  | NegInf, _ => NegInf
  | Fin _ _, PosInf => NegInf
  | Fin _ _, NegInf => PosInf
  | Fin m1 e1, Fin m2 e2 =>
      let k := Z.min e1 e2 in
      norm (scale m1 e1 k - scale m2 e2 k) k
  end.

(** Order of two numbers; [None] when one of them is [NaN]. *)
Definition num_compare (a b : number) : option comparison :=
  match a, b with
  | NaN, _ | _, NaN => None
  | PosInf, PosInf => Some Eq
  | NegInf, NegInf => Some Eq
  | PosInf, _ => Some Gt
  | _, PosInf => Some Lt
  | NegInf, _ => Some Lt
  | _, NegInf => Some Gt
  | Fin m1 e1, Fin m2 e2 =>
      let k := Z.min e1 e2 in
      Some (Z.compare (scale m1 e1 k) (scale m2 e2 k))
  end.

(** The relational operators [<], [>=] and the equality of two numbers. *)
Definition num_lt (a b : number) : bool :=
  match num_compare a b with Some Lt => true | _ => false end.

Definition num_ge (a b : number) : bool :=
  match num_compare a b with Some (Eq | Gt) => true | _ => false end.

Definition num_eq (a b : number) : bool :=
  match num_compare a b with Some Eq => true | _ => false end.

Definition zeros (n : nat) : text := repeat "0"%char n.

(** Number::toString of a finite non-zero number with decimal digits [ds]
    and exponent [e]: [k] digits, the decimal point after the [n]-th. *)
Definition format_digits (ds : text) (e : Z) : text :=
  let k := Z.of_nat (length ds) in
  let n := (k + e)%Z in
  if ((k <=? n) && (n <=? 21))%Z then
    ds ++ zeros (Z.to_nat (n - k))
  else if ((0 <? n) && (n <=? 21))%Z then
    firstn (Z.to_nat n) ds ++ "."%char :: skipn (Z.to_nat n) ds
  else if ((-6 <? n) && (n <=? 0))%Z then
    "0"%char :: "."%char :: zeros (Z.to_nat (- n)) ++ ds
  else
    let x := (n - 1)%Z in
    let sign := if (x <? 0)%Z then "-"%char else "+"%char in
    let xs := digits (Z.abs_N x) in
    match ds with
    | [d] => d :: "e"%char :: sign :: xs
    | d :: ds' => d :: "."%char :: ds' ++ "e"%char :: sign :: xs
    | [] => []
    end.

Definition number_text (x : number) : text :=
  match x with
  | NaN => T "NaN"
  | PosInf => T "Infinity"
  | NegInf => T "-Infinity"
  | Fin m e =>
      if (m =? 0)%Z then T "0"
      else (if (m <? 0)%Z then T "-" else []) ++ format_digits (digits (Z.abs_N m)) e
  end.

Definition signed (neg : bool) (n : N) : Z :=
  if neg then (- Z.of_N n)%Z else Z.of_N n.

(** The number written as integer digits [int], fraction digits [frac] and
    decimal exponent [ex]. *)
Definition decimal (neg : bool) (int frac : text) (ex : Z) : number :=
  norm (signed neg (digits_value (int ++ frac))) (ex - Z.of_nat (length frac)).

(** An exponent part [e], [E] followed by an optional sign and at least one
    digit; [None] when the text does not start with one. *)
Definition scan_exponent (s : text) : option (Z * text) :=
  match s with
  | c :: r =>
      if (Ascii.eqb c "e" || Ascii.eqb c "E")%char then
        let '(neg, r1) :=
          match r with
          | d :: r' =>
              if Ascii.eqb d "-" then (true, r')
              else if Ascii.eqb d "+" then (false, r')
              else (false, r)
          | [] => (false, r)
          end in
        let (ds, r2) := span_digits r1 in
        match ds with
        | [] => None
        | _ => Some (signed neg (digits_value ds), r2)
        end
      else None
  | [] => None
  end.

(** An unsigned StrDecimalLiteral at the start of [s1]: [Infinity], or
    digits with an optional fraction and exponent, one of the integer and
    fraction digits being there. *)
Definition decimal_unsigned (neg : bool) (s1 : text) : option (number * text) :=
  match starts_with (T "Infinity") s1 with
  | Some r => Some (if neg then NegInf else PosInf, r)
  | None =>
      let (int, s2) := span_digits s1 in
      let '(frac, s3) :=
        match s2 with
        | c :: r => if Ascii.eqb c "." then span_digits r else ([], s2)
        | [] => ([], s2)
        end in
      match int, frac with
      | [], [] => None
      | _, _ =>
          match scan_exponent s3 with
          | Some (x, s4) => Some (decimal neg int frac x, s4)
          | None => Some (decimal neg int frac 0, s3)
          end
      end
  end.

(** A StrDecimalLiteral at the start of [s], with its sign, and what
    follows it. *)
Definition scan_decimal_literal (s : text) : option (number * text) :=
  match s with
  | c :: r =>
      if Ascii.eqb c "-" then decimal_unsigned true r
      else if Ascii.eqb c "+" then decimal_unsigned false r
      else decimal_unsigned false s
  | [] => None
  end.

Definition hex_val (c : ascii) : option N :=
  let n := code c in
  if is_digit c then Some (n - 48)%N
  else if ((97 <=? n) && (n <=? 102))%N then Some (n - 87)%N
  else if ((65 <=? n) && (n <=? 70))%N then Some (n - 55)%N
  else None.

Fixpoint radix_value (r : N) (s : text) (acc : N) : option N :=
  match s with
  | [] => Some acc
  | c :: s' =>
      match hex_val c with
      | Some d => if (d <? r)%N then radix_value r s' (r * acc + d)%N else None
      | None => None
      end
  end.

(** [0x], [0o] and [0b] literals. *)
Definition radix_literal (t : text) : option number :=
  match t with
  | z :: x :: ((_ :: _) as ds) =>
      if Ascii.eqb z "0" then
        let r :=
          if (Ascii.eqb x "x" || Ascii.eqb x "X")%bool then 16%N
          else if (Ascii.eqb x "o" || Ascii.eqb x "O")%bool then 8%N
          else if (Ascii.eqb x "b" || Ascii.eqb x "B")%bool then 2%N
          else 0%N in
        match radix_value r ds 0 with
        | Some n => Some (norm (Z.of_N n) 0)
        | None => None
        end
      else None
  | _ => None
  end.

(** StringToNumber: the whole trimmed string must be a numeric literal. *)
Definition StringToNumber (s : string) : number :=
  match trim (T s) with
  | [] => Fin 0 0
  | t =>
      match radix_literal t with
      | Some n => n
      | None =>
          match scan_decimal_literal t with
          | Some (n, []) => n
          | _ => NaN
          end
      end
  end.

(** ** Values *)

Unset Elimination Schemes.

Inductive value : Type :=
| VUndefined
| VNull
| VBool (b : bool)
| VNum (n : number)
| VStr (s : string)
| VArr (elems : list value)
| VObj (props : list (string * value)).

Set Elimination Schemes.

(** A plain object: its own properties, in enumeration order. *)
Definition obj := list (string * value).

Fixpoint assoc_get {A : Type} (o : list (string * A)) (k : string) : option A :=
  match o with
  | [] => None
  | (k', v) :: o' => if String.eqb k' k then Some v else assoc_get o' k
  end.

(** [o[k] = v]: an existing property keeps its place, a new one goes last. *)
Fixpoint assoc_set {A : Type} (k : string) (v : A) (o : list (string * A))
  : list (string * A) :=
  match o with
  | [] => [(k, v)]
  | (k', v') :: o' =>
      if String.eqb k' k then (k', v) :: o' else (k', v') :: assoc_set k v o'
  end.

(** [o.k] on an object: a property that is not there reads [undefined]. *)
Definition obj_get (o : obj) (k : string) : value :=
  match assoc_get o k with
  | Some v => v
  | None => VUndefined
  end.

(** [v.k] on any value: [null] and [undefined] throw a TypeError ([None]);
    the other primitives and arrays have none of the property names this
    module reads. *)
Definition get_prop (v : value) (k : string) : option value :=
  match v with
  | VUndefined | VNull => None
  | VObj o => Some (obj_get o k)
  | _ => Some VUndefined
  end.

(** Whether ToPrimitive completes on [v].  An object with an own property
    toString cannot be converted: the property is no function, as no value
    of this model is, and [Object.prototype.valueOf] gives the object
    back, so a TypeError is thrown.  An array is joined, which converts
    every element but [null] and [undefined]. *)
Fixpoint converts (v : value) : bool :=
  match v with
  | VObj ps => negb (existsb (fun kv => String.eqb (fst kv) "toString") ps)
  | VArr l =>
      forallb (fun e => match e with
                        | VUndefined | VNull => true
                        | _ => converts e
                        end) l
  | _ => true
  end.

(** Every number in [v] is one this model has as binary64 has it. *)
Fixpoint exact_value (v : value) : bool :=
  match v with
  | VNum n => num_exact n
  | VArr l => forallb exact_value l
  | VObj ps =>
      (fix members (ps : list (string * value)) : bool :=
         match ps with
         | [] => true
         | (_, x) :: ps' => exact_value x && members ps'
         end) ps
  | _ => true
  end.

Definition ToBoolean (v : value) : bool :=
  match v with
  | VUndefined | VNull => false
  | VBool b => b
  | VNum NaN => false
  | VNum (Fin m _) => negb (m =? 0)%Z
  | VNum _ => true
  | VStr s => negb (String.eqb s "")
  | VArr _ | VObj _ => true
  end.

(** ToString, where the conversion completes ([converts]); an array is
    joined with commas, [null] and [undefined] elements giving the empty
    string. *)
Fixpoint ToString (v : value) : string :=
  match v with
  | VUndefined => "undefined"
  | VNull => "null"
  | VBool b => if b then "true" else "false"
  | VNum n => string_of_list_ascii (number_text n)
  | VStr s => s
  | VArr l =>
      String.concat ","
        (map (fun e => match e with
                       | VUndefined | VNull => ""
                       | _ => ToString e
                       end) l)
  | VObj _ => "[object Object]"
  end.

Definition ToNumber (v : value) : number :=
  match v with
  | VUndefined => NaN
  | VNull => Fin 0 0
  | VBool b => Fin (if b then 1 else 0) 0
  | VNum n => n
  | VStr s => StringToNumber s
  | VArr _ | VObj _ => StringToNumber (ToString v)
  end.

(** The global [parseFloat]: the longest numeric prefix of the argument's
    string, after leading white space; [NaN] when there is none. *)
Definition parseFloat (v : value) : number :=
  match scan_decimal_literal (skip_white (T (ToString v))) with
  | Some (n, _) => n
  | None => NaN
  end.

(** [v == s] for a string [s]. *)
Definition loose_eq_string (v : value) (s : string) : bool :=
  match v with
  | VStr a => String.eqb a s
  | VNum _ | VBool _ => num_eq (ToNumber v) (StringToNumber s)
  | VUndefined | VNull => false
  | VArr _ | VObj _ => String.eqb (ToString v) s
  end.

(** [v === s] for a string [s]. *)
Definition strict_eq_string (v : value) (s : string) : bool :=
  match v with
  | VStr a => String.eqb a s
  | _ => false
  end.

(** [v !== undefined]. *)
Definition not_undefined (v : value) : bool :=
  match v with
  | VUndefined => false
  | _ => true
  end.

(** ** JSON.stringify *)

Definition newline : ascii := ascii_of_N 10.

Definition hex_digit (n : N) : ascii :=
  if (n <? 10)%N then ascii_of_N (48 + n) else ascii_of_N (87 + n).

(** QuoteJSONString, one character at a time. *)
Definition quote_char (c : ascii) : text :=
  let n := code c in
  if (n =? 34)%N then [bslash; dquote]
  else if (n =? 92)%N then [bslash; bslash]
  else if (n =? 8)%N then [bslash; "b"%char]
  else if (n =? 12)%N then [bslash; "f"%char]
  else if (n =? 10)%N then [bslash; "n"%char]
  else if (n =? 13)%N then [bslash; "r"%char]
  else if (n =? 9)%N then [bslash; "t"%char]
  else if (n <? 32)%N then
    [bslash; "u"%char; "0"%char; "0"%char; hex_digit (n / 16); hex_digit (n mod 16)]
  else [c].

Definition QuoteJSONString (s : string) : text :=
  dquote :: flat_map quote_char (T s) ++ [dquote].

Definition join (sep : text) (parts : list text) : text :=
  match parts with
  | [] => []
  | p :: ps => p ++ flat_map (fun q => sep ++ q) ps
  end.

(** With a gap, every item of an array or object starts a line at the
    inner indentation and the closing bracket a line at the outer one. *)
Definition item_lead (gap indent : text) : text :=
  match gap with
  | [] => []
  | _ => newline :: indent ++ gap
  end.

Definition close_lead (gap indent : text) : text :=
  match gap with
  | [] => []
  | _ => newline :: indent
  end.

(** The items of an array or object between its brackets. *)
Definition bracketed (opening closing : ascii) (gap indent : text) (parts : list text)
  : text :=
  match parts with
  | [] => [opening; closing]
  | _ =>
      opening :: item_lead gap indent
        ++ join (","%char :: item_lead gap indent) parts
        ++ close_lead gap indent ++ [closing]
  end.

(** A property of an object: the quoted key, a colon (and a space when
    there is a gap) and the value's text. *)
Definition member_text (gap : text) (k : string) (body : text) : text :=
  QuoteJSONString k
    ++ ":"%char :: match gap with [] => [] | _ => [" "%char] end ++ body.

(** SerializeJSONProperty for a value that is not [undefined]; inside an
    array [undefined] is written [null], inside an object a property whose
    value is [undefined] is left out.  Numbers that are not finite are
    written [null]. *)
Fixpoint serialize (gap indent : text) (v : value) : text :=
  match v with
  | VUndefined => T "null"
  | VNull => T "null"
  | VBool b => if b then T "true" else T "false"
  | VNum n => if is_finite n then number_text n else T "null"
  | VStr s => QuoteJSONString s
  | VArr l =>
      bracketed "[" "]" gap indent (map (serialize gap (indent ++ gap)) l)
  | VObj ps =>
      bracketed "{" "}" gap indent
        ((fix members (ps : list (string * value)) : list text :=
            match ps with
            | [] => []
            | (k, x) :: ps' =>
                match x with
                | VUndefined => members ps'
                | _ => member_text gap k (serialize gap (indent ++ gap) x)
                         :: members ps'
                end
            end) ps)
  end.

(** [JSON.stringify(v, null, space)] for a number of spaces; [None] is the
    result [undefined]. *)
Definition JSON_stringify (v : value) (space : nat) : option string :=
  match v with
  | VUndefined => None
  | _ => Some (string_of_list_ascii
                 (serialize (repeat " "%char (Nat.min 10 space)) [] v))
  end.

(** ** JSON.parse *)

Definition is_json_ws (c : ascii) : bool :=
  ((code c =? 9) || (code c =? 10) || (code c =? 13) || (code c =? 32))%N.

Definition skip_ws (s : text) : text := drop_while is_json_ws s.

Definition hex4 (a b c d : ascii) : option N :=
  match hex_val a, hex_val b, hex_val c, hex_val d with
  | Some x, Some y, Some z, Some w => Some (((x * 16 + y) * 16 + z) * 16 + w)%N
  | _, _, _, _ => None
  end.

(** The bytes of a code point. *)
Definition utf8 (cp : N) : text :=
  if (cp <? 128)%N then [ascii_of_N cp]
  else if (cp <? 2048)%N then
    [ascii_of_N (192 + cp / 64); ascii_of_N (128 + cp mod 64)]
  else if (cp <? 65536)%N then
    [ascii_of_N (224 + cp / 4096); ascii_of_N (128 + (cp / 64) mod 64);
     ascii_of_N (128 + cp mod 64)]
  else
    [ascii_of_N (240 + cp / 262144); ascii_of_N (128 + (cp / 4096) mod 64);
     ascii_of_N (128 + (cp / 64) mod 64); ascii_of_N (128 + cp mod 64)].

Definition is_high_surrogate (u : N) : bool := ((55296 <=? u) && (u <? 56320))%N.
Definition is_low_surrogate (u : N) : bool := ((56320 <=? u) && (u <? 57344))%N.

Definition simple_escape (e : ascii) : option ascii :=
  if Ascii.eqb e dquote then Some dquote
  else if Ascii.eqb e bslash then Some bslash
  else if Ascii.eqb e "/" then Some "/"%char
  else if Ascii.eqb e "b" then Some (ascii_of_N 8)
  else if Ascii.eqb e "f" then Some (ascii_of_N 12)
  else if Ascii.eqb e "n" then Some (ascii_of_N 10)
  else if Ascii.eqb e "r" then Some (ascii_of_N 13)
  else if Ascii.eqb e "t" then Some (ascii_of_N 9)
  else None.

Definition prepend {A : Type} (cs : text) (res : option (text * A)) : option (text * A) :=
  match res with
  | Some (t, rest) => Some (cs ++ t, rest)
  | None => None
  end.

(** The characters of a string literal after its opening quote, up to the
    closing quote, and what follows it. *)
Fixpoint parse_chars (s : text) : option (text * text) :=
  match s with
  | [] => None
  | c :: r =>
      if Ascii.eqb c dquote then Some ([], r)
      else if Ascii.eqb c bslash then
        match r with
        | [] => None
        | e :: r1 =>
            if Ascii.eqb e "u" then
              match r1 with
              | h1 :: h2 :: h3 :: h4 :: r2 =>
                  match hex4 h1 h2 h3 h4 with
                  | None => None
                  | Some hi =>
                      if is_high_surrogate hi then
                        match r2 with
                        | b :: u :: h5 :: h6 :: h7 :: h8 :: r3 =>
                            match hex4 h5 h6 h7 h8 with
                            | Some lo =>
                                if (Ascii.eqb b bslash && Ascii.eqb u "u"
                                    && is_low_surrogate lo)%bool
                                then prepend
                                       (utf8 (65536 + (hi - 55296) * 1024 + (lo - 56320))%N)
                                       (parse_chars r3)
                                else prepend (utf8 hi) (parse_chars r2)
                            | None => prepend (utf8 hi) (parse_chars r2)
                            end
                        | _ => prepend (utf8 hi) (parse_chars r2)
                        end
                      else prepend (utf8 hi) (parse_chars r2)
                  end
              | _ => None
              end
            else
              match simple_escape e with
              | Some ch => prepend [ch] (parse_chars r1)
              | None => None
              end
        end
      else if (code c <? 32)%N then None
      else prepend [c] (parse_chars r)
  end.

Definition is_nil {A : Type} (l : list A) : bool :=
  match l with [] => true | _ => false end.

(** The digits of a JSON number after its sign: no leading zeros, digits
    after a point, digits after an exponent mark. *)
Definition json_unsigned (neg : bool) (s1 : text) : option (number * text) :=
  let (int, s2) := span_digits s1 in
  match int with
  | [] => None
  | d :: ds =>
      if (Ascii.eqb d "0" && negb (is_nil ds))%bool then None
      else
        let fraction :=
          match s2 with
          | c :: r =>
              if Ascii.eqb c "." then
                let (f, r') := span_digits r in
                match f with [] => None | _ => Some (f, r') end
              else Some ([], s2)
          | [] => Some ([], s2)
          end in
        match fraction with
        | None => None
        | Some (frac, s3) =>
            match s3 with
            | c :: _ =>
                if (Ascii.eqb c "e" || Ascii.eqb c "E")%bool then
                  match scan_exponent s3 with
                  | Some (x, s4) => Some (decimal neg int frac x, s4)
                  | None => None
                  end
                else Some (decimal neg int frac 0, s3)
            | [] => Some (decimal neg int frac 0, s3)
            end
        end
  end.

Definition parse_json_number (s : text) : option (number * text) :=
  match s with
  | c :: r => if Ascii.eqb c "-" then json_unsigned true r else json_unsigned false s
  | [] => None
  end.

(** The object with the parsed members, assigned from left to right: a
    repeated key keeps its first place and its last value. *)
Definition object_of (members : list (string * value)) : value :=
  VObj (fold_left (fun o kv => assoc_set (fst kv) (snd kv) o) members []).

(** A JSON value at the start of [s] (no leading white space), and what
    follows it.  [fuel] bounds the calls; the length of the text is
    enough. *)
Fixpoint parse_value (fuel : nat) (s : text) : option (value * text) :=
  match fuel with
  | O => None
  | S f =>
      match s with
      | [] => None
      | c :: r =>
          if Ascii.eqb c dquote then
            match parse_chars r with
            | Some (t, r') => Some (VStr (string_of_list_ascii t), r')
            | None => None
            end
          else if Ascii.eqb c "[" then
            match skip_ws r with
            | [] => None
            | c' :: r' =>
                if Ascii.eqb c' "]" then Some (VArr [], r')
                else
                  match parse_elements f (c' :: r') with
                  | Some (vs, r'') => Some (VArr vs, r'')
                  | None => None
                  end
            end
          else if Ascii.eqb c "{" then
            match skip_ws r with
            | [] => None
            | c' :: r' =>
                if Ascii.eqb c' "}" then Some (VObj [], r')
                else
                  match parse_members f (c' :: r') with
                  | Some (ms, r'') => Some (object_of ms, r'')
                  | None => None
                  end
            end
          else
            match starts_with (T "null") s with
            | Some r' => Some (VNull, r')
            | None =>
                match starts_with (T "true") s with
                | Some r' => Some (VBool true, r')
                | None =>
                    match starts_with (T "false") s with
                    | Some r' => Some (VBool false, r')
                    | None =>
                        match parse_json_number s with
                        | Some (n, r') => Some (VNum n, r')
                        | None => None
                        end
                    end
                end
            end
      end
  end
with parse_elements (fuel : nat) (s : text) : option (list value * text) :=
  match fuel with
  | O => None
  | S f =>
      match parse_value f s with
      | None => None
      | Some (v, r) =>
          match skip_ws r with
          | [] => None
          | c :: r' =>
              if Ascii.eqb c "," then
                match parse_elements f (skip_ws r') with
                | Some (vs, r'') => Some (v :: vs, r'')
                | None => None
                end
              else if Ascii.eqb c "]" then Some ([v], r')
              else None
          end
      end
  end
with parse_members (fuel : nat) (s : text) : option (list (string * value) * text) :=
  match fuel with
  | O => None
  | S f =>
      match s with
      | [] => None
      | q :: r =>
          if Ascii.eqb q dquote then
            match parse_chars r with
            | None => None
            | Some (k, r1) =>
                match skip_ws r1 with
                | [] => None
                | c :: r2 =>
                    if Ascii.eqb c ":" then
                      match parse_value f (skip_ws r2) with
                      | None => None
                      | Some (v, r3) =>
                          match skip_ws r3 with
                          | [] => None
                          | c' :: r4 =>
                              if Ascii.eqb c' "," then
                                match parse_members f (skip_ws r4) with
                                | Some (ms, r5) =>
                                    Some ((string_of_list_ascii k, v) :: ms, r5)
                                | None => None
                                end
                              else if Ascii.eqb c' "}" then
                                Some ([(string_of_list_ascii k, v)], r4)
                              else None
                          end
                      end
                    else None
                end
            end
          else None
      end
  end.

(** [JSON.parse(s)]; [None] is a SyntaxError. *)
Definition JSON_parse (s : string) : option value :=
  let t := T s in
  match parse_value (S (length t)) (skip_ws t) with
  | Some (v, r) => if is_nil (skip_ws r) then Some v else None
  | None => None
  end.

(** ** Array.prototype.sort

    The sort is stable; a comparator result of [NaN] counts as [+0].  With
    a comparator that is not consistent the order is implementation
    defined: the model then gives the order of this insertion sort. *)

Definition sort_before {A : Type} (comparefn : A -> A -> number) (x y : A) : bool :=
  num_lt (match comparefn x y with NaN => Fin 0 0 | v => v end) (Fin 0 0).

Fixpoint sort_insert {A : Type} (comparefn : A -> A -> number) (x : A) (l : list A)
  : list A :=
  match l with
  | [] => [x]
  | y :: l' =>
      if sort_before comparefn y x then y :: sort_insert comparefn x l'
      else x :: y :: l'
  end.

Definition Array_sort {A : Type} (comparefn : A -> A -> number) (l : list A) : list A :=
  fold_right (sort_insert comparefn) [] l.

(** ** The facade *)

(** The fields of [FirebaseSESAPDatabase].  The SDK handles [app], [auth]
    and [db] carry no data of their own and are left out. *)
Record facade : Type := {
  userId : value;
  appId : string;
  allCandidates : list obj;
  isAuthReady : bool
}.

Definition constructor (app_id : option string) : facade :=
  {| userId := VNull;
     appId := match app_id with Some a => a | None => "default-app-id" end;
     allCandidates := [];
     isAuthReady := false |}.

(** [initializeFirebase]: [signin] is the outcome of configuration and
    sign-in, the user id on success.  On failure the error is logged and
    the facade stays as it was. *)
Definition initializeFirebase (st : facade) (signin : option string) : facade :=
  match signin with
  | Some uid =>
      {| userId := VStr uid; appId := appId st;
         allCandidates := allCandidates st; isAuthReady := true |}
  | None => st
  end.

(** The three categories, in the order [getRegionData] visits them. *)
Definition tipos : list string := ["ampla"; "pcd"; "ppp"].

(** The comparator [(a, b) => b.pontuacao - a.pontuacao]. *)
Definition by_pontuacao (a b : obj) : number :=
  num_sub (ToNumber (obj_get b "pontuacao")) (ToNumber (obj_get a "pontuacao")).

Definition getRegionData (st : facade) (region : string)
  : list (string * list obj) :=
  let candidatesForRegion :=
    filter (fun c => loose_eq_string (obj_get c "region") region)
           (allCandidates st) in
  let regionData := [("ampla", []); ("pcd", []); ("ppp", [])] in
  fold_left
    (fun regionData tipo =>
       assoc_set tipo
         (Array_sort by_pontuacao
            (filter (fun c => strict_eq_string (obj_get c "tipo") tipo)
                    candidatesForRegion))
         regionData)
    tipos regionData.

(** The score by which [getRegionData] orders. *)
Definition score (c : obj) : number := ToNumber (obj_get c "pontuacao").

(** Non-ascending by score: each candidate's score is [>=] the score of
    every later one. *)
Definition non_ascending (l : list obj) : Prop :=
  StronglySorted (fun a b => num_ge (score a) (score b) = true) l.

Definition region_list (rd : list (string * list obj)) (tipo : string) : list obj :=
  match assoc_get rd tipo with
  | Some l => l
  | None => []
  end.

(** ** The remote store, the clock and the console *)

Infix "+++" := String.append (right associativity, at level 60).

(** A document of a collection: its id and its data. *)
Definition doc : Type := string * obj.

(** The calls the module makes on the remote store. *)
Inductive op : Type :=
| GetDocs (path : string)
| DeleteDoc (path : string) (id : string)
| AddDoc (path : string) (data : obj).

(** What the module does not decide: which remote calls are rejected, the
    ids the store assigns and what the clock reads. *)
Record env : Type := {
  rejects : op -> bool;
  new_id : nat -> string;
  clock : nat -> string
}.

Record world : Type := {
  remote : list (string * list doc);  (* collection path -> its documents *)
  issued : list op;                   (* remote calls so far, oldest first *)
  console : list string;              (* messages logged so far *)
  ticks : nat;                        (* readings of the clock so far *)
  events : nat                        (* firebaseDataUpdated events dispatched *)
}.

Definition documents (w : world) (path : string) : list doc :=
  match assoc_get (remote w) path with
  | Some ds => ds
  | None => []
  end.

Definition log (msg : string) (w : world) : world :=
  {| remote := remote w; issued := issued w; console := console w ++ [msg];
     ticks := ticks w; events := events w |}.

Definition issue (o : op) (w : world) : world :=
  {| remote := remote w; issued := issued w ++ [o]; console := console w;
     ticks := ticks w; events := events w |}.

Definition set_documents (path : string) (ds : list doc) (w : world) : world :=
  {| remote := assoc_set path ds (remote w); issued := issued w;
     console := console w; ticks := ticks w; events := events w |}.

(** [new Date().toISOString()] *)
Definition now (E : env) (w : world) : string * world :=
  (clock E (ticks w),
   {| remote := remote w; issued := issued w; console := console w;
      ticks := S (ticks w); events := events w |}).

(** [addDoc]: the promise is fulfilled ([true]) or rejected ([false]). *)
Definition addDoc (E : env) (path : string) (data : obj) (w : world) : bool * world :=
  let o := AddDoc path data in
  if rejects E o then (false, issue o w)
  else (true,
        issue o
          (set_documents path
             (documents w path ++ [(new_id E (length (issued w)), data)]) w)).

(** [getDocs] of the whole collection. *)
Definition getDocs (E : env) (path : string) (w : world) : option (list doc) * world :=
  let o := GetDocs path in
  if rejects E o then (None, issue o w)
  else (Some (documents w path), issue o w).

Definition deleteDoc (E : env) (path : string) (id : string) (w : world) : bool * world :=
  let o := DeleteDoc path id in
  if rejects E o then (false, issue o w)
  else (true,
        issue o
          (set_documents path
             (filter (fun d => negb (String.eqb (fst d) id)) (documents w path)) w)).

(** ** The write operations *)

(** The collection of the current identity. *)
Definition collection_path (st : facade) : string :=
  "artifacts/" +++ appId st +++ "/users/" +++ ToString (userId st) +++ "/candidates".

(** The snapshot listener: the cache is replaced by [{ id: doc.id,
    ...doc.data() }] for each document, and the update event is
    dispatched. *)
Definition snapshot_record (d : doc) : obj :=
  fold_left (fun o kv => assoc_set (fst kv) (snd kv) o) (snd d) [("id", VStr (fst d))].

(** [_dispatchDataUpdateEvent]: a firebaseDataUpdated event on the
    document. *)
Definition dispatchDataUpdateEvent (w : world) : world :=
  {| remote := remote w; issued := issued w; console := console w;
     ticks := ticks w; events := S (events w) |}.

Definition on_snapshot (st : facade) (snapshot : list doc) (w : world)
  : facade * world :=
  ({| userId := userId st; appId := appId st;
      allCandidates := map snapshot_record snapshot;
      isAuthReady := isAuthReady st |},
   dispatchDataUpdateEvent (log "Dados do Firestore atualizados localmente:" w)).

(** The own enumerable properties [{...v}] copies. *)
Definition spread (v : value) : obj :=
  match v with
  | VObj o => o
  | VArr l =>
      map (fun iv => (ToString (VNum (norm (Z.of_nat (fst iv)) 0)), snd iv))
          (combine (seq 0 (length l)) l)
  | VStr s =>
      map (fun ic => (ToString (VNum (norm (Z.of_nat (fst ic)) 0)),
                      VStr (String (snd ic) EmptyString)))
          (combine (seq 0 (length (T s))) (T s))
  | _ => []
  end.

Definition addCandidate (E : env) (region candidate : value) (st : facade) (w : world)
  : bool * facade * world :=
  if negb (isAuthReady st) then
    (false, st, log "Firestore não está pronto. Candidato não adicionado." w)
  else
    let (ts, w1) := now E w in
    let data :=
      assoc_set "timestamp" (VStr ts)
        (assoc_set "region" region
           (fold_left (fun o kv => assoc_set (fst kv) (snd kv) o) (spread candidate) [])) in
    let (ok, w2) := addDoc E (collection_path st) data w1 in
    if ok then (true, st, log "Candidato adicionado no Firestore:" w2)
    else (false, st, log "Erro ao adicionar candidato ao Firestore: " w2).

(** The callback of [querySnapshot.forEach] in [clearAll]: the deletion of
    a document is issued; [fst acc] tells whether every deletion so far
    was fulfilled. *)
Definition delete_each (E : env) (path : string) (acc : bool * world) (d : doc)
  : bool * world :=
  let (ok, w') := deleteDoc E path (fst d) (snd acc) in
  (fst acc && ok, w')%bool.

Definition clearAll (E : env) (st : facade) (w : world) : bool * facade * world :=
  if negb (isAuthReady st) then
    (false, st, log "Firestore não está pronto. Não é possível limpar os dados." w)
  else
    let path := collection_path st in
    match getDocs E path w with
    | (None, w1) => (false, st, log "Erro ao limpar dados do Firestore: " w1)
    | (Some querySnapshot, w1) =>
        let '(deleted, w2) :=
          fold_left (delete_each E path) querySnapshot (true, w1) in
        if deleted then (true, st, log "Todos os dados foram limpos no Firestore." w2)
        else (false, st, log "Erro ao limpar dados do Firestore: " w2)
    end.

(** The record [restoreData] writes for an accepted candidate. *)
Definition restored_record (nome pontuacao tipo region timestamp : value) : obj :=
  [("nome", nome); ("pontuacao", VNum (parseFloat pontuacao)); ("tipo", tipo);
   ("region", region); ("timestamp", timestamp)].

(** The loop of [restoreData] over the parsed records.  The first
    component is [None] when an exception was thrown, by reading a
    property of [null] or by [parseFloat] on a score that cannot be
    converted to a string; else it tells whether every [addDoc] issued
    was fulfilled. *)
Fixpoint restore_loop (E : env) (path : string) (records : list value)
    (added : bool) (w : world) : option bool * world :=
  match records with
  | [] => (Some added, w)
  | candidate :: rest =>
      match get_prop candidate "nome", get_prop candidate "pontuacao",
            get_prop candidate "tipo", get_prop candidate "region",
            get_prop candidate "timestamp" with
      | Some nome, Some pontuacao, Some tipo, Some region, Some timestamp =>
          if (ToBoolean nome && not_undefined pontuacao
              && ToBoolean tipo && ToBoolean region)%bool
          then
            if converts pontuacao then
              let (ts, w1) :=
                if ToBoolean timestamp then (timestamp, w)
                else let (t, w') := now E w in (VStr t, w') in
              let (ok, w2) :=
                addDoc E path (restored_record nome pontuacao tipo region ts) w1 in
              restore_loop E path rest (added && ok) w2
            else (None, w)
          else
            restore_loop E path rest added
              (log "Candidato inválido no arquivo de restauração, pulando:" w)
      | _, _, _, _, _ => (None, w)
      end
  end.

Definition isArray (v : value) : bool :=
  match v with VArr _ => true | _ => false end.

Definition restoreData (E : env) (jsonData : string) (st : facade) (w : world)
  : bool * facade * world :=
  if negb (isAuthReady st) then
    (false, st, log "Firestore não está pronto. Não é possível restaurar os dados." w)
  else
    match JSON_parse jsonData with
    | None => (false, st, log "Erro ao restaurar dados no Firestore: " w)
    | Some dataToRestore =>
        if (negb (ToBoolean dataToRestore) || negb (isArray dataToRestore))%bool then
          (false, st,
           log "Formato de arquivo inválido. Esperado um array de candidatos." w)
        else
          let '(_, st1, w1) := clearAll E st w in
          let records := match dataToRestore with VArr l => l | _ => [] end in
          match restore_loop E (collection_path st1) records true w1 with
          | (Some true, w2) =>
              (true, st1, log "Dados restaurados com sucesso no Firestore!" w2)
          | (_, w2) =>
              (false, st1, log "Erro ao restaurar dados no Firestore: " w2)
          end
    end.

(** ** The exports *)

Definition cache_value (st : facade) : value := VArr (map VObj (allCandidates st)).

(** [JSON.parse(JSON.stringify(this.allCandidates))]; [None] is an
    exception. *)
Definition getAllData (st : facade) : option value :=
  match JSON_stringify (cache_value st) 0 with
  | Some s => JSON_parse s
  | None => None
  end.

(** [JSON.stringify(this.allCandidates, null, 2)] *)
Definition exportJSON (st : facade) : string :=
  string_of_list_ascii (serialize (repeat " "%char 2) [] (cache_value st)).

Definition csv_header : string :=
  "Região,Nome,Pontuação,Tipo,Data/Hora" +++ String newline EmptyString.

Definition tipoName (candidato : obj) : string :=
  if strict_eq_string (obj_get candidato "tipo") "ampla" then "Ampla Concorrência"
  else if strict_eq_string (obj_get candidato "tipo") "pcd" then "PCD"
  else "PPP".

Definition quote_mark : string := String dquote EmptyString.

(** Whether the four fields a line converts to strings can be converted:
    the template literal throws a TypeError on one that cannot. *)
Definition line_converts (candidato : obj) : bool :=
  (converts (obj_get candidato "region") && converts (obj_get candidato "nome")
   && converts (obj_get candidato "pontuacao")
   && converts (obj_get candidato "timestamp"))%bool.

(** The text of the template literal. *)
Definition line_text (candidato : obj) : string :=
  ToString (obj_get candidato "region") +++ "," +++
  quote_mark +++ ToString (obj_get candidato "nome") +++ quote_mark +++ "," +++
  ToString (obj_get candidato "pontuacao") +++ "," +++
  tipoName candidato +++ "," +++
  ToString (obj_get candidato "timestamp") +++ String newline EmptyString.

(** The line [exportCSV] appends for a candidate; [None] when the template
    literal throws. *)
Definition csv_line (candidato : obj) : option string :=
  if line_converts candidato then Some (line_text candidato) else None.

(** [exportCSV]; [None] is the TypeError of a line. *)
Definition exportCSV (st : facade) : option string :=
  fold_left (fun csv candidato =>
               match csv, csv_line candidato with
               | Some text, Some line => Some (text +++ line)
               | _, _ => None
               end)
            (allCandidates st) (Some csv_header).

(** ** Objects with identity

    For what a caller can do to a result, arrays and objects are cells of
    a heap and a value is a primitive or a reference to a cell.  A tree
    ([value]) is what a reference denotes in a heap. *)

Definition loc : Type := nat.

Inductive ref : Type :=
| RUndefined
| RNull
| RBool (b : bool)
| RNum (n : number)
| RStr (s : string)
| RObj (l : loc).

Inductive cell : Type :=
| CArr (elems : list ref)
| CObj (props : list (string * ref)).

Definition heap : Type := list cell.

Definition alloc_list (alloc : value -> heap -> ref * heap)
  : list value -> heap -> list ref * heap :=
  fix go (l : list value) (h : heap) : list ref * heap :=
    match l with
    | [] => ([], h)
    | x :: l' =>
        let (r, h1) := alloc x h in
        let (rs, h2) := go l' h1 in
        (r :: rs, h2)
    end.

Definition alloc_props (alloc : value -> heap -> ref * heap)
  : list (string * value) -> heap -> list (string * ref) * heap :=
  fix go (ps : list (string * value)) (h : heap) : list (string * ref) * heap :=
    match ps with
    | [] => ([], h)
    | kx :: ps' =>
        let (r, h1) := alloc (snd kx) h in
        let (rs, h2) := go ps' h1 in
        ((fst kx, r) :: rs, h2)
    end.

(** The objects [JSON.parse] creates for a tree: every array and object
    is a new cell, at the end of the heap. *)
Fixpoint alloc (v : value) (h : heap) : ref * heap :=
  match v with
  | VUndefined => (RUndefined, h)
  | VNull => (RNull, h)
  | VBool b => (RBool b, h)
  | VNum n => (RNum n, h)
  | VStr s => (RStr s, h)
  | VArr l =>
      let (rs, h1) := alloc_list alloc l h in
      (RObj (length h1), h1 ++ [CArr rs])
  | VObj ps =>
      let (rs, h1) := alloc_props alloc ps h in
      (RObj (length h1), h1 ++ [CObj rs])
  end.

Definition read_list (read : ref -> option value) : list ref -> option (list value) :=
  fix go (rs : list ref) : option (list value) :=
    match rs with
    | [] => Some []
    | r :: rs' =>
        match read r, go rs' with
        | Some v, Some vs => Some (v :: vs)
        | _, _ => None
        end
    end.

Definition read_props (read : ref -> option value)
  : list (string * ref) -> option (list (string * value)) :=
  fix go (ps : list (string * ref)) : option (list (string * value)) :=
    match ps with
    | [] => Some []
    | kr :: ps' =>
        match read (snd kr), go ps' with
        | Some v, Some vs => Some ((fst kr, v) :: vs)
        | _, _ => None
        end
    end.

(** The tree a reference denotes, as [JSON.stringify] walks it; [fuel]
    bounds the depth, and a structure that is deeper or cyclic denotes
    none. *)
Fixpoint read (fuel : nat) (h : heap) (r : ref) : option value :=
  match r with
  | RUndefined => Some VUndefined
  | RNull => Some VNull
  | RBool b => Some (VBool b)
  | RNum n => Some (VNum n)
  | RStr s => Some (VStr s)
  | RObj l =>
      match fuel with
      | O => None
      | S f =>
          match nth_error h l with
          | Some (CArr rs) =>
              match read_list (read f h) rs with
              | Some vs => Some (VArr vs)
              | None => None
              end
          | Some (CObj ps) =>
              match read_props (read f h) ps with
              | Some vs => Some (VObj vs)
              | None => None
              end
          | None => None
          end
      end
  end.

(** What a program can do to the heap: change the cell of an object it
    holds (assign or delete a property or an element, push, sort, ...)
    or create an object. *)
Inductive mutation : Type :=
| Write (l : loc) (c : cell)
| New (c : cell).

Definition mutate (h : heap) (m : mutation) : heap :=
  match m with
  | Write l c => if Nat.ltb l (length h) then firstn l h ++ c :: skipn (S l) h else h
  | New c => h ++ [c]
  end.

(** A mutation that touches no cell below [n]. *)
Definition above (n : nat) (m : mutation) : Prop :=
  match m with
  | Write l _ => n <= l
  | New _ => True
  end.

(** The cells that make up what [r] refers to. *)
Inductive reachable (h : heap) : ref -> loc -> Prop :=
| reach_cell (l : loc) : reachable h (RObj l) l
| reach_elem (l : loc) (rs : list ref) (r : ref) (l' : loc) :
    nth_error h l = Some (CArr rs) -> In r rs -> reachable h r l' ->
    reachable h (RObj l) l'
| reach_prop (l : loc) (ps : list (string * ref)) (k : string) (r : ref) (l' : loc) :
    nth_error h l = Some (CObj ps) -> In (k, r) ps -> reachable h r l' ->
    reachable h (RObj l) l'.

(** [getAllData] when [this.allCandidates] is the reference [cache] into
    the heap [h]: the tree it denotes is serialised, parsed, and the
    parsed tree is created as new objects.  [None] is an exception. *)
Definition getAllData_in (fuel : nat) (h : heap) (cache : ref) : option (ref * heap) :=
  match read fuel h cache with
  | None => None
  | Some v =>
      match JSON_stringify v 0 with
      | None => None
      | Some s =>
          match JSON_parse s with
          | None => None
          | Some copy => Some (alloc copy h)
          end
      end
  end.

(** ** Vocabulary of the properties *)

(** Nothing but the console differs between [w] and [w']: no remote call
    was issued, no document changed, the clock was not read and no event
    was dispatched. *)
Definition same_store (w w' : world) : Prop :=
  remote w' = remote w /\ issued w' = issued w
  /\ ticks w' = ticks w /\ events w' = events w.

(** The data of the [addDoc] calls among [ops], and the ids of the
    [deleteDoc] calls. *)
Definition adds_of (ops : list op) : list obj :=
  flat_map (fun o => match o with AddDoc _ d => [d] | _ => [] end) ops.

Definition deletes_of (ops : list op) : list string :=
  flat_map (fun o => match o with DeleteDoc _ id => [id] | _ => [] end) ops.

(** [candidate.k], reading [undefined] where the read would throw. *)
Definition prop (candidate : value) (k : string) : value :=
  match get_prop candidate k with
  | Some v => v
  | None => VUndefined
  end.

(** The validation of [restoreData]: name, category and region truthy,
    score not [undefined]. *)
Definition accepted (candidate : value) : bool :=
  (ToBoolean (prop candidate "nome") && not_undefined (prop candidate "pontuacao")
   && ToBoolean (prop candidate "tipo") && ToBoolean (prop candidate "region"))%bool.

(** The elements at which the loop of [restoreData] throws: [null], on
    which reading a property throws, and an accepted record whose score
    cannot be converted to a string, on which [parseFloat] throws. *)
Definition throws (candidate : value) : bool :=
  match candidate with
  | VUndefined | VNull => true
  | _ => accepted candidate && negb (converts (prop candidate "pontuacao"))
  end.

(** The records the loop of [restoreData] gets past: those before the
    first at which it throws. *)
Fixpoint reached (records : list value) : list value :=
  match records with
  | [] => []
  | c :: rest => if throws c then [] else c :: reached rest
  end.

(** The record [restoreData] writes for an accepted [candidate] when the
    clock reads [reading]: the timestamp is the candidate's when that is
    truthy, else the reading. *)
Definition restored_from (candidate : value) (reading : string) : obj :=
  restored_record (prop candidate "nome") (prop candidate "pontuacao")
    (prop candidate "tipo") (prop candidate "region")
    (if ToBoolean (prop candidate "timestamp") then prop candidate "timestamp"
     else VStr reading).



(** What may follow a number in a text: nothing that would continue it. *)
Definition number_end (rest : text) : bool :=
  match rest with
  | [] => true
  | c :: _ =>
      negb (is_digit c || Ascii.eqb c "." || Ascii.eqb c "e" || Ascii.eqb c "E")
  end.

(** What [JSON.parse] reads back from the text [JSON.stringify] writes for
    a value that is not [undefined]: [null] for an [undefined] array
    element and for a number that is not finite, no property for an
    [undefined] property value. *)
Fixpoint json_image (v : value) : value :=
  match v with
  | VUndefined => VNull
  | VNum n => if is_finite n then VNum n else VNull
  | VArr l => VArr (map json_image l)
  | VObj ps =>
      VObj ((fix members (ps : list (string * value)) : list (string * value) :=
               match ps with
               | [] => []
               | (k, x) :: ps' =>
                   match x with
                   | VUndefined => members ps'
                   | _ => (k, json_image x) :: members ps'
                   end
               end) ps)
  | _ => v
  end.

Fixpoint distinct (ks : list string) : bool :=
  match ks with
  | [] => true
  | k :: ks' => negb (existsb (String.eqb k) ks') && distinct ks'
  end.

(** The trees that stand for a JavaScript value: every finite number in
    lowest terms and the keys of every object distinct. *)
Fixpoint wf_value (v : value) : bool :=
  match v with
  | VNum n => num_wf n
  | VArr l => forallb wf_value l
  | VObj ps =>
      distinct (map fst ps)
      && (fix members (ps : list (string * value)) : bool :=
            match ps with
            | [] => true
            | (_, x) :: ps' => wf_value x && members ps'
            end) ps
  | _ => true
  end.

(** The values JSON text can carry as they are: no [undefined], no number
    that is not finite. *)
Fixpoint json_clean (v : value) : bool :=
  match v with
  | VUndefined => false
  | VNum n => is_finite n
  | VArr l => forallb json_clean l
  | VObj ps =>
      (fix members (ps : list (string * value)) : bool :=
         match ps with
         | [] => true
         | (_, x) :: ps' => json_clean x && members ps'
         end) ps
  | _ => true
  end.

(** The calls of the parser a value needs. *)
Fixpoint vsize (v : value) : nat :=
  match v with
  | VArr l =>
      S ((fix elements (l : list value) : nat :=
            match l with
            | [] => 0
            | x :: l' => S (vsize x + elements l')
            end) l)
  | VObj ps =>
      S ((fix members (ps : list (string * value)) : nat :=
            match ps with
            | [] => 0
            | (_, x) :: ps' => S (vsize x + members ps')
            end) ps)
  | _ => 1
  end.

Definition elements_size (l : list value) : nat :=
  fold_right (fun x n => S (vsize x + n)) 0 l.

Definition members_size (ps : list (string * value)) : nat :=
  fold_right (fun kv n => S (vsize (snd kv) + n)) 0 ps.

(** References and cells that point to no cell below [n]. *)
Definition ref_above (n : nat) (r : ref) : Prop :=
  match r with
  | RObj l => n <= l
  | _ => True
  end.

Definition cell_above (n : nat) (c : cell) : Prop :=
  match c with
  | CArr rs => Forall (ref_above n) rs
  | CObj ps => Forall (fun kr => ref_above n (snd kr)) ps
  end.

(** What creating the tree [v] does to any heap: cells are added at the
    end, they and the result point to added cells only, and the result
    denotes [v]. *)
Definition alloc_ok (v : value) : Prop :=
  forall h : heap,
    (exists ext, snd (alloc v h) = h ++ ext /\ Forall (cell_above (length h)) ext)
    /\ ref_above (length h) (fst (alloc v h))
    /\ (forall fuel, vsize v <= fuel -> read fuel (snd (alloc v h)) (fst (alloc v h)) = Some v).


(** A region value for which [==] with the text [r] is in this model what
    it is in the program: the value can be converted, its numbers are
    exact, and when it is compared as a number the text reads as an exact
    number. *)
Definition comparable_region (r : string) (v : value) : bool :=
  (converts v && exact_value v
   && match v with
      | VNum _ | VBool _ => num_exact (StringToNumber r)
      | _ => true
      end)%bool.

(** A score value whose number is in this model what it is in the
    program. *)
Definition sortable_score (v : value) : bool :=
  (converts v && exact_value v && num_exact (ToNumber v))%bool.

(** The records of a cache on which [getRegionData(r)] is in this model
    what it is in the program. *)
Definition comparable (r : string) (c : obj) : bool :=
  (comparable_region r (obj_get c "region") && sortable_score (obj_get c "pontuacao"))%bool.

(** ** Start-up

    What [initializeFirebase] reads of the page, and what the SDK answers. *)
Record page : Type := {
  firebase_config : option string;     (* __firebase_config, when it is defined *)
  initial_auth_token : option string   (* __initial_auth_token, when it is defined *)
}.

Record sdk : Type := {
  (* initializeApp, getAuth and getFirestore on the parsed configuration:
     [false] when one of them throws *)
  initializeApp : value -> bool;
  (* the sign-in: [None] when it is rejected, else [auth.currentUser?.uid],
     where [None] stands for undefined *)
  signInWithCustomToken : string -> option (option string);
  signInAnonymously : option (option string);
  randomUUID : string;
  (* collection and onSnapshot on a path: [false] when one of them throws *)
  onSnapshot : string -> bool
}.

(** The [try] block of [initializeFirebase] up to the assignment of
    [userId]: the user id, or [None] when an exception was thrown. *)
Definition signIn (P : page) (K : sdk) : option string :=
  match JSON_parse (match firebase_config P with Some c => c | None => "{}" end) with
  | None => None
  | Some firebaseConfig =>
      if initializeApp K firebaseConfig then
        match (match initial_auth_token P with
               | Some token => signInWithCustomToken K token
               | None => signInAnonymously K
               end) with
        | Some uid =>
            Some (match uid with
                  | Some u => if String.eqb u "" then randomUUID K else u
                  | None => randomUUID K
                  end)
        | None => None
        end
      else None
  end.

(** [_setupCandidatesListener]: the path the listener is subscribed to, if
    any; [None] when subscribing threw. *)
Definition setupCandidatesListener (K : sdk) (st : facade) (w : world)
  : option (option string) * world :=
  if negb (isAuthReady st) then
    (Some None,
     log "Firestore não está pronto para configurar listener. Aguardando autenticação." w)
  else if onSnapshot K (collection_path st) then (Some (Some (collection_path st)), w)
  else (None, w).

(** [initializeFirebase] with its effects: the facade, the path the
    listener is subscribed to and the world. *)
Definition initializeFirebase_in (P : page) (K : sdk) (st : facade) (w : world)
  : facade * option string * world :=
  match signIn P K with
  | Some uid =>
      let st1 := initializeFirebase st (Some uid) in
      let w1 := log "Firebase inicializado. ID do Usuário:" w in
      match setupCandidatesListener K st1 w1 with
      | (Some listening, w2) => (st1, listening, w2)
      | (None, w2) => (st1, None, log "Erro ao inicializar Firebase:" w2)
      end
  | None => (initializeFirebase st None, None, log "Erro ao inicializar Firebase:" w)
  end.

(** ** More vocabulary *)

(** The loop of [restoreData] throws at no element of the payload. *)
Definition all_reached (records : list value) : bool :=
  forallb (fun c => negb (throws c)) records.

(** A payload on which [restoreData] is in this model what it is in the
    program: the numbers of the payload, and the scores [parseFloat]
    reads for the records written, are in the range where decimals are
    exact. *)
Definition exact_payload (records : list value) : bool :=
  (forallb exact_value records
   && forallb (fun c => num_exact (parseFloat (prop c "pontuacao")))
              (filter accepted (reached records)))%bool.

(** The records [restoreData] writes for [records], in order, when the
    clock has been read [tick] times: a record without a truthy timestamp
    takes the next reading. *)
Fixpoint restored_list (E : env) (tick : nat) (records : list value) : list obj :=
  match records with
  | [] => []
  | c :: rest =>
      if accepted c then
        restored_from c (clock E tick)
        :: restored_list E (if ToBoolean (prop c "timestamp") then tick else S tick) rest
      else restored_list E tick rest
  end.

(** Whether the store fulfils the [addDoc] of [data] on [path]. *)
Definition fulfilled (E : env) (path : string) (data : obj) : bool :=
  negb (rejects E (AddDoc path data)).

(** A cached record that a backup carries whole: name, category, region
    and timestamp truthy, and a finite number as score. *)
Definition restorable (c : obj) : bool :=
  (ToBoolean (obj_get c "nome") && ToBoolean (obj_get c "tipo")
   && ToBoolean (obj_get c "region") && ToBoolean (obj_get c "timestamp")
   && match obj_get c "pontuacao" with VNum (Fin _ _) => true | _ => false end)%bool.

(** The five fields [restoreData] keeps of a record. *)
Definition kept_fields (c : obj) : obj :=
  [("nome", obj_get c "nome"); ("pontuacao", obj_get c "pontuacao");
   ("tipo", obj_get c "tipo"); ("region", obj_get c "region");
   ("timestamp", obj_get c "timestamp")].

(** The line ends of a text. *)
Fixpoint line_ends (s : string) : nat :=
  match s with
  | EmptyString => 0
  | String c s' => (if Ascii.eqb c newline then 1 else 0) + line_ends s'
  end.

(** The shape of a record [restoreData] writes: the five fields in their
    order, a number as score, and name, category and region truthy. *)
Definition restored_shape (d : obj) : Prop :=
  map fst d = ["nome"; "pontuacao"; "tipo"; "region"; "timestamp"]
  /\ (exists n, obj_get d "pontuacao" = VNum n)
  /\ ToBoolean (obj_get d "nome") = true
  /\ ToBoolean (obj_get d "tipo") = true
  /\ ToBoolean (obj_get d "region") = true.

(** The line ends inside the fields of a candidate's line. *)
Definition stray_line_ends (c : obj) : nat :=
  line_ends (ToString (obj_get c "region")) + line_ends (ToString (obj_get c "nome"))
  + line_ends (ToString (obj_get c "pontuacao"))
  + line_ends (ToString (obj_get c "timestamp")).

(** A white space character of a text: an ASCII one, or the bytes of one
    of the others. *)
Definition white_piece (p : text) : Prop :=
  (exists c, p = [c] /\ is_space c = true) \/ In p wide_spaces.

(** A text that starts with nothing a number can start with: no digit,
    sign or decimal point, and not the I of Infinity. *)
Definition no_number_head (t : text) : bool :=
  match t with
  | [] => true
  | c :: _ =>
      negb (is_digit c || Ascii.eqb c "-" || Ascii.eqb c "+" || Ascii.eqb c "."
            || Ascii.eqb c "I")
  end.

(** ** getRegionData on objects with identity *)







(** ** Sequences of write calls *)






(** ** Sample data *)

Definition candidate_doc (id region nome : string) (pontuacao : value) (tipo : string)
  : obj :=
  [("id", VStr id); ("nome", VStr nome); ("pontuacao", pontuacao);
   ("region", VStr region); ("tipo", VStr tipo);
   ("timestamp", VStr "2024-05-01T12:00:00.000Z")].

Definition facade_with (cache : list obj) : facade :=
  {| userId := VStr "uid-1"; appId := "default-app-id";
     allCandidates := cache; isAuthReady := true |}.

Definition alice : obj := candidate_doc "d1" "north" "Alice" (VNum (Fin 9 1)) "ampla".
Definition bob : obj := candidate_doc "d2" "north" "Bob" (VNum (Fin 95 0)) "ampla".
Definition carol : obj := candidate_doc "d3" "north" "Carol" (VNum (Fin 5 1)) "ampla".
Definition dan : obj := candidate_doc "d4" "north" "Dan" (VNum NaN) "ampla".
Definition dan_pcd : obj := candidate_doc "d4" "north" "Dan" (VNum NaN) "pcd".
Definition eve : obj := candidate_doc "d5" "north" "Eve" (VNum (Fin 7 1)) "cotas".

(** JSON text written with apostrophes for the double quotes. *)
Definition json (s : string) : string :=
  string_of_list_ascii
    (map (fun c => if Ascii.eqb c "'" then dquote else c) (T s)).

Definition accepting : env :=
  {| rejects := fun _ => false;
     new_id := fun n => "doc-" +++ string_of_list_ascii (digits (N.of_nat n));
     clock := fun _ => "2024-05-02T08:30:00.000Z" |}.

Definition offline : env :=
  {| rejects := fun _ => true;
     new_id := new_id accepting;
     clock := clock accepting |}.

Definition empty_world : world :=
  {| remote := []; issued := []; console := []; ticks := 0; events := 0 |}.

Definition not_ready : facade := constructor None.

Definition ready : facade := initializeFirebase (constructor None) (Some "uid-1").

Definition ready_path : string := "artifacts/default-app-id/users/uid-1/candidates".

(** A store holding one document of the current identity. *)
Definition one_doc_world : world :=
  {| remote := [(ready_path, [("d1", tl alice)])];
     issued := []; console := []; ticks := 0; events := 0 |}.

Definition payload_invalid_valid : string :=
  json "[{'nome':'Ana','tipo':'pcd','region':'north'},{'nome':'Bia','pontuacao':'90','tipo':'ampla','region':'north'}]".


Definition payload_score_object : string :=
  json "[{'nome':'Ana','tipo':'pcd','region':'north'},{'nome':'Bia','pontuacao':{'toString':1},'tipo':'ampla','region':'north','timestamp':'2024-01-01T00:00:00.000Z'}]".

Definition payload_three : string :=
  json "[{'nome':'Bia','pontuacao':'90','tipo':'ampla','region':'north'},{'nome':'Ana','tipo':'pcd','region':'north'},{'nome':'Caio','pontuacao':71.5,'tipo':'pcd','region':'south','timestamp':'2024-01-01T00:00:00.000Z'}]".

Definition payload_object : string := json "{'nome':'Ana','pontuacao':90}".

Definition payload_garbage : string := "nome;pontuacao".

Definition payload_text_score : string :=
  json "[{'nome':'Dan','pontuacao':'n/a','tipo':'ampla','region':'north'}]".

(** The cache of the sample facade, as objects of a heap. *)
Definition sample_heap : heap := snd (alloc (cache_value (facade_with [alice; bob])) []).
Definition sample_cache : ref := fst (alloc (cache_value (facade_with [alice; bob])) []).

(** A store that rejects the deletion of the document d2 alone. *)
Definition keeps_d2 : env :=
  {| rejects := fun o => match o with
                         | DeleteDoc _ id => String.eqb id "d2"
                         | _ => false
                         end;
     new_id := new_id accepting;
     clock := clock accepting |}.

(** A store holding three documents of the current identity and one of
    another user. *)
Definition three_doc_world : world :=
  {| remote := [(ready_path, [("d1", tl alice); ("d2", tl bob); ("d3", tl carol)]);
                ("artifacts/default-app-id/users/uid-2/candidates", [("e1", tl eve)])];
     issued := []; console := []; ticks := 0; events := 0 |}.


(** A store that rejects every query and fulfils the rest. *)
Definition no_query : env :=
  {| rejects := fun o => match o with GetDocs _ => true | _ => false end;
     new_id := new_id accepting;
     clock := clock accepting |}.

Definition payload_valid_null : string :=
  json "[{'nome':'Bia','pontuacao':'90','tipo':'ampla','region':'north'},null]".

(** Frank has Alice's score and comes after her in the cache. *)
Definition frank : obj := candidate_doc "d6" "north" "Frank" (VStr "90.0") "ampla".


Definition anonymous_sdk : sdk :=
  {| initializeApp := fun _ => true;
     signInWithCustomToken := fun _ => None;
     signInAnonymously := Some None;
     randomUUID := "uuid-1";
     onSnapshot := fun _ => true |}.

(** A page whose configuration is no JSON text. *)
Definition broken_page : page :=
  {| firebase_config := Some "{apiKey:"; initial_auth_token := None |}.

(** Gil's region is the number 5. *)
Definition gil : obj :=
  [("id", VStr "d7"); ("nome", VStr "Gil"); ("pontuacao", VNum (Fin 8 1));
   ("region", VNum (Fin 5 0)); ("tipo", VStr "pcd")].

(** * Properties *)

(** ** Order of numbers *)

Lemma pow10_pos (z : Z) : (0 <= z -> 0 < 10 ^ z)%Z.
Proof. intros H. apply Z.pow_pos_nonneg; lia. Qed.

Lemma scale_shift (m e k k' : Z) :
  (k' <= k -> k <= e -> scale m e k' = scale m e k * 10 ^ (k - k'))%Z.
Proof.
  intros H1 H2. unfold scale.
  replace (e - k')%Z with ((e - k) + (k - k'))%Z by lia.
  rewrite Z.pow_add_r by lia. ring.
Qed.

Lemma compare_scale_shift (m1 e1 m2 e2 k k' : Z) :
  (k' <= k)%Z -> (k <= e1)%Z -> (k <= e2)%Z ->
  (scale m1 e1 k' ?= scale m2 e2 k')%Z = (scale m1 e1 k ?= scale m2 e2 k)%Z.
Proof.
  intros H H1 H2.
  rewrite (scale_shift m1 e1 k k'), (scale_shift m2 e2 k k') by assumption.
  pose proof (pow10_pos (k - k')) as Hp.
  destruct (Z.compare_spec (scale m1 e1 k) (scale m2 e2 k)) as [E|E|E].
  - rewrite E. apply Z.compare_refl.
  - apply Z.compare_lt_iff. nia.
  - apply Z.compare_gt_iff. nia.
Qed.

Lemma fin_compare_at (m1 e1 m2 e2 k : Z) :
  (k <= e1)%Z -> (k <= e2)%Z ->
  num_compare (Fin m1 e1) (Fin m2 e2)
  = Some (scale m1 e1 k ?= scale m2 e2 k)%Z.
Proof.
  intros H1 H2. simpl. f_equal. symmetry.
  apply compare_scale_shift; lia.
Qed.

Lemma fin_ge_at (m1 e1 m2 e2 k : Z) :
  (k <= e1)%Z -> (k <= e2)%Z ->
  num_ge (Fin m1 e1) (Fin m2 e2) = true <-> (scale m2 e2 k <= scale m1 e1 k)%Z.
Proof.
  intros H1 H2. unfold num_ge. rewrite (fin_compare_at m1 e1 m2 e2 k H1 H2).
  destruct (Z.compare_spec (scale m1 e1 k) (scale m2 e2 k));
    split; intros; try reflexivity; try discriminate; lia.
Qed.

Lemma num_compare_antisym (a b : number) :
  num_compare b a = option_map CompOpp (num_compare a b).
Proof.
  destruct a, b; simpl; try reflexivity.
  rewrite (Z.min_comm e0 e). f_equal. apply Z.compare_antisym.
Qed.

Lemma num_compare_defined (a b : number) :
  a <> NaN -> b <> NaN -> exists c, num_compare a b = Some c.
Proof.
  intros Ha Hb. destruct a, b; simpl; try congruence; eexists; reflexivity.
Qed.

Lemma num_ge_trans (a b c : number) :
  num_ge a b = true -> num_ge b c = true -> num_ge a c = true.
Proof.
  destruct a as [| | |m1 e1], b as [| | |m2 e2], c as [| | |m3 e3];
    try (intros; reflexivity); try (intros; discriminate).
  set (k := Z.min e1 (Z.min e2 e3)).
  rewrite (fin_ge_at m1 e1 m2 e2 k), (fin_ge_at m2 e2 m3 e3 k),
    (fin_ge_at m1 e1 m3 e3 k) by (unfold k; lia).
  lia.
Qed.

Lemma strip_zeros_sgn (fuel : nat) (m e : Z) :
  Z.sgn (fst (strip_zeros fuel m e)) = Z.sgn m.
Proof.
  revert m e. induction fuel as [|f IH]; intros m e; simpl; [reflexivity|].
  destruct (Z.eqb_spec (m mod 10) 0) as [H|H]; [|reflexivity].
  rewrite IH.
  assert (Hm : m = (10 * (m / 10))%Z).
  { rewrite (Z.div_mod m 10) at 1 by lia. lia. }
  destruct (Z.lt_trichotomy (m / 10) 0) as [L|[L|L]]; lia.
Qed.

Lemma norm_sgn (m e : Z) :
  exists m' e', norm m e = Fin m' e' /\ Z.sgn m' = Z.sgn m.
Proof.
  unfold norm. destruct (Z.eqb_spec m 0) as [->|H].
  - exists 0%Z, 0%Z. split; reflexivity.
  - pose proof (strip_zeros_sgn (S (Z.to_nat (Z.log2 (Z.abs m)))) m e) as Hs.
    destruct (strip_zeros _ m e) as [m' e']. exists m', e'. split; [reflexivity|exact Hs].
Qed.

Lemma fin_lt_zero (m e : Z) : num_lt (Fin m e) (Fin 0 0) = (m <? 0)%Z.
Proof.
  unfold num_lt. rewrite (fin_compare_at m e 0 0 (Z.min e 0)) by lia.
  unfold scale. rewrite Z.mul_0_l.
  pose proof (pow10_pos (e - Z.min e 0)) as Hp.
  destruct (Z.compare_spec (m * 10 ^ (e - Z.min e 0)) 0) as [H|H|H];
    destruct (Z.ltb_spec m 0); try reflexivity; nia.
Qed.

(** The sign of a difference is the order of its operands. *)
Lemma num_sub_sign (a b : number) (c : comparison) :
  num_compare a b = Some c ->
  num_lt (match num_sub a b with NaN => Fin 0 0 | v => v end) (Fin 0 0)
  = match c with Lt => true | _ => false end.
Proof.
  destruct a as [| | |m1 e1], b as [| | |m2 e2]; simpl;
    intros H; inversion H; subst; clear H; try reflexivity.
  set (d := (scale m1 e1 (Z.min e1 e2) - scale m2 e2 (Z.min e1 e2))%Z).
  destruct (norm_sgn d (Z.min e1 e2)) as (m' & e' & -> & Hs).
  rewrite fin_lt_zero.
  destruct (Z.compare_spec (scale m1 e1 (Z.min e1 e2)) (scale m2 e2 (Z.min e1 e2)));
    destruct (Z.ltb_spec m' 0); try reflexivity; unfold d in Hs; lia.
Qed.

(** ** Decimal digits *)

Lemma code_ascii_of_N (n : N) : (n < 256)%N -> code (ascii_of_N n) = n.
Proof. intros H. unfold code. apply N_ascii_embedding. exact H. Qed.

Lemma digit_char_is_digit (d : N) : (d < 10)%N -> is_digit (digit_char d) = true.
Proof.
  intros H. unfold is_digit, digit_char. rewrite code_ascii_of_N by lia.
  apply andb_true_intro. split; apply N.leb_le; lia.
Qed.

Lemma digit_val_char (d : N) : (d < 10)%N -> digit_val (digit_char d) = d.
Proof.
  intros H. unfold digit_val, digit_char. rewrite code_ascii_of_N by lia. lia.
Qed.

Lemma digits_value_acc (ds : text) (a : N) :
  fold_left (fun a c => (10 * a + digit_val c)%N) ds a
  = (a * 10 ^ N.of_nat (length ds) + digits_value ds)%N.
Proof.
  unfold digits_value. revert a. induction ds as [|c ds IH]; intros a.
  - cbn [fold_left length]. change (N.of_nat 0) with 0%N. rewrite N.pow_0_r. lia.
  - cbn [fold_left length]. rewrite IH, (IH (10 * 0 + digit_val c)%N).
    rewrite Nat2N.inj_succ, N.pow_succ_r'. lia.
Qed.

Lemma digits_value_app (a b : text) :
  digits_value (a ++ b)
  = (digits_value a * 10 ^ N.of_nat (length b) + digits_value b)%N.
Proof.
  unfold digits_value at 1. rewrite fold_left_app.
  fold (digits_value a). apply digits_value_acc.
Qed.

Lemma digits_value_cons (c : ascii) (ds : text) :
  digits_value (c :: ds)
  = (digit_val c * 10 ^ N.of_nat (length ds) + digits_value ds)%N.
Proof.
  change (c :: ds) with ([c] ++ ds). rewrite digits_value_app.
  unfold digits_value at 1. simpl. reflexivity.
Qed.

Lemma digits_value_zeros (k : nat) : digits_value (zeros k) = 0%N.
Proof.
  induction k as [|k IH]; [reflexivity|].
  change (zeros (S k)) with ("0"%char :: zeros k).
  rewrite digits_value_cons, IH. reflexivity.
Qed.

Lemma zeros_length (k : nat) : length (zeros k) = k.
Proof. apply repeat_length. Qed.

Lemma zeros_all_digits (k : nat) : forallb is_digit (zeros k) = true.
Proof. induction k as [|k IH]; [reflexivity|exact IH]. Qed.

Lemma digits_fuel_all_digits (fuel : nat) :
  forall (n : N) (acc : text),
    forallb is_digit acc = true -> forallb is_digit (digits_fuel fuel n acc) = true.
Proof.
  induction fuel as [|f IH]; intros n acc H; simpl; [exact H|].
  assert (Hd : forallb is_digit (digit_char (n mod 10) :: acc) = true).
  { simpl. rewrite H, digit_char_is_digit; [reflexivity|].
    apply N.mod_lt. discriminate. }
  destruct (n <? 10)%N; [exact Hd|apply IH; exact Hd].
Qed.

Lemma digits_fuel_value (f : nat) :
  forall (n : N) (acc : text),
    (n < 2 ^ N.of_nat (S f))%N ->
    digits_value (digits_fuel (S f) n acc)
    = (n * 10 ^ N.of_nat (length acc) + digits_value acc)%N
    /\ (exists c t, digits_fuel (S f) n acc = c :: t ++ acc
                    /\ ((0 < n)%N -> c <> "0"%char)).
Proof.
  induction f as [|f IH]; intros n acc H; cbn [digits_fuel].
  - assert (Hn : (n < 10)%N) by (simpl in H; lia).
    apply N.ltb_lt in Hn as Hb. rewrite Hb.
    rewrite digits_value_cons, N.mod_small, digit_val_char by exact Hn.
    split; [reflexivity|].
    exists (digit_char n), []. split; [reflexivity|].
    intros Hp Hc. apply (f_equal digit_val) in Hc.
    rewrite digit_val_char in Hc by exact Hn. vm_compute in Hc. lia.
  - destruct (N.ltb_spec n 10) as [Hn|Hn].
    + rewrite digits_value_cons, N.mod_small, digit_val_char by exact Hn.
      split; [reflexivity|].
      exists (digit_char n), []. split; [reflexivity|].
      intros Hp Hc. apply (f_equal digit_val) in Hc.
      rewrite digit_val_char in Hc by exact Hn. vm_compute in Hc. lia.
    + assert (Hq : (n / 10 < 2 ^ N.of_nat (S f))%N).
      { rewrite Nat2N.inj_succ, N.pow_succ_r' in H.
        apply N.Div0.div_lt_upper_bound. lia. }
      destruct (IH (n / 10)%N (digit_char (n mod 10) :: acc) Hq) as (Hv & c & t & Ht & Hc).
      cbn [digits_fuel] in Hv, Ht. split.
      * rewrite Hv, digits_value_cons, digit_val_char by (apply N.mod_lt; discriminate).
        cbn [length]. rewrite Nat2N.inj_succ, N.pow_succ_r'.
        replace (n * 10 ^ N.of_nat (length acc))%N
          with ((10 * (n / 10) + n mod 10) * 10 ^ N.of_nat (length acc))%N
          by (rewrite <- N.div_mod'; reflexivity).
        ring.
      * exists c, (t ++ [digit_char (n mod 10)]). split.
        -- rewrite Ht, <- app_assoc. reflexivity.
        -- intros _. apply Hc. apply N.div_str_pos. lia.
Qed.

Lemma digits_log2_bound (n : N) : (n < 2 ^ N.of_nat (S (N.to_nat (N.log2 n))))%N.
Proof.
  rewrite Nat2N.inj_succ, N2Nat.id.
  destruct (N.eq_dec n 0) as [->|Hn]; [reflexivity|].
  apply N.log2_spec. lia.
Qed.

Lemma digits_value_digits (n : N) : digits_value (digits n) = n.
Proof.
  unfold digits.
  destruct (digits_fuel_value _ n [] (digits_log2_bound n)) as (Hv & _).
  rewrite Hv. change (digits_value []) with 0%N.
  change (N.of_nat (length (@nil ascii))) with 0%N. rewrite N.pow_0_r. lia.
Qed.

Lemma digits_all_digits (n : N) : forallb is_digit (digits n) = true.
Proof. apply digits_fuel_all_digits. reflexivity. Qed.

Lemma digits_head (n : N) :
  exists c t, digits n = c :: t /\ ((0 < n)%N -> c <> "0"%char).
Proof.
  unfold digits.
  destruct (digits_fuel_value _ n [] (digits_log2_bound n)) as (_ & c & t & Ht & Hc).
  exists c, t. rewrite Ht, app_nil_r. split; [reflexivity|exact Hc].
Qed.

Lemma span_digits_app (ds rest : text) :
  forallb is_digit ds = true ->
  match rest with [] => True | c :: _ => is_digit c = false end ->
  span_digits (ds ++ rest) = (ds, rest).
Proof.
  intros Hd Hr. induction ds as [|c ds IH]; simpl.
  - destruct rest as [|c r]; [reflexivity|]. simpl. rewrite Hr. reflexivity.
  - simpl in Hd. apply andb_prop in Hd. destruct Hd as [Hc Hd].
    rewrite Hc, (IH Hd). reflexivity.
Qed.

Lemma number_end_no_digit (rest : text) :
  number_end rest = true ->
  match rest with [] => True | c :: _ => is_digit c = false end.
Proof.
  destruct rest as [|c r]; [trivial|]. simpl.
  destruct (is_digit c); [discriminate|reflexivity].
Qed.

(** ** Lowest terms *)

Lemma strip_zeros_pow (j : nat) :
  forall (fuel : nat) (m e : Z),
    j < fuel -> (m mod 10 <> 0)%Z ->
    strip_zeros fuel (m * 10 ^ Z.of_nat j) e = (m, (e + Z.of_nat j)%Z).
Proof.
  induction j as [|j IH]; intros fuel m e Hf Hm.
  - destruct fuel as [|f]; [lia|]. simpl.
    rewrite Z.mul_1_r, Z.add_0_r.
    destruct (Z.eqb_spec (m mod 10) 0); [contradiction|reflexivity].
  - destruct fuel as [|f]; [lia|]. cbn [strip_zeros].
    rewrite Nat2Z.inj_succ, Z.pow_succ_r by lia.
    replace (m * (10 * 10 ^ Z.of_nat j))%Z with ((m * 10 ^ Z.of_nat j) * 10)%Z by ring.
    rewrite Z.mod_mul by lia. cbn [Z.eqb].
    rewrite Z.div_mul by lia. rewrite IH by (assumption || lia).
    f_equal. lia.
Qed.

Lemma log2_pow10_bound (m : Z) (j : nat) :
  (m <> 0)%Z -> (Z.of_nat j <= Z.log2 (Z.abs (m * 10 ^ Z.of_nat j)))%Z.
Proof.
  intros Hm.
  assert (H2 : (2 ^ Z.of_nat j <= Z.abs (m * 10 ^ Z.of_nat j))%Z).
  { rewrite Z.abs_mul.
    assert (Hp : (2 ^ Z.of_nat j <= 10 ^ Z.of_nat j)%Z)
      by (apply Z.pow_le_mono_l; lia).
    assert (Hq : (0 < 2 ^ Z.of_nat j)%Z) by (apply Z.pow_pos_nonneg; lia).
    rewrite (Z.abs_eq (10 ^ Z.of_nat j)) by lia. nia. }
  apply Z.log2_le_mono in H2. rewrite Z.log2_pow2 in H2 by lia. exact H2.
Qed.

Lemma norm_pow (m e : Z) (j : nat) :
  (m mod 10 <> 0)%Z -> norm (m * 10 ^ Z.of_nat j) e = Fin m (e + Z.of_nat j).
Proof.
  intros Hm. assert (Hz : m <> 0%Z) by (intros ->; apply Hm; reflexivity).
  unfold norm.
  assert (Hp : (0 < 10 ^ Z.of_nat j)%Z) by (apply Z.pow_pos_nonneg; lia).
  destruct (Z.eqb_spec (m * 10 ^ Z.of_nat j) 0) as [E|_]; [nia|].
  rewrite strip_zeros_pow; [reflexivity| |exact Hm].
  pose proof (log2_pow10_bound m j Hz). lia.
Qed.

Lemma norm_wf (m e : Z) : num_wf (Fin m e) = true -> norm m e = Fin m e.
Proof.
  simpl. destruct (Z.eqb_spec m 0) as [->|Hz]; intros H.
  - apply Z.eqb_eq in H. subst e. reflexivity.
  - replace m with (m * 10 ^ Z.of_nat 0)%Z at 1 by (simpl; lia).
    rewrite norm_pow; [f_equal; simpl; lia|].
    destruct (Z.eqb_spec (m mod 10) 0); [discriminate|assumption].
Qed.

(** ** Numbers in JSON text *)

Lemma scan_exponent_digits (x : Z) (rest : text) :
  match rest with [] => True | c :: _ => is_digit c = false end ->
  scan_exponent
    ("e"%char :: (if (x <? 0)%Z then "-"%char else "+"%char)
       :: digits (Z.abs_N x) ++ rest)
  = Some (x, rest).
Proof.
  intros Hr. unfold scan_exponent. cbn [Ascii.eqb Bool.eqb orb].
  destruct (digits_head (Z.abs_N x)) as (c & t & Ht & _).
  pose proof (digits_all_digits (Z.abs_N x)) as Hd.
  pose proof (digits_value_digits (Z.abs_N x)) as Hv.
  destruct (Z.ltb_spec x 0) as [Hx|Hx]; cbn [Ascii.eqb Bool.eqb];
    rewrite (span_digits_app _ rest Hd Hr), Ht; rewrite <- Ht, Hv;
    unfold signed; f_equal; f_equal; lia.
Qed.

(** A number text made of integer digits, an optional fraction and an
    optional exponent is read back as that decimal. *)
Lemma json_unsigned_shape (neg : bool) (c : ascii) (t f : text) (x : option Z)
    (rest : text) :
  forallb is_digit (c :: t) = true ->
  (c <> "0"%char \/ t = []) ->
  forallb is_digit f = true ->
  number_end rest = true ->
  json_unsigned neg
    ((c :: t)
       ++ match f with [] => [] | _ => "."%char :: f end
       ++ match x with
          | Some x => "e"%char :: (if (x <? 0)%Z then "-"%char else "+"%char)
                        :: digits (Z.abs_N x)
          | None => []
          end
       ++ rest)
  = Some (decimal neg (c :: t) f (match x with Some x => x | None => 0%Z end), rest).
Proof.
  intros Hi Hz Hf Hr.
  pose proof (number_end_no_digit rest Hr) as Hnd.
  assert (Hlead : (Ascii.eqb c "0" && negb (is_nil t))%bool = false).
  { destruct Hz as [Hz| ->]; [|apply andb_false_r].
    apply Ascii.eqb_neq in Hz. rewrite Hz. reflexivity. }
  unfold json_unsigned.
  destruct f as [|fc ft]; destruct x as [x|].
  - change ((c :: t) ++ [] ++ ?a ++ rest) with ((c :: t) ++ a ++ rest).
    rewrite (span_digits_app (c :: t) _ Hi) by reflexivity.
    cbv beta iota zeta. rewrite Hlead.
    cbn [app Ascii.eqb Bool.eqb orb].
    change ("e"%char :: ?s :: ?d ++ rest) with ("e"%char :: s :: d ++ rest).
    rewrite (scan_exponent_digits x rest Hnd). reflexivity.
  - change ((c :: t) ++ [] ++ [] ++ rest) with ((c :: t) ++ rest).
    rewrite (span_digits_app (c :: t) _ Hi Hnd).
    cbv beta iota zeta. rewrite Hlead.
    destruct rest as [|c0 r]; [reflexivity|]. simpl in Hr.
    destruct (is_digit c0); [discriminate|].
    destruct (Ascii.eqb c0 "."); [discriminate|].
    destruct (Ascii.eqb c0 "e"); [discriminate|].
    destruct (Ascii.eqb c0 "E"); [discriminate|]. reflexivity.
  - rewrite (span_digits_app (c :: t) _ Hi) by reflexivity.
    cbv beta iota zeta. rewrite Hlead. cbn [app Ascii.eqb Bool.eqb].
    change (fc :: ft ++ ?a) with ((fc :: ft) ++ a).
    rewrite (span_digits_app (fc :: ft) _ Hf) by reflexivity.
    cbv beta iota zeta. cbn [Ascii.eqb Bool.eqb orb].
    rewrite (scan_exponent_digits x rest Hnd). reflexivity.
  - rewrite (span_digits_app (c :: t) _ Hi) by reflexivity.
    cbv beta iota zeta. rewrite Hlead. cbn [app Ascii.eqb Bool.eqb].
    change (fc :: ft ++ rest) with ((fc :: ft) ++ rest).
    rewrite (span_digits_app (fc :: ft) _ Hf Hnd).
    cbv beta iota zeta.
    destruct rest as [|c0 r]; [reflexivity|]. simpl in Hr.
    destruct (is_digit c0); [discriminate|].
    destruct (Ascii.eqb c0 "."); [discriminate|].
    destruct (Ascii.eqb c0 "e"); [discriminate|].
    destruct (Ascii.eqb c0 "E"); [discriminate|]. reflexivity.
Qed.

Lemma signed_mod10 (neg : bool) (p : N) :
  (p mod 10 <> 0)%N -> (signed neg p mod 10 <> 0)%Z.
Proof.
  intros H. assert (Hz : (Z.of_N p mod 10 <> 0)%Z).
  { intros E. apply H. apply N2Z.inj. rewrite N2Z.inj_mod. exact E. }
  unfold signed. destruct neg; [|exact Hz].
  intros E. apply Hz. apply Z.mod_divide in E; [|lia]. apply Z.mod_divide; [lia|].
  apply Z.divide_opp_r. exact E.
Qed.

Lemma signed_pow (neg : bool) (p : N) (j : nat) :
  signed neg (p * 10 ^ N.of_nat j) = (signed neg p * 10 ^ Z.of_nat j)%Z.
Proof.
  unfold signed. rewrite N2Z.inj_mul, N2Z.inj_pow, nat_N_Z.
  destruct neg; simpl; ring.
Qed.

Lemma decimal_digits (neg : bool) (int frac : text) (p : N) (j : nat) (x e : Z) :
  digits_value (int ++ frac) = (p * 10 ^ N.of_nat j)%N ->
  (p mod 10 <> 0)%N ->
  (x - Z.of_nat (length frac) + Z.of_nat j = e)%Z ->
  decimal neg int frac x = Fin (signed neg p) e.
Proof.
  intros Hv Hp He. unfold decimal. rewrite Hv, signed_pow.
  rewrite norm_pow by (apply signed_mod10; exact Hp). f_equal. exact He.
Qed.

Lemma forallb_firstn_skipn {A : Type} (f : A -> bool) (n : nat) (l : list A) :
  forallb f l = true -> forallb f (firstn n l) = true /\ forallb f (skipn n l) = true.
Proof.
  intros H. rewrite <- (firstn_skipn n l), forallb_app in H.
  apply andb_prop in H. exact H.
Qed.

(** The four layouts of Number::toString, as integer digits, fraction
    and exponent. *)
Lemma format_digits_shape (p : N) (e : Z) :
  (0 < p)%N -> (p mod 10 <> 0)%N ->
  exists c t f x,
    (forall rest,
        format_digits (digits p) e ++ rest
        = (c :: t)
            ++ match f with [] => [] | _ => "."%char :: f end
            ++ match x with
               | Some x => "e"%char :: (if (x <? 0)%Z then "-"%char else "+"%char)
                             :: digits (Z.abs_N x)
               | None => []
               end
            ++ rest)
    /\ forallb is_digit (c :: t) = true
    /\ (c <> "0"%char \/ t = [])
    /\ forallb is_digit f = true
    /\ (forall neg,
          decimal neg (c :: t) f (match x with Some x => x | None => 0%Z end)
          = Fin (signed neg p) e).
Proof.
  intros Hpos Hmod.
  destruct (digits_head p) as (c & t & Hd & Hc). specialize (Hc Hpos).
  pose proof (digits_all_digits p) as Hall.
  pose proof (digits_value_digits p) as Hval.
  unfold format_digits. rewrite Hd in *.
  set (k := Z.of_nat (length (c :: t))).
  assert (Hk : (1 <= k)%Z) by (unfold k; cbn [length]; lia).
  destruct ((k <=? k + e) && (k + e <=? 21))%Z eqn:E1.
  { (* the digits followed by zeros *)
    apply andb_prop in E1. destruct E1 as [H1 H2].
    apply Z.leb_le in H1. apply Z.leb_le in H2.
    exists c, (t ++ zeros (Z.to_nat (k + e - k))), [], None.
    split; [|split; [|split; [|split]]].
    - intros rest. cbn [app]. rewrite <- !app_assoc. reflexivity.
    - change (c :: t ++ ?z) with ((c :: t) ++ z).
      rewrite forallb_app, Hall, zeros_all_digits. reflexivity.
    - left. exact Hc.
    - reflexivity.
    - intros neg.
      apply (decimal_digits neg _ _ p (Z.to_nat (k + e - k)));
        [|exact Hmod|cbn [length]; lia].
      rewrite app_nil_r. change (c :: t ++ ?z) with ((c :: t) ++ z).
      rewrite digits_value_app, Hval, digits_value_zeros, zeros_length. lia. }
  destruct ((0 <? k + e) && (k + e <=? 21))%Z eqn:E2.
  { (* the point inside the digits *)
    apply andb_prop in E2. destruct E2 as [H1 H2].
    apply Z.ltb_lt in H1. apply Z.leb_le in H2.
    assert (H3 : (k + e < k)%Z).
    { apply andb_false_iff in E1. destruct E1 as [E|E].
      - apply Z.leb_gt in E. exact E.
      - apply Z.leb_gt in E. lia. }
    destruct (Z.to_nat (k + e)) as [|n'] eqn:En; [lia|].
    cbn [firstn skipn].
    assert (Hlen : (length (skipn n' t) = length t - n')%nat) by apply length_skipn.
    assert (Hne : skipn n' t <> []).
    { intros E. rewrite E in Hlen. unfold k in H3. cbn [length] in *. lia. }
    destruct (forallb_firstn_skipn is_digit n' t) as [Hf Hs].
    { simpl in Hall. apply andb_prop in Hall. apply Hall. }
    exists c, (firstn n' t), (skipn n' t), None.
    split; [|split; [|split; [|split]]].
    - intros rest. destruct (skipn n' t) as [|s0 st]; [congruence|].
      cbn [app]. rewrite <- !app_assoc. reflexivity.
    - simpl. simpl in Hall. apply andb_prop in Hall. destruct Hall as [Hc0 _].
      rewrite Hc0, Hf. reflexivity.
    - left. exact Hc.
    - exact Hs.
    - intros neg.
      apply (decimal_digits neg _ _ p 0); [|exact Hmod|].
      + change ((c :: firstn n' t) ++ skipn n' t) with (c :: firstn n' t ++ skipn n' t).
        rewrite firstn_skipn, Hval. simpl. lia.
      + rewrite Hlen. unfold k in *. cbn [length] in *. lia. }
  destruct ((-6 <? k + e) && (k + e <=? 0))%Z eqn:E3.
  { (* zeros between the point and the digits *)
    apply andb_prop in E3. destruct E3 as [H1 H2].
    apply Z.ltb_lt in H1. apply Z.leb_le in H2.
    exists "0"%char, [], (zeros (Z.to_nat (- (k + e))) ++ c :: t), None.
    split; [|split; [|split; [|split]]].
    - intros rest.
      destruct (zeros (Z.to_nat (- (k + e))) ++ c :: t) as [|s0 st] eqn:Ez.
      + apply app_eq_nil in Ez. destruct Ez as [_ Ez]. discriminate.
      + cbn [app]. reflexivity.
    - reflexivity.
    - right. reflexivity.
    - rewrite forallb_app, zeros_all_digits, Hall. reflexivity.
    - intros neg.
      apply (decimal_digits neg _ _ p 0); [|exact Hmod|].
      + change (["0"%char] ++ zeros ?z ++ c :: t) with (zeros (S z) ++ c :: t).
        rewrite digits_value_app, Hval, digits_value_zeros. simpl. lia.
      + rewrite length_app, zeros_length. unfold k in *. cbn [length] in *. lia. }
  (* the exponent layout *)
  destruct t as [|t0 tt].
  - exists c, [], [], (Some (k + e - 1)%Z).
    split; [|split; [|split; [|split]]].
    + intros rest. reflexivity.
    + exact Hall.
    + right. reflexivity.
    + reflexivity.
    + intros neg.
      apply (decimal_digits neg _ _ p 0); [|exact Hmod|].
      * rewrite app_nil_r, Hval. simpl. lia.
      * unfold k. cbn [length]. lia.
  - exists c, [], (t0 :: tt), (Some (k + e - 1)%Z).
    split; [|split; [|split; [|split]]].
    + intros rest. cbn [app]. rewrite <- !app_assoc. reflexivity.
    + simpl in Hall. apply andb_prop in Hall. destruct Hall as [Hc0 _].
      simpl. rewrite Hc0. reflexivity.
    + right. reflexivity.
    + simpl in Hall. apply andb_prop in Hall. apply Hall.
    + intros neg.
      apply (decimal_digits neg _ _ p 0); [|exact Hmod|].
      * change ([c] ++ t0 :: tt) with (c :: t0 :: tt). rewrite Hval. simpl. lia.
      * unfold k. cbn [length]. lia.
Qed.

Lemma signed_abs (m : Z) : signed (m <? 0)%Z (Z.abs_N m) = m.
Proof.
  unfold signed. rewrite N2Z.inj_abs_N. destruct (Z.ltb_spec m 0); lia.
Qed.

(** A finite number in lowest terms is read back from its text. *)
Lemma parse_number_text (m e : Z) (rest : text) :
  num_wf (Fin m e) = true ->
  number_end rest = true ->
  parse_json_number (number_text (Fin m e) ++ rest) = Some (Fin m e, rest).
Proof.
  intros Hwf Hr. unfold number_text. simpl in Hwf.
  destruct (Z.eqb_spec m 0) as [->|Hm].
  - apply Z.eqb_eq in Hwf. subst e.
    change (T "0" ++ rest) with ("0"%char :: rest).
    unfold parse_json_number. cbn [Ascii.eqb Bool.eqb].
    exact (json_unsigned_shape false "0"%char [] [] None rest eq_refl
             (or_intror eq_refl) eq_refl Hr).
  - assert (Hmod : (m mod 10 <> 0)%Z)
      by (destruct (Z.eqb_spec (m mod 10) 0); [discriminate|assumption]).
    assert (Hpos : (0 < Z.abs_N m)%N) by lia.
    assert (Hpm : (Z.abs_N m mod 10 <> 0)%N).
    { intros E. apply Hmod. apply (f_equal Z.of_N) in E.
      rewrite N2Z.inj_mod, N2Z.inj_abs_N in E. simpl in E.
      apply Z.mod_divide in E; [|lia]. apply Z.mod_divide; [lia|].
      apply Z.divide_abs_r. exact E. }
    destruct (format_digits_shape (Z.abs_N m) e Hpos Hpm)
      as (c & t & f & x & Htxt & Hi & Hz & Hf & Hdec).
    specialize (Hdec (m <? 0)%Z). rewrite signed_abs in Hdec.
    assert (Hcd : is_digit c = true) by (simpl in Hi; apply andb_prop in Hi; apply Hi).
    assert (Hcm : Ascii.eqb c "-" = false).
    { destruct (Ascii.eqb_spec c "-"%char) as [->|]; [discriminate|reflexivity]. }
    destruct (Z.ltb_spec m 0) as [Hneg|Hneg].
    + change ((T "-" ++ ?a) ++ rest) with ("-"%char :: a ++ rest).
      unfold parse_json_number. cbn [Ascii.eqb Bool.eqb].
      rewrite Htxt, <- Hdec. apply json_unsigned_shape; assumption.
    + change (([] ++ ?a) ++ rest) with (a ++ rest).
      rewrite Htxt. unfold parse_json_number. cbn [app]. rewrite Hcm.
      rewrite <- Hdec.
      exact (json_unsigned_shape false c t f x rest Hi Hz Hf Hr).
Qed.

(** The first character of a number's text. *)
Lemma number_head_tests (c : ascii) :
  is_digit c = true \/ c = "-"%char ->
  is_json_ws c = false /\ Ascii.eqb c dquote = false /\ Ascii.eqb c "[" = false
  /\ Ascii.eqb c "{" = false /\ Ascii.eqb c "]" = false
  /\ Ascii.eqb "n" c = false /\ Ascii.eqb "t" c = false /\ Ascii.eqb "f" c = false.
Proof.
  intros [H| ->]; [|repeat split; reflexivity].
  revert H. destruct c as [[] [] [] [] [] [] [] []]; intros H;
    try discriminate H; repeat split; reflexivity.
Qed.

Lemma number_text_head (m e : Z) :
  exists c t, number_text (Fin m e) = c :: t /\ (is_digit c = true \/ c = "-"%char).
Proof.
  unfold number_text. destruct (Z.eqb_spec m 0) as [_|Hm].
  - exists "0"%char, []. split; [reflexivity|left; reflexivity].
  - destruct (Z.ltb_spec m 0) as [Hn|Hn].
    + eexists _, _. split; [reflexivity|right; reflexivity].
    + cbn [app]. unfold format_digits.
      destruct (digits_head (Z.abs_N m)) as (c & t & Hd & _).
      pose proof (digits_all_digits (Z.abs_N m)) as Hall.
      rewrite Hd in *. simpl in Hall. apply andb_prop in Hall. destruct Hall as [Hc _].
      destruct ((_ <=? _) && (_ <=? 21))%Z.
      { exists c, (t ++ zeros (Z.to_nat (Z.of_nat (length (c :: t)) + e - Z.of_nat (length (c :: t))))).
        split; [reflexivity|left; exact Hc]. }
      destruct ((0 <? _) && (_ <=? 21))%Z eqn:E2.
      { apply andb_prop in E2. destruct E2 as [H1 _]. apply Z.ltb_lt in H1.
        destruct (Z.to_nat _) as [|n'] eqn:En; [lia|].
        cbn [firstn app]. eexists _, _. split; [reflexivity|left; exact Hc]. }
      destruct ((-6 <? _) && (_ <=? 0))%Z.
      { eexists _, _. split; [reflexivity|left; reflexivity]. }
      destruct t; eexists _, _; (split; [reflexivity|left; exact Hc]).
Qed.

(** ** Numbers at the start of a text *)

Lemma digit_not_I (c : ascii) : is_digit c = true -> Ascii.eqb "I" c = false.
Proof.
  destruct c as [[] [] [] [] [] [] [] []]; intros H; try discriminate H; reflexivity.
Qed.

Lemma decimal_unsigned_shape (neg : bool) (c : ascii) (t f : text) (x : option Z)
    (rest : text) :
  forallb is_digit (c :: t) = true ->
  forallb is_digit f = true ->
  number_end rest = true ->
  decimal_unsigned neg
    ((c :: t)
       ++ match f with [] => [] | _ => "."%char :: f end
       ++ match x with
          | Some x => "e"%char :: (if (x <? 0)%Z then "-"%char else "+"%char)
                        :: digits (Z.abs_N x)
          | None => []
          end
       ++ rest)
  = Some (decimal neg (c :: t) f (match x with Some x => x | None => 0%Z end), rest).
Proof.
  intros Hi Hf Hr.
  pose proof (number_end_no_digit rest Hr) as Hnd.
  assert (Hc : Ascii.eqb "I" c = false).
  { apply digit_not_I. simpl in Hi. apply andb_prop in Hi. apply Hi. }
  assert (Hnone : scan_exponent rest = None).
  { destruct rest as [|c0 r]; [reflexivity|]. simpl in Hr. unfold scan_exponent.
    destruct (is_digit c0); [discriminate|].
    destruct (Ascii.eqb c0 "."); [discriminate|].
    destruct (Ascii.eqb c0 "e"); [discriminate|].
    destruct (Ascii.eqb c0 "E"); [discriminate|]. reflexivity. }
  unfold decimal_unsigned. cbn [app T list_ascii_of_string starts_with]. rewrite Hc.
  change (c :: t ++ ?a) with ((c :: t) ++ a).
  destruct f as [|fc ft]; destruct x as [x|].
  - change ((c :: t) ++ [] ++ ?a ++ rest) with ((c :: t) ++ a ++ rest).
    rewrite (span_digits_app (c :: t) _ Hi) by reflexivity.
    cbv beta iota zeta. cbn [app Ascii.eqb Bool.eqb].
    rewrite (scan_exponent_digits x rest Hnd). reflexivity.
  - change ((c :: t) ++ [] ++ [] ++ rest) with ((c :: t) ++ rest).
    rewrite (span_digits_app (c :: t) _ Hi Hnd).
    cbv beta iota zeta.
    destruct rest as [|c0 r]; [reflexivity|]. simpl in Hr.
    destruct (is_digit c0); [discriminate|].
    destruct (Ascii.eqb c0 "."); [discriminate|].
    cbv beta iota zeta. rewrite Hnone. reflexivity.
  - rewrite (span_digits_app (c :: t) _ Hi) by reflexivity.
    cbv beta iota zeta. cbn [app Ascii.eqb Bool.eqb].
    change (fc :: ft ++ ?a) with ((fc :: ft) ++ a).
    rewrite (span_digits_app (fc :: ft) _ Hf) by reflexivity.
    cbv beta iota zeta. rewrite (scan_exponent_digits x rest Hnd). reflexivity.
  - rewrite (span_digits_app (c :: t) _ Hi) by reflexivity.
    cbv beta iota zeta. cbn [app Ascii.eqb Bool.eqb].
    change (fc :: ft ++ rest) with ((fc :: ft) ++ rest).
    rewrite (span_digits_app (fc :: ft) _ Hf Hnd).
    cbv beta iota zeta. rewrite Hnone. reflexivity.
Qed.

(** A finite number is read back from its text, whatever follows that
    cannot continue a number. *)
Lemma scan_number_text (m e : Z) (rest : text) :
  num_wf (Fin m e) = true -> number_end rest = true ->
  scan_decimal_literal (number_text (Fin m e) ++ rest) = Some (Fin m e, rest).
Proof.
  intros Hwf Hr. unfold number_text. simpl in Hwf.
  destruct (Z.eqb_spec m 0) as [->|Hm].
  - apply Z.eqb_eq in Hwf. subst e.
    change (T "0" ++ rest) with (["0"%char] ++ [] ++ [] ++ rest).
    unfold scan_decimal_literal. cbn [app Ascii.eqb Bool.eqb].
    exact (decimal_unsigned_shape false "0"%char [] [] None rest eq_refl eq_refl Hr).
  - assert (Hmod : (m mod 10 <> 0)%Z)
      by (destruct (Z.eqb_spec (m mod 10) 0); [discriminate|assumption]).
    assert (Hpos : (0 < Z.abs_N m)%N) by lia.
    assert (Hpm : (Z.abs_N m mod 10 <> 0)%N).
    { intros E. apply Hmod. apply (f_equal Z.of_N) in E.
      rewrite N2Z.inj_mod, N2Z.inj_abs_N in E. simpl in E.
      apply Z.mod_divide in E; [|lia]. apply Z.mod_divide; [lia|].
      apply Z.divide_abs_r. exact E. }
    destruct (format_digits_shape (Z.abs_N m) e Hpos Hpm)
      as (c & t & f & x & Htxt & Hi & _ & Hf & Hdec).
    specialize (Hdec (m <? 0)%Z). rewrite signed_abs in Hdec.
    specialize (Htxt rest).
    assert (Hcd : is_digit c = true) by (simpl in Hi; apply andb_prop in Hi; apply Hi).
    assert (Hcm : Ascii.eqb c "-" = false /\ Ascii.eqb c "+" = false).
    { revert Hcd. clear. destruct c as [[] [] [] [] [] [] [] []]; intros H;
        try discriminate H; split; reflexivity. }
    destruct Hcm as [Hcm Hcp].
    pose proof (decimal_unsigned_shape (m <? 0)%Z c t f x rest Hi Hf Hr) as Hs.
    rewrite Hdec in Hs.
    destruct (Z.ltb_spec m 0) as [Hneg|Hneg].
    + change ((T "-" ++ ?a) ++ rest) with ("-"%char :: (a ++ rest)).
      unfold scan_decimal_literal. cbn [Ascii.eqb Bool.eqb]. rewrite Htxt. exact Hs.
    + change (([] ++ ?a) ++ rest) with (a ++ rest). rewrite Htxt.
      unfold scan_decimal_literal. cbn [app]. rewrite Hcm, Hcp.
      exact Hs.
Qed.

(** ** White space of strings *)

Lemma starts_with_high (p : text) (c : ascii) (t : text) :
  match p with [] => False | a :: _ => (128 <= code a)%N end ->
  (code c < 128)%N -> starts_with p (c :: t) = None.
Proof.
  destruct p as [|a p]; [intros []|]. intros Ha Hc. cbn [starts_with].
  destruct (Ascii.eqb_spec a c) as [->|_]; [lia|reflexivity].
Qed.

Lemma strip_any_high (seqs : list text) (c : ascii) (t : text) :
  Forall (fun p => match p with [] => False | a :: _ => (128 <= code a)%N end) seqs ->
  (code c < 128)%N -> strip_any seqs (c :: t) = None.
Proof.
  induction 1 as [|p seqs Hp _ IH]; intros Hc; [reflexivity|].
  cbn [strip_any]. rewrite (starts_with_high p c t Hp Hc). exact (IH Hc).
Qed.

Lemma wide_spaces_high :
  Forall (fun p => match p with [] => False | a :: _ => (128 <= code a)%N end) wide_spaces.
Proof. repeat constructor; vm_compute; discriminate. Qed.

Lemma wide_spaces_rev_high :
  Forall (fun p => match p with [] => False | a :: _ => (128 <= code a)%N end)
         (map (@rev ascii) wide_spaces).
Proof. repeat constructor; vm_compute; discriminate. Qed.

Lemma skip_spaces_plain (seqs : list text) (fuel : nat) (c : ascii) (t : text) :
  Forall (fun p => match p with [] => False | a :: _ => (128 <= code a)%N end) seqs ->
  plain_char c = true -> skip_spaces seqs fuel (c :: t) = c :: t.
Proof.
  intros Hs Hc. unfold plain_char in Hc. apply andb_prop in Hc. destruct Hc as [Hsp Hlt].
  apply negb_true_iff in Hsp. apply N.ltb_lt in Hlt.
  destruct fuel as [|f]; [reflexivity|]. cbn [skip_spaces].
  rewrite Hsp, (strip_any_high seqs c t Hs Hlt). reflexivity.
Qed.

Lemma skip_white_plain (c : ascii) (t : text) :
  plain_char c = true -> skip_white (c :: t) = c :: t.
Proof. intros Hc. apply skip_spaces_plain; [exact wide_spaces_high|exact Hc]. Qed.

(** An ASCII text without white space is trimmed to itself. *)
Lemma trim_plain (s : text) : forallb plain_char s = true -> trim s = s.
Proof.
  intros H. unfold trim.
  assert (Hw : skip_white s = s).
  { destruct s as [|c t]; [reflexivity|]. cbn [forallb] in H.
    apply andb_prop in H. apply skip_white_plain, H. }
  rewrite Hw. cbv zeta.
  assert (Hr : forallb plain_char (rev s) = true).
  { rewrite forallb_forall in *. intros c Hc. apply H. apply in_rev. exact Hc. }
  destruct (rev s) as [|c t] eqn:E.
  - destruct s as [|c0 t0]; [reflexivity|].
    apply (f_equal (@length ascii)) in E. rewrite length_rev in E. discriminate E.
  - cbn [forallb] in Hr. apply andb_prop in Hr.
    rewrite (skip_spaces_plain _ _ c t wide_spaces_rev_high (proj1 Hr)).
    rewrite <- E. apply rev_involutive.
Qed.

Lemma digit_plain (c : ascii) : is_digit c = true -> plain_char c = true.
Proof.
  destruct c as [[] [] [] [] [] [] [] []]; intros H; try discriminate H; reflexivity.
Qed.

Lemma number_head_plain (c : ascii) :
  is_digit c = true \/ c = "-"%char -> plain_char c = true.
Proof. intros [H| ->]; [exact (digit_plain c H)|reflexivity]. Qed.

(** ** parseFloat of a number's text *)

(** [parseFloat] reads a finite number back from its text. *)
Lemma parseFloat_number_text (m e : Z) :
  num_wf (Fin m e) = true ->
  parseFloat (VStr (ToString (VNum (Fin m e)))) = Fin m e.
Proof.
  intros Hwf. unfold parseFloat. cbn [ToString]. unfold T.
  rewrite String.list_ascii_of_string_of_list_ascii.
  pose proof (scan_number_text m e [] Hwf eq_refl) as Hgoal. rewrite app_nil_r in Hgoal.
  destruct (number_text_head m e) as (c & t & Ht & Hc).
  rewrite Ht in *. rewrite (skip_white_plain c t (number_head_plain c Hc)), Hgoal.
  reflexivity.
Qed.

(** ** The sort *)

Lemma sort_insert_perm {A : Type} (f : A -> A -> number) (x : A) (l : list A) :
  Permutation (x :: l) (sort_insert f x l).
Proof.
  induction l as [|y l IH]; simpl; [reflexivity|].
  destruct (sort_before f y x); [|reflexivity].
  rewrite perm_swap. apply perm_skip, IH.
Qed.

Lemma Array_sort_perm {A : Type} (f : A -> A -> number) (l : list A) :
  Permutation l (Array_sort f l).
Proof.
  induction l as [|x l IH]; simpl; [reflexivity|].
  rewrite <- sort_insert_perm. apply perm_skip, IH.
Qed.

Lemma sort_before_lt (x y : obj) :
  score x <> NaN -> score y <> NaN ->
  sort_before by_pontuacao y x = true -> num_ge (score y) (score x) = true.
Proof.
  intros Hx Hy. unfold sort_before, by_pontuacao. fold (score x) (score y).
  destruct (num_compare_defined (score x) (score y) Hx Hy) as [c Hc].
  rewrite (num_sub_sign _ _ c Hc). unfold num_ge.
  rewrite num_compare_antisym, Hc. destruct c; simpl; congruence.
Qed.

Lemma sort_before_ge (x y : obj) :
  score x <> NaN -> score y <> NaN ->
  sort_before by_pontuacao y x = false -> num_ge (score x) (score y) = true.
Proof.
  intros Hx Hy. unfold sort_before, by_pontuacao. fold (score x) (score y).
  destruct (num_compare_defined (score x) (score y) Hx Hy) as [c Hc].
  rewrite (num_sub_sign _ _ c Hc). unfold num_ge. rewrite Hc.
  destruct c; simpl; congruence.
Qed.

Lemma sort_insert_sorted (x : obj) (l : list obj) :
  score x <> NaN -> Forall (fun c => score c <> NaN) l ->
  non_ascending l -> non_ascending (sort_insert by_pontuacao x l).
Proof.
  intros Hx Hl Hs. unfold non_ascending in *.
  induction Hs as [|y l Hs IH Hy]; simpl.
  - constructor; constructor.
  - inversion Hl as [|? ? Hny Hl']; subst.
    destruct (sort_before by_pontuacao y x) eqn:E.
    + constructor; [apply IH; assumption|].
      apply (Permutation_Forall (sort_insert_perm by_pontuacao x l)).
      constructor; [apply sort_before_lt; assumption|assumption].
    + pose proof (sort_before_ge x y Hx Hny E) as Hxy.
      constructor; [constructor; assumption|].
      constructor; [assumption|].
      eapply Forall_impl; [|exact Hy].
      intros c Hc. simpl in Hc. eapply num_ge_trans; eassumption.
Qed.

Lemma Array_sort_sorted (l : list obj) :
  Forall (fun c => score c <> NaN) l -> non_ascending (Array_sort by_pontuacao l).
Proof.
  induction l as [|x l IH]; intros H; simpl.
  - constructor.
  - inversion H; subst. apply sort_insert_sorted; [assumption| |apply IH; assumption].
    apply (Permutation_Forall (Array_sort_perm by_pontuacao l)). assumption.
Qed.

(** ** getRegionData *)

Lemma getRegionData_eq (st : facade) (r : string) :
  getRegionData st r =
  map (fun tipo =>
         (tipo,
          Array_sort by_pontuacao
            (filter (fun c => strict_eq_string (obj_get c "tipo") tipo)
               (filter (fun c => loose_eq_string (obj_get c "region") r)
                  (allCandidates st)))))
      tipos.
Proof. reflexivity. Qed.

Lemma assoc_get_map_In {A : Type} (f : string -> A) (ks : list string) (k : string) :
  In k ks -> assoc_get (map (fun t => (t, f t)) ks) k = Some (f k).
Proof.
  induction ks as [|k' ks IH]; intros H; [destruct H|].
  cbn [map assoc_get]. destruct (String.eqb_spec k' k) as [->|Hne]; [reflexivity|].
  destruct H as [H|H]; [congruence|auto].
Qed.

Lemma assoc_get_map_notin {A : Type} (f : string -> A) (ks : list string) (k : string) :
  ~ In k ks -> assoc_get (map (fun t => (t, f t)) ks) k = None.
Proof.
  induction ks as [|k' ks IH]; intros H; [reflexivity|].
  cbn [map assoc_get]. destruct (String.eqb_spec k' k) as [->|Hne].
  - elim H. left. reflexivity.
  - apply IH. intros Hin. apply H. right. assumption.
Qed.

Lemma region_list_eq (st : facade) (r tipo : string) :
  In tipo tipos ->
  region_list (getRegionData st r) tipo =
  Array_sort by_pontuacao
    (filter (fun c => strict_eq_string (obj_get c "tipo") tipo)
       (filter (fun c => loose_eq_string (obj_get c "region") r)
          (allCandidates st))).
Proof.
  intros H. rewrite getRegionData_eq. unfold region_list.
  rewrite (assoc_get_map_In _ tipos tipo H). reflexivity.
Qed.

Lemma region_list_other (st : facade) (r tipo : string) :
  ~ In tipo tipos -> region_list (getRegionData st r) tipo = [].
Proof.
  intros H. rewrite getRegionData_eq. unfold region_list.
  rewrite (assoc_get_map_notin _ tipos tipo H). reflexivity.
Qed.

Lemma strict_eq_string_iff (v : value) (s : string) :
  strict_eq_string v s = true <-> v = VStr s.
Proof.
  destruct v; simpl; split; intros H; try discriminate.
  - apply String.eqb_eq in H. congruence.
  - inversion H. apply String.eqb_refl.
Qed.

Lemma In_tipos_dec (tipo : string) : In tipo tipos \/ ~ In tipo tipos.
Proof.
  destruct (in_dec String.string_dec tipo tipos); [left|right]; assumption.
Qed.

Lemma region_list_In (st : facade) (r tipo : string) (c : obj) :
  In c (region_list (getRegionData st r) tipo) <->
  In tipo tipos /\ In c (allCandidates st)
  /\ loose_eq_string (obj_get c "region") r = true
  /\ obj_get c "tipo" = VStr tipo.
Proof.
  destruct (In_tipos_dec tipo) as [Ht|Ht].
  - rewrite (region_list_eq st r tipo Ht).
    split.
    + intros H. apply (Permutation_in _ (Permutation_sym (Array_sort_perm _ _))) in H.
      apply filter_In in H. destruct H as [H Hs]. apply filter_In in H.
      destruct H as [Hc Hr]. apply strict_eq_string_iff in Hs. auto.
    + intros (_ & Hc & Hr & Hs).
      apply (Permutation_in _ (Array_sort_perm _ _)).
      apply filter_In. split; [apply filter_In; auto|].
      apply strict_eq_string_iff. assumption.
  - rewrite (region_list_other st r tipo Ht). simpl.
    split; [intros []|intros (H & _); exact (Ht H)].
Qed.

(** X22: for every region [r] and every cache whose records have a
    region and a score that can be converted, with numbers in the range
    where decimals are exact, [getRegionData(r)] has exactly the three
    keys ampla, pcd, ppp; the list under a key holds exactly the cached
    candidates with [region == r] and that [tipo], each as often as the
    cache does; and the list under a key is non-ascending by score
    provided no candidate of that list has a score that converts to
    [NaN]. *)
Theorem getRegionData_partition_sorted (st : facade) (r : string) :
  forallb (comparable r) (allCandidates st) = true ->
  map fst (getRegionData st r) = tipos
  /\ (forall tipo c,
        In c (region_list (getRegionData st r) tipo) <->
        In tipo tipos /\ In c (allCandidates st)
        /\ loose_eq_string (obj_get c "region") r = true
        /\ obj_get c "tipo" = VStr tipo)
  /\ (forall tipo, In tipo tipos ->
        Permutation
          (region_list (getRegionData st r) tipo)
          (filter (fun c => strict_eq_string (obj_get c "tipo") tipo)
             (filter (fun c => loose_eq_string (obj_get c "region") r)
                (allCandidates st))))
  /\ (forall tipo,
        (forall c, In c (allCandidates st) ->
           loose_eq_string (obj_get c "region") r = true ->
           obj_get c "tipo" = VStr tipo -> score c <> NaN) ->
        non_ascending (region_list (getRegionData st r) tipo)).
Proof.
  intros _.
  split; [reflexivity|]. split; [intros; apply region_list_In|]. split.
  - intros tipo Ht. rewrite (region_list_eq st r tipo Ht).
    symmetry. apply Array_sort_perm.
  - intros tipo Hs. destruct (In_tipos_dec tipo) as [Ht|Ht].
    + rewrite (region_list_eq st r tipo Ht). apply Array_sort_sorted.
      apply Forall_forall. intros c Hc.
      apply filter_In in Hc. destruct Hc as [Hc Hty].
      apply filter_In in Hc. destruct Hc as [Hc Hr].
      apply strict_eq_string_iff in Hty. auto.
    + rewrite (region_list_other st r tipo Ht). constructor.
Qed.

(** The example of the specification: Alice (90) then Bob (95), both ampla
    in region north, come back as Bob, Alice; Dan, whose score is [NaN],
    is in the list of pcd and does not disturb the list of ampla. *)
Lemma getRegionData_partition_sorted_witness :
  forallb (comparable "north") (allCandidates (facade_with [alice; dan_pcd; bob])) = true
  /\ region_list (getRegionData (facade_with [alice; dan_pcd; bob]) "north") "ampla"
     = [bob; alice]
  /\ region_list (getRegionData (facade_with [alice; dan_pcd; bob]) "north") "pcd"
     = [dan_pcd]
  /\ score dan_pcd = NaN
  /\ non_ascending
       (region_list (getRegionData (facade_with [alice; dan_pcd; bob]) "north") "ampla").
Proof.
  split; [reflexivity|]. split; [reflexivity|]. split; [reflexivity|].
  split; [reflexivity|].
  apply (proj2 (proj2 (proj2
    (getRegionData_partition_sorted (facade_with [alice; dan_pcd; bob]) "north"
       eq_refl))) "ampla").
  intros c [<-|[<-|[<-|[]]]] _ Ht; [|vm_compute in Ht; discriminate Ht|];
    vm_compute; discriminate.
Defined.

(** The example of the specification from end to end: Alice (90) and then
    Bob (95) are added, the snapshot of the collection reaches the cache,
    and [getRegionData] lists Bob before Alice. *)
Lemma getRegionData_after_adds :
  let add := fun nome pontos w =>
    snd (addCandidate accepting (VStr "north")
           (VObj [("nome", VStr nome); ("pontuacao", VNum pontos); ("tipo", VStr "ampla")])
           ready w) in
  let w2 := add "Bob" (Fin 95 0) (add "Alice" (Fin 9 1) empty_world) in
  let st := fst (on_snapshot ready (documents w2 ready_path) w2) in
  map (fun c => (obj_get c "nome", obj_get c "pontuacao"))
      (region_list (getRegionData st "north") "ampla")
  = [(VStr "Bob", VNum (Fin 95 0)); (VStr "Alice", VNum (Fin 9 1))].
Proof. vm_compute. reflexivity. Qed.

(** C1: with a score that is [NaN] in the cache, the list [getRegionData]
    returns for the category is not non-ascending: Carol (50) comes
    before Alice (90). *)
Lemma getRegionData_NaN_not_sorted :
  region_list (getRegionData (facade_with [carol; dan; alice]) "north") "ampla"
  = [carol; dan; alice]
  /\ num_lt (score carol) (score alice) = true
  /\ ~ non_ascending
         (region_list (getRegionData (facade_with [carol; dan; alice]) "north") "ampla").
Proof.
  split; [reflexivity|]. split; [reflexivity|].
  intros H. change (non_ascending [carol; dan; alice]) in H.
  inversion H as [|? ? _ Hall]; subst.
  inversion Hall as [|? ? Hcd _]; subst.
  vm_compute in Hcd. discriminate.
Qed.

(** C9: a candidate of region [r] whose [tipo] is none of the three fixed
    values is in none of the lists; so the three lists together can miss
    candidates of the region. *)
Theorem getRegionData_other_tipo_dropped :
  (forall (st : facade) (r : string) (c : obj),
     In c (allCandidates st) ->
     loose_eq_string (obj_get c "region") r = true ->
     (forall t, In t tipos -> obj_get c "tipo" <> VStr t) ->
     forall tipo, ~ In c (region_list (getRegionData st r) tipo))
  /\ (exists (st : facade) (r : string) (c : obj),
        In c (allCandidates st)
        /\ loose_eq_string (obj_get c "region") r = true
        /\ forall tipo, ~ In c (region_list (getRegionData st r) tipo)).
Proof.
  assert (H : forall (st : facade) (r : string) (c : obj),
     In c (allCandidates st) ->
     loose_eq_string (obj_get c "region") r = true ->
     (forall t, In t tipos -> obj_get c "tipo" <> VStr t) ->
     forall tipo, ~ In c (region_list (getRegionData st r) tipo)).
  { intros st r c Hc Hr Hn tipo Hin.
    apply region_list_In in Hin. destruct Hin as (Ht & _ & _ & Hs).
    exact (Hn tipo Ht Hs). }
  split; [exact H|].
  exists (facade_with [alice; eve]), "north", eve.
  split; [simpl; auto|]. split; [reflexivity|].
  apply H; [simpl; auto|reflexivity|].
  intros t [<-|[<-|[<-|[]]]]; vm_compute; discriminate.
Qed.

(** The candidate Eve (tipo cotas) of region north is in no list, while
    Alice is. *)
Lemma getRegionData_other_tipo_dropped_witness :
  In eve (allCandidates (facade_with [alice; eve]))
  /\ loose_eq_string (obj_get eve "region") "north" = true
  /\ (forall t, In t tipos -> obj_get eve "tipo" <> VStr t)
  /\ ~ In eve (region_list (getRegionData (facade_with [alice; eve]) "north") "ampla").
Proof.
  assert (Hn : forall t, In t tipos -> obj_get eve "tipo" <> VStr t).
  { intros t [<-|[<-|[<-|[]]]]; vm_compute; discriminate. }
  split; [simpl; auto|]. split; [reflexivity|]. split; [exact Hn|].
  apply (proj1 getRegionData_other_tipo_dropped (facade_with [alice; eve]) "north" eve);
    [simpl; auto|reflexivity|exact Hn].
Defined.

(** ** The store *)

Lemma same_store_log (msg : string) (w : world) : same_store w (log msg w).
Proof. repeat split. Qed.

Lemma assoc_get_set {A : Type} (k : string) (v : A) (o : list (string * A)) :
  assoc_get (assoc_set k v o) k = Some v.
Proof.
  induction o as [|[k' v'] o IH]; simpl.
  - rewrite String.eqb_refl. reflexivity.
  - destruct (String.eqb k' k) eqn:E; simpl; rewrite E; [reflexivity|exact IH].
Qed.

Lemma documents_set (path : string) (ds : list doc) (w : world) :
  documents (set_documents path ds w) path = ds.
Proof. unfold documents. simpl. rewrite assoc_get_set. reflexivity. Qed.

Lemma adds_of_app (a b : list op) : adds_of (a ++ b) = adds_of a ++ adds_of b.
Proof. apply flat_map_app. Qed.

Lemma deletes_of_app (a b : list op) : deletes_of (a ++ b) = deletes_of a ++ deletes_of b.
Proof. apply flat_map_app. Qed.

(** ** The readiness guard *)

(** C6: while readiness is not established, [addCandidate], [clearAll] and
    [restoreData] return [false], leave the facade as it is, issue no remote
    call and change nothing of the store; they only log. *)
Theorem not_ready_guard (E : env) (st : facade) (w : world) :
  isAuthReady st = false ->
  (forall region candidate, exists w',
      addCandidate E region candidate st w = (false, st, w') /\ same_store w w')
  /\ (exists w', clearAll E st w = (false, st, w') /\ same_store w w')
  /\ (forall jsonData, exists w',
        restoreData E jsonData st w = (false, st, w') /\ same_store w w').
Proof.
  intros H. unfold addCandidate, clearAll, restoreData. rewrite H. simpl.
  split; [|split]; intros; eexists; (split; [reflexivity|apply same_store_log]).
Qed.

Lemma not_ready_guard_witness :
  isAuthReady not_ready = false
  /\ (exists w', clearAll offline not_ready one_doc_world = (false, not_ready, w')
                 /\ same_store one_doc_world w').
Proof.
  split; [reflexivity|].
  exact (proj1 (proj2 (not_ready_guard offline not_ready one_doc_world eq_refl))).
Defined.

(** ** restoreData on a payload that is no array *)

(** C3: on a ready facade, a payload that does not parse to an array (a
    syntax error, or any other JSON value) makes [restoreData] return
    [false] with no remote call issued and the store untouched. *)
Theorem restoreData_rejects_non_array
    (E : env) (jsonData : string) (st : facade) (w : world) :
  isAuthReady st = true ->
  (forall records, JSON_parse jsonData <> Some (VArr records)) ->
  exists w', restoreData E jsonData st w = (false, st, w') /\ same_store w w'.
Proof.
  intros Hr Hn. unfold restoreData. rewrite Hr. simpl.
  destruct (JSON_parse jsonData) as [v|] eqn:Ep.
  - destruct v; try (eexists; split;
      [try reflexivity; rewrite orb_true_r; reflexivity|apply same_store_log]).
    elim (Hn elems). reflexivity.
  - eexists. split; [reflexivity|apply same_store_log].
Qed.

Lemma restoreData_rejects_non_array_witness :
  (exists w', restoreData accepting payload_object ready one_doc_world = (false, ready, w')
              /\ same_store one_doc_world w')
  /\ (exists w', restoreData accepting payload_garbage ready one_doc_world = (false, ready, w')
                 /\ same_store one_doc_world w').
Proof.
  split.
  - apply (restoreData_rejects_non_array accepting payload_object ready one_doc_world);
      [reflexivity|intros records; vm_compute; discriminate].
  - apply (restoreData_rejects_non_array accepting payload_garbage ready one_doc_world);
      [reflexivity|intros records; vm_compute; discriminate].
Defined.

(** ** clearAll *)

(** C7: on a ready facade, when the query of the collection yields an
    empty snapshot, [clearAll] issues that query and no deletion, changes
    no document and returns [true]. *)
Theorem clearAll_empty (E : env) (st : facade) (w : world) :
  isAuthReady st = true ->
  fst (getDocs E (collection_path st) w) = Some [] ->
  exists w',
    clearAll E st w = (true, st, w')
    /\ issued w' = issued w ++ [GetDocs (collection_path st)]
    /\ deletes_of (issued w') = deletes_of (issued w)
    /\ remote w' = remote w.
Proof.
  intros Hr Hq. unfold clearAll. rewrite Hr. simpl.
  unfold getDocs in *. destruct (rejects E (GetDocs (collection_path st))).
  - discriminate.
  - simpl in Hq. injection Hq as ->. simpl. eexists. split; [reflexivity|].
    simpl. split; [reflexivity|]. split; [|reflexivity].
    rewrite deletes_of_app. simpl. apply app_nil_r.
Qed.

Lemma clearAll_empty_witness :
  isAuthReady ready = true
  /\ fst (getDocs accepting (collection_path ready) empty_world) = Some []
  /\ exists w',
       clearAll accepting ready empty_world = (true, ready, w')
       /\ issued w' = issued empty_world ++ [GetDocs (collection_path ready)]
       /\ deletes_of (issued w') = deletes_of (issued empty_world)
       /\ remote w' = remote empty_world.
Proof.
  split; [reflexivity|]. split; [reflexivity|].
  exact (clearAll_empty accepting ready empty_world eq_refl eq_refl).
Defined.

Lemma filter_filter {A : Type} (f g : A -> bool) (l : list A) :
  filter f (filter g l) = filter (fun x => g x && f x) l.
Proof.
  induction l as [|x l IH]; simpl; [reflexivity|].
  destruct (g x); simpl; [destruct (f x)|]; rewrite ?IH; reflexivity.
Qed.

Lemma filter_all {A : Type} (f : A -> bool) (l : list A) :
  (forall x, f x = true) -> filter f l = l.
Proof.
  intros H. induction l as [|x l IH]; simpl; [reflexivity|].
  rewrite H, IH. reflexivity.
Qed.

Lemma filter_none {A : Type} (f : A -> bool) (l : list A) :
  (forall x, In x l -> f x = false) -> filter f l = [].
Proof.
  induction l as [|x l IH]; intros H; simpl; [reflexivity|].
  rewrite (H x (or_introl eq_refl)). apply IH. intros y Hy. apply H. right. exact Hy.
Qed.

(** The deletions of [clearAll]: every one is issued, whatever the
    outcome of the others. *)
Lemma clearAll_deletions (E : env) (path : string) (ds : list doc) :
  forall (acc : bool * world),
    issued (snd (fold_left (delete_each E path) ds acc))
    = issued (snd acc) ++ map (fun d => DeleteDoc path (fst d)) ds
    /\ ticks (snd (fold_left (delete_each E path) ds acc)) = ticks (snd acc)
    /\ events (snd (fold_left (delete_each E path) ds acc)) = events (snd acc)
    /\ ((forall o, rejects E o = false) ->
        fst (fold_left (delete_each E path) ds acc) = fst acc
        /\ documents (snd (fold_left (delete_each E path) ds acc)) path
           = filter (fun d => forallb (fun d' => negb (String.eqb (fst d) (fst d'))) ds)
                    (documents (snd acc) path)).
Proof.
  induction ds as [|d ds IH]; intros acc; cbn [fold_left map].
  - rewrite app_nil_r.
    split; [reflexivity|]. split; [reflexivity|]. split; [reflexivity|].
    intros _. split; [reflexivity|]. symmetry. apply filter_all. reflexivity.
  - destruct (IH (delete_each E path acc d)) as (Hi & Ht & He & Hacc).
    rewrite Hi, Ht, He. clear Hi Ht He.
    unfold delete_each at 1 2 3, deleteDoc.
    destruct (rejects E (DeleteDoc path (fst d))) eqn:Er; cbn [snd issued issue ticks events].
    + rewrite <- app_assoc.
      split; [reflexivity|]. split; [reflexivity|]. split; [reflexivity|].
      intros Hno. rewrite Hno in Er. discriminate.
    + rewrite <- app_assoc.
      split; [reflexivity|]. split; [reflexivity|]. split; [reflexivity|].
      intros Hno. destruct (Hacc Hno) as [Ho Hd]. rewrite Ho, Hd. clear Ho Hd Hacc.
      unfold delete_each, deleteDoc. rewrite Er. cbn [fst snd]. split.
      * apply andb_true_r.
      * change (documents (issue ?o ?w) path) with (documents w path).
        rewrite documents_set, filter_filter. reflexivity.
Qed.

(** [clearAll] on a ready facade issues no [addDoc] and does not read the
    clock. *)
Lemma clearAll_no_adds (E : env) (st : facade) (w : world) :
  isAuthReady st = true ->
  exists r w', clearAll E st w = (r, st, w')
    /\ adds_of (issued w') = adds_of (issued w) /\ ticks w' = ticks w.
Proof.
  intros Hr. unfold clearAll. rewrite Hr. simpl.
  unfold getDocs. destruct (rejects E (GetDocs (collection_path st))).
  - do 2 eexists. split; [reflexivity|]. simpl. split; [|reflexivity].
    rewrite adds_of_app. simpl. apply app_nil_r.
  - pose proof (clearAll_deletions E (collection_path st)
                  (documents w (collection_path st))
                  (true, issue (GetDocs (collection_path st)) w)) as H.
    destruct H as (Hi & Ht & _ & _).
    match goal with
    | |- context [fold_left ?f ?l ?a] => destruct (fold_left f l a) as [oks w2]
    end.
    simpl in Hi, Ht.
    assert (Ha : adds_of (issued w2) = adds_of (issued w)).
    { rewrite Hi, !adds_of_app. simpl.
      assert (Hz : forall l, adds_of (map (fun d : doc => DeleteDoc (collection_path st) (fst d)) l) = []).
      { induction l as [|x l IHl]; simpl; [reflexivity|exact IHl]. }
      rewrite Hz, !app_nil_r. reflexivity. }
    destruct oks; do 2 eexists; (split; [reflexivity|]); simpl; auto.
Qed.

(** [clearAll] when no call is rejected: the query, a deletion per
    document, and an empty collection. *)
Lemma clearAll_accepted (E : env) (st : facade) (w : world) :
  isAuthReady st = true ->
  (forall o, rejects E o = false) ->
  exists w', clearAll E st w = (true, st, w')
    /\ issued w' = issued w ++ GetDocs (collection_path st)
         :: map (fun d => DeleteDoc (collection_path st) (fst d))
                (documents w (collection_path st))
    /\ documents w' (collection_path st) = []
    /\ ticks w' = ticks w.
Proof.
  intros Hr Hno. unfold clearAll. rewrite Hr. simpl.
  unfold getDocs. rewrite Hno.
  pose proof (clearAll_deletions E (collection_path st)
                (documents w (collection_path st))
                (true, issue (GetDocs (collection_path st)) w)) as H.
  destruct H as (Hi & Ht & _ & Hacc).
  destruct (Hacc Hno) as [Ho Hd]. clear Hacc.
  match goal with
  | |- context [fold_left ?f ?l ?a] => destruct (fold_left f l a) as [oks w2]
  end.
  simpl in *. subst oks. eexists. split; [reflexivity|]. simpl.
  rewrite Hi, Ht, <- app_assoc. simpl. repeat split; try reflexivity.
  unfold documents at 1. simpl. fold (documents w2 (collection_path st)).
  rewrite Hd. apply filter_none. intros x Hx.
  unfold documents at 1. simpl. fold (documents w (collection_path st)).
  apply not_true_is_false. intros Hall.
  rewrite forallb_forall in Hall. specialize (Hall x Hx).
  rewrite String.eqb_refl in Hall. discriminate.
Qed.

(** ** restoreData on an array *)

Lemma restore_loop_cons (E : env) (path : string) (c : value) (rest : list value)
    (added : bool) (w : world) :
  restore_loop E path (c :: rest) added w =
  match c with
  | VUndefined | VNull => (None, w)
  | _ =>
      if accepted c then
        if converts (prop c "pontuacao") then
          let (ts, w1) :=
            if ToBoolean (prop c "timestamp") then (prop c "timestamp", w)
            else let (t, w') := now E w in (VStr t, w') in
          let (ok, w2) :=
            addDoc E path
              (restored_record (prop c "nome") (prop c "pontuacao") (prop c "tipo")
                 (prop c "region") ts) w1 in
          restore_loop E path rest (added && ok) w2
        else (None, w)
      else
        restore_loop E path rest added
          (log "Candidato inválido no arquivo de restauração, pulando:" w)
  end.
Proof. destruct c; reflexivity. Qed.

(** The loop by the three fates of its first element. *)
Lemma restore_loop_step (E : env) (path : string) (c : value) (rest : list value)
    (added : bool) (w : world) :
  restore_loop E path (c :: rest) added w =
  if throws c then (None, w)
  else if accepted c then
    let (ts, w1) :=
      if ToBoolean (prop c "timestamp") then (prop c "timestamp", w)
      else let (t, w') := now E w in (VStr t, w') in
    let (ok, w2) :=
      addDoc E path
        (restored_record (prop c "nome") (prop c "pontuacao") (prop c "tipo")
           (prop c "region") ts) w1 in
    restore_loop E path rest (added && ok) w2
  else
    restore_loop E path rest added
      (log "Candidato inválido no arquivo de restauração, pulando:" w).
Proof.
  rewrite restore_loop_cons.
  destruct c; try reflexivity; unfold throws;
    destruct (accepted _); try reflexivity;
    destruct (converts _); reflexivity.
Qed.

Lemma addDoc_issued (E : env) (path : string) (data : obj) (w : world) :
  issued (snd (addDoc E path data w)) = issued w ++ [AddDoc path data].
Proof. unfold addDoc. destruct (rejects E (AddDoc path data)); reflexivity. Qed.










(** ** exportCSV *)

Lemma string_app_assoc (a b c : string) : (a +++ b) +++ c = a +++ b +++ c.
Proof. induction a as [|x a IH]; simpl; [reflexivity|]. rewrite IH. reflexivity. Qed.

Lemma string_app_nil_r (a : string) : a +++ "" = a.
Proof. induction a as [|x a IH]; simpl; [reflexivity|]. rewrite IH. reflexivity. Qed.

Lemma exportCSV_thrown (l : list obj) :
  fold_left (fun csv candidato =>
               match csv, csv_line candidato with
               | Some text, Some line => Some (text +++ line)
               | _, _ => None
               end) l None = None.
Proof. induction l as [|c l IH]; [reflexivity|exact IH]. Qed.

Lemma exportCSV_fold (l : list obj) (csv : string) :
  fold_left (fun csv candidato =>
               match csv, csv_line candidato with
               | Some text, Some line => Some (text +++ line)
               | _, _ => None
               end) l (Some csv)
  = if forallb line_converts l
    then Some (csv +++ fold_right String.append "" (map line_text l))
    else None.
Proof.
  revert csv. induction l as [|c l IH]; intros csv; cbn [fold_left forallb map fold_right].
  - rewrite string_app_nil_r. reflexivity.
  - unfold csv_line at 2. destruct (line_converts c); cbn [andb].
    + rewrite IH. destruct (forallb line_converts l); [|reflexivity].
      rewrite string_app_assoc. reflexivity.
    + apply exportCSV_thrown.
Qed.

(** C8, as the code has it: when every cached candidate has a region,
    name, score and timestamp that can be converted to a string, the text
    [exportCSV] returns is the header line
    [Região,Nome,Pontuação,Tipo,Data/Hora] followed by one line per cached
    candidate, in cache order: region, name between double quotes, score,
    category label and timestamp, separated by commas; when one of these
    fields of a cached candidate cannot be converted, an object with a
    property toString, [exportCSV] throws and returns no text.  The label
    is [Ampla Concorrência] for ampla, [PCD] for pcd and [PPP] for
    anything else.  The fields are the strings of the values as they are:
    a quote or a comma inside one is not escaped. *)
Theorem exportCSV_layout (st : facade) :
  exportCSV st
  = (if forallb line_converts (allCandidates st)
     then Some (("Região,Nome,Pontuação,Tipo,Data/Hora" +++ String newline "")
                +++ fold_right String.append "" (map line_text (allCandidates st)))
     else None)
  /\ (forall c,
        line_converts c
        = (converts (obj_get c "region") && converts (obj_get c "nome")
           && converts (obj_get c "pontuacao") && converts (obj_get c "timestamp"))%bool
        /\ line_text c
           = ToString (obj_get c "region") +++ "," +++
             quote_mark +++ ToString (obj_get c "nome") +++ quote_mark +++ "," +++
             ToString (obj_get c "pontuacao") +++ "," +++
             tipoName c +++ "," +++
             ToString (obj_get c "timestamp") +++ String newline "")
  /\ (forall ps, converts (VObj ps) = negb (existsb (fun kv => String.eqb (fst kv) "toString") ps))
  /\ (forall c, obj_get c "tipo" = VStr "ampla" -> tipoName c = "Ampla Concorrência")
  /\ (forall c, obj_get c "tipo" = VStr "pcd" -> tipoName c = "PCD")
  /\ (forall c, obj_get c "tipo" <> VStr "ampla" -> obj_get c "tipo" <> VStr "pcd" ->
                tipoName c = "PPP")
  /\ exportCSV (facade_with
                  [[("region", VStr "a,b"); ("nome", VStr ("x" +++ quote_mark +++ "y"));
                    ("pontuacao", VNum (Fin 905 (-1))); ("tipo", VStr "pcd");
                    ("timestamp", VStr "t")]])
     = Some (("Região,Nome,Pontuação,Tipo,Data/Hora" +++ String newline "")
             +++ "a,b," +++ quote_mark +++ "x" +++ quote_mark +++ "y" +++ quote_mark
             +++ ",90.5,PCD,t" +++ String newline "")
  /\ exportCSV (facade_with
                  [[("region", VObj [("toString", VNum (Fin 1 0))]); ("nome", VStr "Ana");
                    ("pontuacao", VNum (Fin 9 1)); ("tipo", VStr "pcd");
                    ("timestamp", VStr "t")]])
     = None.
Proof.
  split; [apply exportCSV_fold|]. split; [intros c; split; reflexivity|].
  split; [reflexivity|].
  unfold tipoName. split; [|split; [|split; [|split]]].
  - intros c H. rewrite H. reflexivity.
  - intros c H. rewrite H. reflexivity.
  - intros c Ha Hp.
    destruct (strict_eq_string (obj_get c "tipo") "ampla") eqn:Ea.
    + apply strict_eq_string_iff in Ea. contradiction.
    + destruct (strict_eq_string (obj_get c "tipo") "pcd") eqn:Ep; [|reflexivity].
      apply strict_eq_string_iff in Ep. contradiction.
  - reflexivity.
  - reflexivity.
Qed.

(** C8 as stated fails: the header of the empty export is not
    [Region,Name,Score,Category,Timestamp]; and for a cache with a
    record whose region is an object with a property toString no text is
    returned. *)
Lemma exportCSV_header_not_english :
  exportCSV (facade_with [])
  = Some ("Região,Nome,Pontuação,Tipo,Data/Hora" +++ String newline "")
  /\ String.prefix "Region,Name,Score,Category,Timestamp"
       ("Região,Nome,Pontuação,Tipo,Data/Hora" +++ String newline "")
     = false
  /\ exportCSV (facade_with
                  [[("region", VObj [("toString", VNum (Fin 1 0))]); ("nome", VStr "Ana");
                    ("pontuacao", VNum (Fin 9 1)); ("tipo", VStr "pcd");
                    ("timestamp", VStr "t")]])
     = None.
Proof. split; [|split]; reflexivity. Qed.

(** ** Strings in JSON text *)

Lemma parse_chars_quote_char (c : ascii) (tail : text) :
  parse_chars (quote_char c ++ tail) = prepend [c] (parse_chars tail).
Proof. destruct c as [[] [] [] [] [] [] [] []]; reflexivity. Qed.

Lemma parse_chars_quoted (s r : text) :
  parse_chars (flat_map quote_char s ++ dquote :: r) = Some (s, r).
Proof.
  induction s as [|c s IH].
  - reflexivity.
  - cbn [flat_map]. rewrite <- app_assoc, parse_chars_quote_char, IH. reflexivity.
Qed.

Lemma T_string (s : string) : string_of_list_ascii (T s) = s.
Proof. apply String.string_of_list_ascii_of_string. Qed.

(** ** White space *)

Lemma skip_ws_app (ws t : text) :
  forallb is_json_ws ws = true -> skip_ws (ws ++ t) = skip_ws t.
Proof.
  induction ws as [|c ws IH]; intros H; [reflexivity|].
  simpl in H. apply andb_prop in H. destruct H as [Hc H].
  cbn [app]. unfold skip_ws in *. cbn [drop_while]. rewrite Hc. apply IH. exact H.
Qed.

Lemma skip_ws_head (c : ascii) (t : text) :
  is_json_ws c = false -> skip_ws (c :: t) = c :: t.
Proof. intros H. unfold skip_ws. cbn [drop_while]. rewrite H. reflexivity. Qed.

(** ** Induction on values *)

Lemma value_induction (P : value -> Prop) :
  P VUndefined -> P VNull -> (forall b, P (VBool b)) -> (forall n, P (VNum n)) ->
  (forall s, P (VStr s)) ->
  (forall l, Forall P l -> P (VArr l)) ->
  (forall ps, Forall (fun kv => P (snd kv)) ps -> P (VObj ps)) ->
  forall v, P v.
Proof.
  intros Hu Hn Hb Hnum Hs Ha Ho.
  fix IH 1. intros [| |b|n|s|l|ps].
  - exact Hu.
  - exact Hn.
  - apply Hb.
  - apply Hnum.
  - apply Hs.
  - apply Ha.
    exact ((fix all (l : list value) : Forall P l :=
              match l with
              | [] => Forall_nil P
              | x :: l' => Forall_cons x (IH x) (all l')
              end) l).
  - apply Ho.
    exact ((fix all (ps : list (string * value)) : Forall (fun kv => P (snd kv)) ps :=
              match ps with
              | [] => Forall_nil _
              | kv :: ps' => Forall_cons kv (IH (snd kv)) (all ps')
              end) ps).
Qed.

Lemma vsize_arr (l : list value) : vsize (VArr l) = S (elements_size l).
Proof.
  reflexivity.
Qed.

Lemma vsize_obj (ps : list (string * value)) : vsize (VObj ps) = S (members_size ps).
Proof.
  cbn [vsize]. f_equal. unfold members_size.
  induction ps as [|[k x] ps IH]; [reflexivity|].
  cbn [fold_right snd]. rewrite <- IH. reflexivity.
Qed.

Lemma wf_obj (ps : list (string * value)) :
  wf_value (VObj ps)
  = (distinct (map fst ps) && forallb (fun kv => wf_value (snd kv)) ps)%bool.
Proof.
  cbn [wf_value]. f_equal. induction ps as [|[k x] ps IH]; [reflexivity|].
  cbn [forallb snd]. rewrite <- IH. reflexivity.
Qed.

Lemma clean_obj (ps : list (string * value)) :
  json_clean (VObj ps) = forallb (fun kv => json_clean (snd kv)) ps.
Proof.
  cbn [json_clean]. induction ps as [|[k x] ps IH]; [reflexivity|].
  cbn [forallb snd]. rewrite <- IH. reflexivity.
Qed.

Lemma serialize_obj_clean (g i : text) (ps : list (string * value)) :
  forallb (fun kv => json_clean (snd kv)) ps = true ->
  serialize g i (VObj ps)
  = bracketed "{" "}" g i
      (map (fun kv => member_text g (fst kv) (serialize g (i ++ g) (snd kv))) ps).
Proof.
  intros H. cbn [serialize]. f_equal.
  induction ps as [|[k x] ps IH]; [reflexivity|].
  cbn [forallb snd] in H. apply andb_prop in H. destruct H as [Hx H].
  cbn [map fst snd]. rewrite <- (IH H).
  destruct x; try reflexivity. discriminate Hx.
Qed.

Lemma join_cons2 (sep p q : text) (ps : list text) :
  join sep (p :: q :: ps) = p ++ sep ++ join sep (q :: ps).
Proof. cbn [join flat_map]. rewrite <- app_assoc. reflexivity. Qed.

Lemma item_lead_ws (g i : text) :
  forallb is_json_ws g = true -> forallb is_json_ws i = true ->
  forallb is_json_ws (item_lead g i) = true.
Proof.
  intros Hg Hi. unfold item_lead. destruct g as [|c g']; [reflexivity|].
  cbn [forallb]. rewrite forallb_app, Hi, Hg. reflexivity.
Qed.

Lemma close_lead_ws (g i : text) :
  forallb is_json_ws i = true -> forallb is_json_ws (close_lead g i) = true.
Proof.
  intros Hi. unfold close_lead. destruct g as [|c g']; [reflexivity|].
  cbn [forallb]. rewrite Hi. reflexivity.
Qed.

Lemma inner_ws (g i : text) :
  forallb is_json_ws g = true -> forallb is_json_ws i = true ->
  forallb is_json_ws (i ++ g) = true.
Proof. intros Hg Hi. rewrite forallb_app, Hi, Hg. reflexivity. Qed.

Lemma number_end_closing (g i : text) (c : ascii) (rest : text) :
  c = "]"%char \/ c = "}"%char ->
  number_end (close_lead g i ++ c :: rest) = true.
Proof.
  intros H. unfold close_lead. destruct g; [|reflexivity].
  destruct H as [-> | ->]; reflexivity.
Qed.

(** The first character of a value's text. *)
Lemma serialize_head (g i : text) (v : value) :
  exists c t, serialize g i v = c :: t
    /\ is_json_ws c = false /\ Ascii.eqb c "]" = false.
Proof.
  destruct v as [| |[|]|n|s|l|ps]; cbn [serialize];
    try (eexists _, _; split; [reflexivity|split; reflexivity]).
  - destruct n as [| | |m e]; cbn [is_finite];
      try (eexists _, _; split; [reflexivity|split; reflexivity]).
    destruct (number_text_head m e) as (c & t & -> & Hc).
    destruct (number_head_tests c Hc) as (H1 & _ & _ & _ & H2 & _).
    exists c, t. auto.
  - unfold bracketed. destruct (map _ l);
      eexists _, _; (split; [reflexivity|split; reflexivity]).
  - unfold bracketed.
    match goal with |- context [match ?x with [] => _ | _ :: _ => _ end] => destruct x end;
      eexists _, _; (split; [reflexivity|split; reflexivity]).
Qed.

(** ** Reading back what was written *)

Lemma skip_ws_lead_value (ws : text) (g i : text) (v : value) (tail : text) :
  forallb is_json_ws ws = true ->
  skip_ws (ws ++ serialize g i v ++ tail) = serialize g i v ++ tail.
Proof.
  intros H. rewrite (skip_ws_app ws _ H).
  destruct (serialize_head g i v) as (c & t & -> & Hc & _).
  apply skip_ws_head. exact Hc.
Qed.

Lemma parse_elements_serialized (g i rest : text) (l : list value) :
  forallb is_json_ws g = true -> forallb is_json_ws i = true ->
  forall v,
    Forall (fun v => forall (fuel : nat) (rest' : text),
                vsize v <= fuel -> number_end rest' = true ->
                parse_value fuel (serialize g (i ++ g) v ++ rest') = Some (v, rest'))
           (v :: l) ->
    forall fuel, elements_size (v :: l) <= fuel ->
      parse_elements fuel
        (join (","%char :: item_lead g i) (map (serialize g (i ++ g)) (v :: l))
           ++ close_lead g i ++ "]"%char :: rest)
      = Some (v :: l, rest).
Proof.
  intros Hg Hi. induction l as [|v2 l IH]; intros v HP fuel Hf;
    inversion HP as [|? ? Hv HP']; subst;
    cbn [elements_size fold_right] in Hf; destruct fuel as [|f]; try lia;
    cbn [parse_elements].
  - cbn [map join flat_map]. rewrite app_nil_r.
    rewrite Hv by (lia || apply number_end_closing; auto).
    rewrite (skip_ws_app _ _ (close_lead_ws g i Hi)), (skip_ws_head "]"%char) by reflexivity.
    reflexivity.
  - cbn [map]. rewrite join_cons2, <- !app_assoc.
    cbn [app]. rewrite Hv by (lia || reflexivity).
    rewrite (skip_ws_head ","%char) by reflexivity.
    cbn [Ascii.eqb Bool.eqb].
    change (serialize g (i ++ g) v2 :: map (serialize g (i ++ g)) l)
      with (map (serialize g (i ++ g)) (v2 :: l)).
    assert (Hskip : skip_ws (item_lead g i
                      ++ join (","%char :: item_lead g i)
                           (map (serialize g (i ++ g)) (v2 :: l))
                      ++ close_lead g i ++ "]"%char :: rest)
                    = join (","%char :: item_lead g i)
                           (map (serialize g (i ++ g)) (v2 :: l))
                      ++ close_lead g i ++ "]"%char :: rest).
    { cbn [map join]. rewrite <- !app_assoc.
      apply skip_ws_lead_value. apply item_lead_ws; assumption. }
    rewrite Hskip, IH; [reflexivity|exact HP'|].
    cbn [elements_size fold_right] in *. lia.
Qed.

Lemma member_text_app (g : text) (k : string) (body tail : text) :
  member_text g k body ++ tail
  = dquote :: flat_map quote_char (T k)
      ++ dquote :: ":"%char :: match g with [] => [] | _ => [" "%char] end
      ++ body ++ tail.
Proof.
  unfold member_text, QuoteJSONString. cbn [app].
  rewrite <- !app_assoc. cbn [app]. rewrite <- !app_assoc. reflexivity.
Qed.

Lemma parse_members_serialized (g i rest : text) (ps : list (string * value)) :
  forallb is_json_ws g = true -> forallb is_json_ws i = true ->
  forall kv,
    Forall (fun kv => forall (fuel : nat) (rest' : text),
                vsize (snd kv) <= fuel -> number_end rest' = true ->
                parse_value fuel (serialize g (i ++ g) (snd kv) ++ rest')
                = Some (snd kv, rest'))
           (kv :: ps) ->
    forall fuel, members_size (kv :: ps) <= fuel ->
      parse_members fuel
        (join (","%char :: item_lead g i)
              (map (fun kv => member_text g (fst kv) (serialize g (i ++ g) (snd kv)))
                   (kv :: ps))
           ++ close_lead g i ++ "}"%char :: rest)
      = Some (kv :: ps, rest).
Proof.
  intros Hg Hi.
  assert (Hsp : forallb is_json_ws match g with [] => [] | _ => [" "%char] end = true)
    by (destruct g; reflexivity).
  induction ps as [|kv2 ps IH]; intros [k x] HP fuel Hf;
    inversion HP as [|? ? Hv HP']; subst;
    cbn [members_size fold_right snd] in Hf; destruct fuel as [|f]; try lia;
    cbn [snd] in Hv.
  - cbn [map join flat_map fst snd]. rewrite app_nil_r, member_text_app.
    cbn [parse_members]. rewrite Ascii.eqb_refl, parse_chars_quoted.
    rewrite (skip_ws_head ":"%char) by reflexivity. cbn [Ascii.eqb Bool.eqb].
    rewrite (skip_ws_lead_value _ g (i ++ g) x _ Hsp).
    rewrite Hv by (lia || apply number_end_closing; auto).
    rewrite (skip_ws_app _ _ (close_lead_ws g i Hi)), (skip_ws_head "}"%char) by reflexivity.
    cbn [Ascii.eqb Bool.eqb]. rewrite T_string. reflexivity.
  - cbn [map fst snd]. rewrite join_cons2, <- !app_assoc, member_text_app.
    cbn [parse_members]. rewrite Ascii.eqb_refl, parse_chars_quoted.
    rewrite (skip_ws_head ":"%char) by reflexivity. cbn [Ascii.eqb Bool.eqb].
    rewrite (skip_ws_lead_value _ g (i ++ g) x _ Hsp).
    cbn [app]. rewrite Hv by (lia || reflexivity).
    rewrite (skip_ws_head ","%char) by reflexivity.
    cbn [Ascii.eqb Bool.eqb].
    match goal with
    | |- context [join ?sep (?p :: map ?f ps)] =>
        change (join sep (p :: map f ps)) with (join sep (map f (kv2 :: ps)))
    end.
    assert (Hskip : forall tail,
      skip_ws (item_lead g i
                 ++ join (","%char :: item_lead g i)
                      (map (fun kv => member_text g (fst kv)
                                        (serialize g (i ++ g) (snd kv))) (kv2 :: ps))
                 ++ tail)
      = join (","%char :: item_lead g i)
             (map (fun kv => member_text g (fst kv)
                               (serialize g (i ++ g) (snd kv))) (kv2 :: ps))
        ++ tail).
    { intros tail. rewrite (skip_ws_app _ _ (item_lead_ws g i Hg Hi)).
      cbn [map join]. rewrite <- !app_assoc, member_text_app.
      apply skip_ws_head. reflexivity. }
    rewrite Hskip, IH; [rewrite T_string; reflexivity|exact HP'|].
    cbn [members_size fold_right] in *. lia.
Qed.

Lemma assoc_set_fresh {A : Type} (k : string) (v : A) (o : list (string * A)) :
  ~ In k (map fst o) -> assoc_set k v o = o ++ [(k, v)].
Proof.
  induction o as [|[k' v'] o IH]; intros H; [reflexivity|].
  cbn [assoc_set]. destruct (String.eqb_spec k' k) as [->|Hne].
  - elim H. left. reflexivity.
  - rewrite IH; [reflexivity|]. intros Hin. apply H. right. exact Hin.
Qed.

Lemma distinct_cons (k : string) (ks : list string) :
  distinct (k :: ks) = true <-> ~ In k ks /\ distinct ks = true.
Proof.
  cbn [distinct]. rewrite andb_true_iff, negb_true_iff. split.
  - intros [H1 H2]. split; [|exact H2]. intros Hin.
    assert (existsb (String.eqb k) ks = true).
    { apply existsb_exists. exists k. split; [exact Hin|apply String.eqb_refl]. }
    congruence.
  - intros [H1 H2]. split; [|exact H2].
    apply not_true_is_false. intros E. apply existsb_exists in E.
    destruct E as (k' & Hin & E). apply String.eqb_eq in E. subst k'. exact (H1 Hin).
Qed.

Lemma object_of_distinct (ps : list (string * value)) :
  distinct (map fst ps) = true -> object_of ps = VObj ps.
Proof.
  unfold object_of. intros H. f_equal.
  assert (Hgen : forall acc,
    (forall k, In k (map fst ps) -> ~ In k (map fst acc)) ->
    fold_left (fun o kv => assoc_set (fst kv) (snd kv) o) ps acc = acc ++ ps).
  { induction ps as [|[k v] ps IH]; intros acc Hacc.
    - symmetry. apply app_nil_r.
    - cbn [map fst] in H. apply distinct_cons in H. destruct H as [Hk Hd].
      cbn [fold_left fst snd]. rewrite assoc_set_fresh by (apply Hacc; left; reflexivity).
      rewrite (IH Hd), <- app_assoc; [reflexivity|].
      intros k' Hin. rewrite map_app, in_app_iff. intros [Hin'|[<-|[]]].
      + apply (Hacc k'); [right; exact Hin|exact Hin'].
      + exact (Hk Hin). }
  apply (Hgen []). intros k _ [].
Qed.

Lemma Forall_under {A : Type} (P : A -> Prop) (f g : A -> bool) (l : list A) :
  Forall (fun x => f x = true -> g x = true -> P x) l ->
  forallb f l = true -> forallb g l = true -> Forall P l.
Proof.
  induction 1 as [|x l Hx _ IH]; intros Hf Hg; constructor;
    cbn [forallb] in Hf, Hg; apply andb_prop in Hf, Hg;
    destruct Hf as [Hf1 Hf2], Hg as [Hg1 Hg2]; auto.
Qed.

(** A value that JSON text can carry is read back from its text, whatever
    the gap and the indentation. *)
Lemma parse_serialize (g : text) :
  forallb is_json_ws g = true ->
  forall v,
    wf_value v = true -> json_clean v = true ->
    forall (i : text) (fuel : nat) (rest : text),
      forallb is_json_ws i = true -> vsize v <= fuel -> number_end rest = true ->
      parse_value fuel (serialize g i v ++ rest) = Some (v, rest).
Proof.
  intros Hg v. induction v as [| |b|n|s|l IH|ps IH] using value_induction;
    intros Hwf Hcl i fuel rest Hi Hf Hr;
    (destruct fuel as [|f]; [cbn [vsize] in Hf; lia|]).
  - discriminate Hcl.
  - reflexivity.
  - destruct b; reflexivity.
  - destruct n as [| | |m e]; try discriminate Hcl.
    cbn [serialize is_finite].
    destruct (number_text_head m e) as (c & t & Ht & Hc).
    destruct (number_head_tests c Hc) as (_ & H1 & H2 & H3 & _ & H4 & H5 & H6).
    pose proof (parse_number_text m e rest Hwf Hr) as Hp.
    rewrite Ht in *. cbn [app] in *. cbn [parse_value].
    rewrite H1, H2, H3. cbn [T list_ascii_of_string starts_with].
    rewrite H4, H5, H6, Hp. reflexivity.
  - cbn [serialize]. unfold QuoteJSONString. cbn [app parse_value].
    rewrite Ascii.eqb_refl, <- app_assoc. cbn [app].
    rewrite parse_chars_quoted, T_string. reflexivity.
  - cbn [wf_value json_clean] in Hwf, Hcl. rewrite vsize_arr in Hf.
    cbn [serialize]. destruct l as [|v l].
    + reflexivity.
    + unfold bracketed. cbn [map]. cbn [app parse_value Ascii.eqb Bool.eqb].
      change (serialize g (i ++ g) v :: map (serialize g (i ++ g)) l)
        with (map (serialize g (i ++ g)) (v :: l)).
      rewrite <- !app_assoc.
      assert (Hskip :
        skip_ws (item_lead g i
                   ++ join (","%char :: item_lead g i)
                        (map (serialize g (i ++ g)) (v :: l))
                   ++ close_lead g i ++ ["]"%char] ++ rest)
        = join (","%char :: item_lead g i) (map (serialize g (i ++ g)) (v :: l))
            ++ close_lead g i ++ ["]"%char] ++ rest).
      { cbn [map join]. rewrite <- !app_assoc.
        apply skip_ws_lead_value. apply item_lead_ws; assumption. }
      rewrite Hskip.
      assert (Hhead : exists c t,
        join (","%char :: item_lead g i) (map (serialize g (i ++ g)) (v :: l))
          ++ close_lead g i ++ ["]"%char] ++ rest = c :: t
        /\ Ascii.eqb c "]" = false).
      { cbn [map join]. destruct (serialize_head g (i ++ g) v) as (c & t & -> & _ & Hc).
        exists c. eexists. split; [reflexivity|exact Hc]. }
      destruct Hhead as (c & t & Hct & Hc).
      rewrite Hct, Hc, <- Hct. cbn [app].
      rewrite (parse_elements_serialized g i rest l Hg Hi v); [reflexivity| |lia].
      eapply Forall_impl; [|exact (Forall_under _ _ _ _ IH Hwf Hcl)].
      intros x Hx fuel' rest' Hf' Hr'. apply Hx; try assumption.
      apply inner_ws; assumption.
  - rewrite wf_obj in Hwf. rewrite clean_obj in Hcl. rewrite vsize_obj in Hf.
    apply andb_prop in Hwf. destruct Hwf as [Hd Hwf].
    rewrite (serialize_obj_clean g i ps Hcl). destruct ps as [|kv ps].
    + reflexivity.
    + unfold bracketed. cbn [map]. cbn [app parse_value Ascii.eqb Bool.eqb].
      match goal with
      | |- context [join ?sep (?p :: map ?f ps)] =>
          change (join sep (p :: map f ps)) with (join sep (map f (kv :: ps)))
      end.
      rewrite <- !app_assoc.
      assert (Hskip : forall tail,
        skip_ws (item_lead g i
                   ++ join (","%char :: item_lead g i)
                        (map (fun kv => member_text g (fst kv)
                                          (serialize g (i ++ g) (snd kv))) (kv :: ps))
                   ++ tail)
        = dquote :: flat_map quote_char (T (fst kv))
            ++ skipn (S (length (flat_map quote_char (T (fst kv)))))
                 (join (","%char :: item_lead g i)
                    (map (fun kv => member_text g (fst kv)
                                      (serialize g (i ++ g) (snd kv))) (kv :: ps))
                  ++ tail)
          /\ skip_ws (item_lead g i
                   ++ join (","%char :: item_lead g i)
                        (map (fun kv => member_text g (fst kv)
                                          (serialize g (i ++ g) (snd kv))) (kv :: ps))
                   ++ tail)
             = join (","%char :: item_lead g i)
                        (map (fun kv => member_text g (fst kv)
                                          (serialize g (i ++ g) (snd kv))) (kv :: ps))
                   ++ tail).
      { intros tail. rewrite (skip_ws_app _ _ (item_lead_ws g i Hg Hi)).
        cbn [map join]. rewrite <- !app_assoc, member_text_app.
        rewrite (skip_ws_head dquote) by reflexivity. split; [|reflexivity].
        f_equal. cbn [skipn]. rewrite skipn_app, skipn_all, Nat.sub_diag. reflexivity. }
      destruct (Hskip (close_lead g i ++ ["}"%char] ++ rest)) as [Hs1 Hs2].
      rewrite Hs1. cbn [Ascii.eqb Bool.eqb]. change (Ascii.eqb dquote "}") with false.
      cbv iota. rewrite <- Hs1, Hs2. cbn [app].
      rewrite (parse_members_serialized g i rest ps Hg Hi kv); [|  |lia].
      * rewrite object_of_distinct by exact Hd. reflexivity.
      * eapply Forall_impl; [|exact (Forall_under _ _ _ _ IH Hwf Hcl)].
        intros x Hx fuel' rest' Hf' Hr'. apply Hx; try assumption.
        apply inner_ws; assumption.
Qed.

(** ** The text is long enough to fuel its parse *)

Lemma join_length (sep : text) (p : text) (ps : list text) :
  length p + list_sum (map (fun q => length sep + length q) ps)
  = length (join sep (p :: ps)).
Proof.
  cbn [join]. rewrite length_app. f_equal.
  induction ps as [|q ps IH]; [reflexivity|].
  cbn [map flat_map]. rewrite !length_app, <- IH. reflexivity.
Qed.

Lemma bracketed_length (o c : ascii) (g i : text) (parts : list text) :
  list_sum (map (fun p => S (length p)) parts) < length (bracketed o c g i parts).
Proof.
  unfold bracketed. destruct parts as [|p ps]; [simpl; lia|].
  cbn [length]. rewrite !length_app, <- join_length.
  assert (H : list_sum (map (fun p => S (length p)) ps)
              <= list_sum (map (fun q => length (","%char :: item_lead g i) + length q) ps)).
  { induction ps as [|q ps IH]; [apply le_n|].
    cbn [map]. unfold list_sum in *. cbn [fold_right length] in *. lia. }
  cbn [map]. unfold list_sum in *. cbn [fold_right length] in *. lia.
Qed.

Lemma vsize_le_length (g : text) (v : value) :
  json_clean v = true -> forall i, vsize v <= length (serialize g i v).
Proof.
  induction v as [| |b|n|s|l IH|ps IH] using value_induction; intros Hcl i.
  - discriminate Hcl.
  - simpl. lia.
  - destruct b; simpl; lia.
  - destruct n as [| | |m e]; try discriminate Hcl. cbn [serialize is_finite vsize].
    destruct (number_text_head m e) as (c & t & -> & _). simpl. lia.
  - cbn [serialize vsize]. unfold QuoteJSONString. simpl. lia.
  - rewrite vsize_arr. cbn [serialize json_clean] in *.
    pose proof (bracketed_length "[" "]" g i (map (serialize g (i ++ g)) l)) as Hb.
    assert (H : elements_size l
                <= list_sum (map (fun p => S (length p)) (map (serialize g (i ++ g)) l))).
    { clear Hb. induction IH as [|x l Hx _ IHl]; [apply le_n|].
      cbn [forallb] in Hcl. apply andb_prop in Hcl. destruct Hcl as [Hc1 Hc2].
      specialize (Hx Hc1 (i ++ g)). specialize (IHl Hc2).
      unfold elements_size, list_sum in *. cbn [fold_right map]. lia. }
    lia.
  - rewrite vsize_obj. rewrite clean_obj in Hcl.
    rewrite (serialize_obj_clean g i ps Hcl).
    match goal with |- _ <= length (bracketed _ _ _ _ ?parts) =>
      pose proof (bracketed_length "{" "}" g i parts) as Hb;
      assert (H : members_size ps <= list_sum (map (fun p => S (length p)) parts))
    end.
    { clear Hb. induction IH as [|[k x] ps Hx _ IHl]; [apply le_n|].
      cbn [forallb snd] in Hcl. apply andb_prop in Hcl. destruct Hcl as [Hc1 Hc2].
      cbn [snd] in Hx. specialize (Hx Hc1 (i ++ g)). specialize (IHl Hc2).
      unfold members_size, list_sum in *. cbn [fold_right map fst snd].
      assert (Hm : length (serialize g (i ++ g) x)
                   <= length (member_text g k (serialize g (i ++ g) x))).
      { unfold member_text. rewrite length_app. cbn [length]. rewrite length_app. lia. }
      lia. }
    lia.
Qed.

Lemma spaces_ws (n : nat) : forallb is_json_ws (repeat " "%char n) = true.
Proof. induction n as [|n IH]; [reflexivity|exact IH]. Qed.

(** [JSON.parse] undoes [JSON.stringify] on the values JSON text can
    carry. *)
Lemma JSON_parse_stringify (v : value) (space : nat) :
  wf_value v = true -> json_clean v = true ->
  exists s, JSON_stringify v space = Some s /\ JSON_parse s = Some v.
Proof.
  intros Hwf Hcl.
  set (g := repeat " "%char (Nat.min 10 space)).
  exists (string_of_list_ascii (serialize g [] v)). split.
  - destruct v; try reflexivity. discriminate Hcl.
  - unfold JSON_parse, T. rewrite String.list_ascii_of_string_of_list_ascii.
    assert (Hs : skip_ws (serialize g [] v) = serialize g [] v).
    { destruct (serialize_head g [] v) as (c & t & -> & Hc & _).
      apply skip_ws_head. exact Hc. }
    rewrite Hs. rewrite <- (app_nil_r (serialize g [] v)) at 2.
    rewrite (parse_serialize g (spaces_ws _) v Hwf Hcl [] _ [] eq_refl);
      [reflexivity| |reflexivity].
    pose proof (vsize_le_length g v Hcl []). lia.
Qed.

(** ** What the text loses *)

Lemma image_obj (ps : list (string * value)) :
  json_image (VObj ps)
  = VObj (map (fun kv => (fst kv, json_image (snd kv)))
              (filter (fun kv => not_undefined (snd kv)) ps)).
Proof.
  cbn [json_image]. f_equal. induction ps as [|[k x] ps IH]; [reflexivity|].
  cbn [filter snd]. destruct x; cbn [not_undefined map fst snd]; rewrite <- IH;
    reflexivity.
Qed.

Lemma serialize_obj (g i : text) (ps : list (string * value)) :
  serialize g i (VObj ps)
  = bracketed "{" "}" g i
      (map (fun kv => member_text g (fst kv) (serialize g (i ++ g) (snd kv)))
           (filter (fun kv => not_undefined (snd kv)) ps)).
Proof.
  cbn [serialize]. f_equal. induction ps as [|[k x] ps IH]; [reflexivity|].
  cbn [filter snd]. destruct x; cbn [not_undefined map fst snd]; rewrite <- IH;
    reflexivity.
Qed.

Lemma json_image_defined (v : value) : not_undefined (json_image v) = true.
Proof. destruct v as [| |b|[| | |m e]|s|l|ps]; reflexivity. Qed.

Lemma serialize_image (g : text) (v : value) :
  forall i, serialize g i (json_image v) = serialize g i v.
Proof.
  induction v as [| |b|n|s|l IH|ps IH] using value_induction; intros i;
    try reflexivity.
  - destruct n; reflexivity.
  - cbn [json_image serialize]. f_equal. rewrite map_map.
    induction IH as [|x l Hx _ IHl]; [reflexivity|].
    cbn [map]. rewrite Hx, IHl. reflexivity.
  - rewrite image_obj, !serialize_obj. f_equal.
    induction IH as [|[k x] ps Hx _ IHl]; [reflexivity|].
    cbn [filter snd]. destruct (not_undefined x) eqn:Ex.
    + cbn [map filter fst snd]. rewrite json_image_defined.
      cbn [map fst snd]. cbn [snd] in Hx. rewrite Hx, IHl. reflexivity.
    + exact IHl.
Qed.

Lemma json_image_clean (v : value) : json_clean (json_image v) = true.
Proof.
  induction v as [| |b|n|s|l IH|ps IH] using value_induction; try reflexivity.
  - destruct n; reflexivity.
  - cbn [json_image json_clean].
    induction IH as [|x l Hx _ IHl]; [reflexivity|].
    cbn [map forallb]. rewrite Hx, IHl. reflexivity.
  - rewrite image_obj, clean_obj.
    induction IH as [|[k x] ps Hx _ IHl]; [reflexivity|].
    cbn [filter snd]. destruct (not_undefined x); [|exact IHl].
    cbn [map forallb fst snd]. cbn [snd] in Hx. rewrite Hx, IHl. reflexivity.
Qed.

Lemma json_image_wf (v : value) : wf_value v = true -> wf_value (json_image v) = true.
Proof.
  induction v as [| |b|n|s|l IH|ps IH] using value_induction; intros Hwf;
    try reflexivity.
  - destruct n; try reflexivity. exact Hwf.
  - cbn [json_image wf_value] in *.
    induction IH as [|x l Hx _ IHl]; [reflexivity|].
    cbn [forallb] in Hwf. apply andb_prop in Hwf. destruct Hwf as [H1 H2].
    cbn [map forallb]. rewrite (Hx H1), (IHl H2). reflexivity.
  - rewrite image_obj. rewrite wf_obj in *.
    apply andb_prop in Hwf. destruct Hwf as [Hd Hw].
    apply andb_true_intro. split.
    + clear IH Hw. rewrite map_map. cbn [fst].
      induction ps as [|[k x] ps IHd]; [reflexivity|].
      cbn [map fst] in Hd. apply distinct_cons in Hd. destruct Hd as [Hk Hd].
      cbn [filter snd]. destruct (not_undefined x); [|exact (IHd Hd)].
      cbn [map fst]. apply distinct_cons. split; [|exact (IHd Hd)].
      intros Hin. apply Hk. apply in_map_iff in Hin.
      destruct Hin as (kv & <- & Hin). apply filter_In in Hin.
      apply in_map. apply Hin.
    + clear Hd. induction IH as [|[k x] ps Hx _ IHl]; [reflexivity|].
      cbn [forallb snd] in Hw. apply andb_prop in Hw. destruct Hw as [H1 H2].
      cbn [filter snd]. destruct (not_undefined x); [|exact (IHl H2)].
      cbn [map forallb fst snd]. cbn [snd] in Hx. rewrite (Hx H1), (IHl H2).
      reflexivity.
Qed.

Lemma json_image_id (v : value) : json_clean v = true -> json_image v = v.
Proof.
  induction v as [| |b|n|s|l IH|ps IH] using value_induction; intros Hcl;
    try reflexivity.
  - discriminate Hcl.
  - destruct n; try discriminate Hcl. reflexivity.
  - cbn [json_image json_clean] in *. f_equal.
    induction IH as [|x l Hx _ IHl]; [reflexivity|].
    cbn [forallb] in Hcl. apply andb_prop in Hcl. destruct Hcl as [H1 H2].
    cbn [map]. rewrite (Hx H1), (IHl H2). reflexivity.
  - rewrite image_obj. rewrite clean_obj in Hcl. f_equal.
    induction IH as [|[k x] ps Hx _ IHl]; [reflexivity|].
    cbn [forallb snd] in Hcl. apply andb_prop in Hcl. destruct Hcl as [H1 H2].
    cbn [filter snd]. cbn [snd] in Hx.
    assert (Hd : not_undefined x = true) by (destruct x; [discriminate H1|..]; reflexivity).
    rewrite Hd. cbn [map fst snd]. rewrite (Hx H1), (IHl H2). reflexivity.
Qed.

(** [JSON.parse(JSON.stringify(v))] for any value but [undefined]. *)
Lemma JSON_parse_stringify_image (v : value) (space : nat) :
  wf_value v = true -> not_undefined v = true ->
  exists s, JSON_stringify v space = Some s /\ JSON_parse s = Some (json_image v).
Proof.
  intros Hwf Hd.
  destruct (JSON_parse_stringify (json_image v) space (json_image_wf v Hwf)
              (json_image_clean v)) as (s & Hs & Hp).
  exists s. split; [|exact Hp].
  rewrite <- Hs. destruct v; try discriminate Hd; unfold JSON_stringify;
    try reflexivity.
  - destruct n; reflexivity.
  - rewrite <- (serialize_image _ (VArr elems)). reflexivity.
  - rewrite <- (serialize_image _ (VObj props)).
    destruct (json_image (VObj props)) eqn:E; try reflexivity;
      rewrite image_obj in E; discriminate E.
Qed.

(** ** exportJSON *)

(** C4, as the code has it: for every cache, parsing the text of
    [exportJSON()] gives the cache with every [NaN] or infinite number
    replaced by [null] and every [undefined] property dropped; it gives
    the cache itself when the cache holds no such value. *)
Theorem exportJSON_roundtrip (st : facade) :
  wf_value (cache_value st) = true ->
  JSON_parse (exportJSON st) = Some (json_image (cache_value st))
  /\ (json_clean (cache_value st) = true ->
      JSON_parse (exportJSON st) = Some (cache_value st)).
Proof.
  intros Hwf.
  destruct (JSON_parse_stringify_image (cache_value st) 2 Hwf eq_refl) as (s & Hs & Hp).
  assert (He : exportJSON st = s).
  { unfold JSON_stringify, cache_value in Hs. cbn [Nat.min] in Hs.
    injection Hs as <-. reflexivity. }
  rewrite He. split; [exact Hp|].
  intros Hcl. rewrite Hp, (json_image_id _ Hcl). reflexivity.
Qed.

Lemma exportJSON_roundtrip_witness :
  wf_value (cache_value (facade_with [alice; bob])) = true
  /\ json_clean (cache_value (facade_with [alice; bob])) = true
  /\ JSON_parse (exportJSON (facade_with [alice; bob]))
     = Some (VArr [VObj alice; VObj bob]).
Proof.
  split; [reflexivity|]. split; [reflexivity|].
  exact (proj2 (exportJSON_roundtrip (facade_with [alice; bob]) eq_refl) eq_refl).
Defined.

(** C4 as stated fails: a score that is [NaN] is exported as [null], and
    parsing gives [null], not the cached score. *)
Lemma exportJSON_NaN_lost :
  obj_get dan "pontuacao" = VNum NaN
  /\ JSON_parse (exportJSON (facade_with [dan]))
     = Some (VArr [VObj (assoc_set "pontuacao" VNull dan)])
  /\ JSON_parse (exportJSON (facade_with [dan])) <> Some (cache_value (facade_with [dan])).
Proof.
  split; [reflexivity|]. split; [vm_compute; reflexivity|].
  vm_compute. discriminate.
Qed.

(** A [NaN] score is a state the module itself produces: [restoreData]
    accepts a record whose score is a text that is no number, writes
    [parseFloat] of it, and the snapshot listener puts the document into
    the cache. *)
Lemma NaN_score_reachable :
  let w' := snd (restoreData accepting payload_text_score ready empty_world) in
  fst (fst (restoreData accepting payload_text_score ready empty_world)) = true
  /\ map (fun c => (obj_get c "nome", obj_get c "pontuacao"))
         (allCandidates (fst (on_snapshot ready (documents w' ready_path) w')))
     = [(VStr "Dan", VNum NaN)].
Proof. split; vm_compute; reflexivity. Qed.

(** ** The heap *)

Lemma read_list_ext (rd1 rd2 : ref -> option value) (rs : list ref) (vs : list value) :
  (forall r v, In r rs -> rd1 r = Some v -> rd2 r = Some v) ->
  read_list rd1 rs = Some vs -> read_list rd2 rs = Some vs.
Proof.
  revert vs. induction rs as [|r rs IH]; intros vs H; cbn [read_list]; [auto|].
  destruct (rd1 r) as [v|] eqn:E1; [|discriminate].
  destruct (read_list rd1 rs) as [vs'|] eqn:E2; [|discriminate].
  intros E. rewrite (H r v (or_introl eq_refl) E1).
  rewrite (IH vs'); [exact E| |reflexivity].
  intros r' v' Hin. apply H. right. exact Hin.
Qed.

Lemma read_props_ext (rd1 rd2 : ref -> option value) (ps : list (string * ref))
    (vs : list (string * value)) :
  (forall r v, In r (map snd ps) -> rd1 r = Some v -> rd2 r = Some v) ->
  read_props rd1 ps = Some vs -> read_props rd2 ps = Some vs.
Proof.
  revert vs. induction ps as [|[k r] ps IH]; intros vs H; cbn [read_props]; [auto|].
  cbn [fst snd]. destruct (rd1 r) as [v|] eqn:E1; [|discriminate].
  destruct (read_props rd1 ps) as [vs'|] eqn:E2; [|discriminate].
  intros E. rewrite (H r v (or_introl eq_refl) E1).
  rewrite (IH vs'); [exact E| |reflexivity].
  intros r' v' Hin. apply H. right. exact Hin.
Qed.

(** Reading looks only at the cells that are there: a heap that agrees on
    them gives the same tree. *)
Lemma read_agree (fuel : nat) :
  forall (h h2 : heap) (r : ref) (v : value),
    (forall l, l < length h -> nth_error h2 l = nth_error h l) ->
    read fuel h r = Some v -> read fuel h2 r = Some v.
Proof.
  induction fuel as [|f IH]; intros h h2 r v Hag; destruct r; cbn [read]; auto.
  intros H. destruct (nth_error h l) as [c|] eqn:En; [|discriminate].
  assert (Hl : l < length h) by (apply nth_error_Some; congruence).
  rewrite (Hag l Hl), En. destruct c as [rs|ps].
  - destruct (read_list (read f h) rs) as [vs|] eqn:E; [|discriminate].
    rewrite (read_list_ext (read f h) (read f h2) rs vs); [exact H| |exact E].
    intros r' v' _. apply IH. exact Hag.
  - destruct (read_props (read f h) ps) as [vs|] eqn:E; [|discriminate].
    rewrite (read_props_ext (read f h) (read f h2) ps vs); [exact H| |exact E].
    intros r' v' _. apply IH. exact Hag.
Qed.

Lemma read_extend (fuel : nat) (h ext : heap) (r : ref) (v : value) :
  read fuel h r = Some v -> read fuel (h ++ ext) r = Some v.
Proof.
  apply read_agree. intros l Hl. apply nth_error_app1. exact Hl.
Qed.

Lemma mutate_agree (n : nat) (h : heap) (m : mutation) :
  above n m -> n <= length h ->
  n <= length (mutate h m)
  /\ forall l, l < n -> nth_error (mutate h m) l = nth_error h l.
Proof.
  intros Ha Hn. destruct m as [l c|c]; cbn [mutate above] in *.
  - destruct (Nat.ltb_spec l (length h)) as [Hl|Hl]; [|auto].
    split.
    + rewrite length_app. cbn [length]. rewrite length_firstn, length_skipn. lia.
    + intros l' Hl'. rewrite nth_error_app1 by (rewrite length_firstn; lia).
      rewrite nth_error_firstn.
      destruct (Nat.ltb_spec l' l); [reflexivity|lia].
  - split; [rewrite length_app; lia|].
    intros l Hl. apply nth_error_app1. lia.
Qed.

Lemma mutations_agree (n : nat) (ms : list mutation) :
  forall h, Forall (above n) ms -> n <= length h ->
    forall l, l < n -> nth_error (fold_left mutate ms h) l = nth_error h l.
Proof.
  induction ms as [|m ms IH]; intros h Ha Hn l Hl; [reflexivity|].
  inversion Ha as [|? ? Hm Hms]; subst. cbn [fold_left].
  destruct (mutate_agree n h m Hm Hn) as [Hn' Hag].
  rewrite (IH _ Hms Hn' l Hl). apply Hag. exact Hl.
Qed.

Lemma ref_above_le (n n' : nat) (r : ref) :
  n <= n' -> ref_above n' r -> ref_above n r.
Proof. intros H. destruct r; cbn [ref_above]; auto. lia. Qed.

Lemma cell_above_le (n n' : nat) (c : cell) :
  n <= n' -> cell_above n' c -> cell_above n c.
Proof.
  intros H. destruct c; cbn [cell_above]; apply Forall_impl; intros a;
    apply ref_above_le; exact H.
Qed.

Lemma vsize_le_elements (x : value) (l : list value) :
  In x l -> vsize x <= elements_size l.
Proof.
  induction l as [|y l IH]; intros H; [destruct H|].
  cbn [elements_size fold_right]. fold (elements_size l).
  destruct H as [->|H]; [lia|]. specialize (IH H). lia.
Qed.

Lemma vsize_le_members (k : string) (x : value) (ps : list (string * value)) :
  In (k, x) ps -> vsize x <= members_size ps.
Proof.
  induction ps as [|[k' y] ps IH]; intros H; [destruct H|].
  cbn [members_size fold_right snd]. fold (members_size ps).
  destruct H as [E|H]; [inversion E; lia|]. specialize (IH H). lia.
Qed.

Lemma alloc_list_ok (l : list value) :
  Forall alloc_ok l ->
  forall h : heap,
    (exists ext, snd (alloc_list alloc l h) = h ++ ext
                 /\ Forall (cell_above (length h)) ext)
    /\ Forall (ref_above (length h)) (fst (alloc_list alloc l h))
    /\ (forall fuel, elements_size l <= fuel ->
          read_list (read fuel (snd (alloc_list alloc l h)))
                    (fst (alloc_list alloc l h)) = Some l).
Proof.
  induction 1 as [|x l Hx _ IH]; intros h.
  - cbn [alloc_list fst snd]. split; [exists []; split; [symmetry; apply app_nil_r|constructor]|].
    split; [constructor|reflexivity].
  - cbn [alloc_list]. destruct (Hx h) as ((e1 & He1 & Hc1) & Hr1 & Hd1).
    destruct (alloc x h) as [r h1]. cbn [fst snd] in He1, Hr1, Hd1.
    destruct (IH h1) as ((e2 & He2 & Hc2) & Hr2 & Hd2).
    destruct (alloc_list alloc l h1) as [rs h2]. cbn [fst snd] in *.
    assert (Hlen : length h <= length h1) by (rewrite He1, length_app; lia).
    split; [|split].
    + exists (e1 ++ e2). split; [rewrite He2, He1, app_assoc; reflexivity|].
      apply Forall_app. split; [exact Hc1|].
      eapply Forall_impl; [|exact Hc2]. intros c. apply cell_above_le. exact Hlen.
    + constructor; [exact Hr1|].
      eapply Forall_impl; [|exact Hr2]. intros c. apply ref_above_le. exact Hlen.
    + intros fuel Hf. cbn [elements_size fold_right] in Hf. fold (elements_size l) in Hf.
      cbn [read_list]. rewrite He2, (read_extend fuel h1 e2 r x) by (apply Hd1; lia).
      rewrite <- He2, Hd2 by lia. reflexivity.
Qed.

Lemma alloc_props_ok (ps : list (string * value)) :
  Forall (fun kv => alloc_ok (snd kv)) ps ->
  forall h : heap,
    (exists ext, snd (alloc_props alloc ps h) = h ++ ext
                 /\ Forall (cell_above (length h)) ext)
    /\ Forall (fun kr => ref_above (length h) (snd kr)) (fst (alloc_props alloc ps h))
    /\ (forall fuel, members_size ps <= fuel ->
          read_props (read fuel (snd (alloc_props alloc ps h)))
                     (fst (alloc_props alloc ps h)) = Some ps).
Proof.
  induction 1 as [|[k x] ps Hx _ IH]; intros h.
  - cbn [alloc_props fst snd]. split; [exists []; split; [symmetry; apply app_nil_r|constructor]|].
    split; [constructor|reflexivity].
  - cbn [alloc_props fst snd]. cbn [snd] in Hx.
    destruct (Hx h) as ((e1 & He1 & Hc1) & Hr1 & Hd1).
    destruct (alloc x h) as [r h1]. cbn [fst snd] in He1, Hr1, Hd1.
    destruct (IH h1) as ((e2 & He2 & Hc2) & Hr2 & Hd2).
    destruct (alloc_props alloc ps h1) as [rs h2]. cbn [fst snd] in *.
    assert (Hlen : length h <= length h1) by (rewrite He1, length_app; lia).
    split; [|split].
    + exists (e1 ++ e2). split; [rewrite He2, He1, app_assoc; reflexivity|].
      apply Forall_app. split; [exact Hc1|].
      eapply Forall_impl; [|exact Hc2]. intros c. apply cell_above_le. exact Hlen.
    + constructor; [exact Hr1|].
      eapply Forall_impl; [|exact Hr2]. intros c. apply ref_above_le. exact Hlen.
    + intros fuel Hf. cbn [members_size fold_right snd] in Hf. fold (members_size ps) in Hf.
      cbn [read_props fst snd].
      rewrite He2, (read_extend fuel h1 e2 r x) by (apply Hd1; lia).
      rewrite <- He2, Hd2 by lia. reflexivity.
Qed.

(** Creating a tree adds cells, points to added cells only, and gives a
    reference that denotes the tree. *)
Lemma alloc_spec (v : value) : alloc_ok v.
Proof.
  induction v as [| |b|n|s|l IH|ps IH] using value_induction; intros h;
    try (cbn [alloc fst snd]; split;
         [exists []; split; [symmetry; apply app_nil_r|constructor]|];
         split; [exact I|]; intros [|f] Hf; reflexivity).
  - cbn [alloc]. destruct (alloc_list_ok l IH h) as ((e & He & Hc) & Hr & Hd).
    destruct (alloc_list alloc l h) as [rs h1]. cbn [fst snd] in *.
    assert (Hlen : length h <= length h1) by (rewrite He, length_app; lia).
    split; [|split].
    + exists (e ++ [CArr rs]). split; [rewrite He, app_assoc; reflexivity|].
      apply Forall_app. split; [exact Hc|]. constructor; [exact Hr|constructor].
    + exact Hlen.
    + intros fuel Hf. rewrite vsize_arr in Hf. destruct fuel as [|f]; [lia|].
      cbn [read]. rewrite nth_error_app2, Nat.sub_diag by lia. cbn [nth_error].
      rewrite (read_list_ext (read f h1) (read f (h1 ++ [CArr rs])) rs l);
        [reflexivity| |apply Hd; lia].
      intros r v _. apply read_extend.
  - cbn [alloc]. destruct (alloc_props_ok ps IH h) as ((e & He & Hc) & Hr & Hd).
    destruct (alloc_props alloc ps h) as [rs h1]. cbn [fst snd] in *.
    assert (Hlen : length h <= length h1) by (rewrite He, length_app; lia).
    split; [|split].
    + exists (e ++ [CObj rs]). split; [rewrite He, app_assoc; reflexivity|].
      apply Forall_app. split; [exact Hc|]. constructor; [exact Hr|constructor].
    + exact Hlen.
    + intros fuel Hf. rewrite vsize_obj in Hf. destruct fuel as [|f]; [lia|].
      cbn [read]. rewrite nth_error_app2, Nat.sub_diag by lia. cbn [nth_error].
      rewrite (read_props_ext (read f h1) (read f (h1 ++ [CObj rs])) rs ps);
        [reflexivity| |apply Hd; lia].
      intros r v _. apply read_extend.
Qed.

(** What a fresh reference reaches is fresh. *)
Lemma reachable_above (n : nat) (h ext : heap) (r : ref) (l : loc) :
  n = length h ->
  Forall (cell_above n) ext ->
  reachable (h ++ ext) r l -> ref_above n r -> n <= l.
Proof.
  intros Hn Hc Hreach. induction Hreach as [l|l rs r l' Hnth Hin _ IH|l ps k r l' Hnth Hin _ IH];
    intros Hr; cbn [ref_above] in Hr.
  - exact Hr.
  - apply IH. rewrite nth_error_app2 in Hnth by lia.
    apply nth_error_In in Hnth. rewrite Forall_forall in Hc.
    specialize (Hc _ Hnth). cbn [cell_above] in Hc. rewrite Forall_forall in Hc.
    apply Hc. exact Hin.
  - apply IH. rewrite nth_error_app2 in Hnth by lia.
    apply nth_error_In in Hnth. rewrite Forall_forall in Hc.
    specialize (Hc _ Hnth). cbn [cell_above] in Hc. rewrite Forall_forall in Hc.
    apply (Hc (k, r)). exact Hin.
Qed.

(** ** getAllData *)

Lemma getAllData_value (st : facade) :
  wf_value (cache_value st) = true ->
  getAllData st = Some (json_image (cache_value st)).
Proof.
  intros Hwf. unfold getAllData.
  destruct (JSON_parse_stringify_image (cache_value st) 0 Hwf eq_refl) as (s & -> & Hp).
  exact Hp.
Qed.

Lemma getAllData_in_spec (fuel : nat) (h : heap) (cache : ref) (v : value) :
  read fuel h cache = Some v ->
  wf_value v = true -> not_undefined v = true ->
  exists copy ext,
    getAllData_in fuel h cache = Some (copy, h ++ ext)
    /\ Forall (cell_above (length h)) ext
    /\ ref_above (length h) copy
    /\ read (vsize (json_image v)) (h ++ ext) copy = Some (json_image v).
Proof.
  intros Hr Hwf Hd. unfold getAllData_in. rewrite Hr.
  destruct (JSON_parse_stringify_image v 0 Hwf Hd) as (s & -> & ->).
  destruct (alloc_spec (json_image v) h) as ((ext & He & Hc) & Ha & Hrd).
  exists (fst (alloc (json_image v) h)), ext.
  split; [rewrite <- He; destruct (alloc (json_image v) h); reflexivity|].
  split; [exact Hc|]. split; [exact Ha|].
  rewrite <- He. apply Hrd. apply le_n.
Qed.

(** X23: [getAllData()] returns the cache with every
    [NaN] or infinite number replaced by [null] and every [undefined]
    property dropped (the cache itself, structurally, when it holds no
    such value), built of objects that are all new; whatever is then done
    to those objects, or to objects created later, the cache denotes the
    same tree and a later [getAllData()] returns the same tree again. *)
Theorem getAllData_independent
    (st : facade) (fuel : nat) (h : heap) (cache : ref) :
  read fuel h cache = Some (cache_value st) ->
  wf_value (cache_value st) = true ->
  getAllData st = Some (json_image (cache_value st))
  /\ (json_clean (cache_value st) = true -> getAllData st = Some (cache_value st))
  /\ exists copy h',
       getAllData_in fuel h cache = Some (copy, h')
       /\ (exists fuel', read fuel' h' copy = Some (json_image (cache_value st)))
       /\ (forall l, reachable h' copy l -> length h <= l)
       /\ (forall ms, Forall (above (length h)) ms ->
             read fuel (fold_left mutate ms h') cache = Some (cache_value st)
             /\ exists copy2 h2,
                  getAllData_in fuel (fold_left mutate ms h') cache = Some (copy2, h2)
                  /\ exists fuel', read fuel' h2 copy2 = Some (json_image (cache_value st))).
Proof.
  intros Hr Hwf. split; [exact (getAllData_value st Hwf)|].
  split; [intros Hcl; rewrite (getAllData_value st Hwf), (json_image_id _ Hcl); reflexivity|].
  destruct (getAllData_in_spec fuel h cache _ Hr Hwf eq_refl)
    as (copy & ext & Hg & Hc & Ha & Hrd).
  exists copy, (h ++ ext). split; [exact Hg|]. split; [eexists; exact Hrd|].
  split; [intros l Hl; exact (reachable_above (length h) h ext copy l eq_refl Hc Hl Ha)|].
  intros ms Hms.
  assert (Hag : forall l, l < length h ->
                  nth_error (fold_left mutate ms (h ++ ext)) l = nth_error h l).
  { intros l Hl.
    rewrite (mutations_agree (length h) ms (h ++ ext) Hms) by (rewrite ?length_app; lia).
    apply nth_error_app1. exact Hl. }
  pose proof (read_agree fuel h _ cache _ Hag Hr) as Hr2.
  split; [exact Hr2|].
  destruct (getAllData_in_spec fuel _ cache _ Hr2 Hwf eq_refl)
    as (copy2 & ext2 & Hg2 & _ & _ & Hrd2).
  exists copy2. eexists. split; [exact Hg2|]. eexists. exact Hrd2.
Qed.

(** The copy of the sample cache is unaffected when a caller replaces the
    first copied record by an empty object. *)
Lemma getAllData_independent_witness :
  read 3 sample_heap sample_cache = Some (cache_value (facade_with [alice; bob]))
  /\ wf_value (cache_value (facade_with [alice; bob])) = true
  /\ getAllData (facade_with [alice; bob]) = Some (VArr [VObj alice; VObj bob])
  /\ exists copy h',
       getAllData_in 3 sample_heap sample_cache = Some (copy, h')
       /\ read 3 (fold_left mutate [Write (length sample_heap) (CObj [])] h') sample_cache
          = Some (cache_value (facade_with [alice; bob])).
Proof.
  split; [vm_compute; reflexivity|]. split; [reflexivity|].
  destruct (getAllData_independent (facade_with [alice; bob]) 3 sample_heap sample_cache)
    as (_ & Hcl & copy & h' & Hg & _ & _ & Hm); [vm_compute; reflexivity|reflexivity|].
  split; [exact (Hcl eq_refl)|].
  exists copy, h'. split; [exact Hg|].
  apply (Hm [Write (length sample_heap) (CObj [])]).
  constructor; [apply le_n|constructor].
Defined.

(** C5: for a cache with a [NaN] score the copy [getAllData()] returns
    is not structurally equal to the cache: the score of the copy is
    [null]. *)
Lemma getAllData_NaN_lost :
  getAllData (facade_with [dan]) = Some (VArr [VObj (assoc_set "pontuacao" VNull dan)])
  /\ getAllData (facade_with [dan]) <> Some (cache_value (facade_with [dan])).
Proof. split; [vm_compute; reflexivity|]. vm_compute. discriminate. Qed.


(** ** Properties of objects *)

Lemma assoc_get_set_other {A : Type} (k k' : string) (v : A) (o : list (string * A)) :
  k <> k' -> assoc_get (assoc_set k v o) k' = assoc_get o k'.
Proof.
  intros Hne. induction o as [|[k0 v0] o IH]; cbn [assoc_set assoc_get].
  - destruct (String.eqb_spec k k'); [contradiction|reflexivity].
  - destruct (String.eqb_spec k0 k) as [->|H0]; cbn [assoc_get].
    + destruct (String.eqb_spec k k'); [contradiction|reflexivity].
    + destruct (String.eqb_spec k0 k'); [reflexivity|exact IH].
Qed.

Lemma obj_get_set (k : string) (v : value) (o : obj) : obj_get (assoc_set k v o) k = v.
Proof. unfold obj_get. rewrite assoc_get_set. reflexivity. Qed.

Lemma obj_get_set_other (k k' : string) (v : value) (o : obj) :
  k <> k' -> obj_get (assoc_set k v o) k' = obj_get o k'.
Proof. intros H. unfold obj_get. rewrite assoc_get_set_other by exact H. reflexivity. Qed.

Lemma assign_distinct (ps : obj) :
  distinct (map fst ps) = true ->
  fold_left (fun o kv => assoc_set (fst kv) (snd kv) o) ps [] = ps.
Proof.
  intros H. pose proof (object_of_distinct ps H) as E.
  unfold object_of in E. injection E as E. exact E.
Qed.

Lemma documents_set_other (p q : string) (ds : list doc) (w : world) :
  p <> q -> documents (set_documents p ds w) q = documents w q.
Proof.
  intros H. unfold documents. cbn [remote set_documents].
  rewrite assoc_get_set_other by exact H. reflexivity.
Qed.

Lemma documents_issue (o : op) (w : world) (p : string) :
  documents (issue o w) p = documents w p.
Proof. reflexivity. Qed.

Lemma documents_log (msg : string) (w : world) (p : string) :
  documents (log msg w) p = documents w p.
Proof. reflexivity. Qed.

(** ** addCandidate on a ready facade *)

(** X1: on a ready facade [addCandidate] reads the clock once and issues
    exactly one remote call, an [addDoc] on the collection of the current
    identity.  It returns [true] exactly when the store fulfils the call;
    then the collection has gained one document, the record written, under
    a new id; when the call is rejected it returns [false] and no document
    has changed.  No other collection changes, and the facade, with its
    cache, is as it was either way. *)
Theorem addCandidate_writes (E : env) (region candidate : value) (st : facade) (w : world) :
  isAuthReady st = true ->
  exists data w',
    addCandidate E region candidate st w
    = (negb (rejects E (AddDoc (collection_path st) data)), st, w')
    /\ issued w' = issued w ++ [AddDoc (collection_path st) data]
    /\ ticks w' = S (ticks w)
    /\ (rejects E (AddDoc (collection_path st) data) = false ->
        documents w' (collection_path st)
        = documents w (collection_path st) ++ [(new_id E (length (issued w)), data)])
    /\ (rejects E (AddDoc (collection_path st) data) = true -> remote w' = remote w)
    /\ (forall q, q <> collection_path st -> documents w' q = documents w q).
Proof.
  intros Hr. unfold addCandidate. rewrite Hr. cbn [negb now].
  match goal with
  | |- context [addDoc E ?p ?d ?w0] => exists d
  end.
  unfold addDoc.
  destruct (rejects E (AddDoc (collection_path st) _)) eqn:Er;
    eexists; (split; [reflexivity|]); cbn [issued log issue set_documents ticks];
    (split; [reflexivity|]); (split; [reflexivity|]).
  - split; [intros Hx; discriminate Hx|]. split; reflexivity.
  - split; [|split; [intros Hx; discriminate Hx|]].
    + intros _. rewrite documents_log, documents_issue, documents_set. reflexivity.
    + intros q Hq. rewrite documents_log, documents_issue, documents_set_other by congruence.
      reflexivity.
Qed.

Lemma addCandidate_writes_witness :
  isAuthReady ready = true
  /\ exists data w',
       addCandidate accepting (VStr "north") (VObj (tl alice)) ready empty_world
       = (negb (rejects accepting (AddDoc (collection_path ready) data)), ready, w')
       /\ issued w' = issued empty_world ++ [AddDoc (collection_path ready) data]
       /\ ticks w' = S (ticks empty_world)
       /\ (rejects accepting (AddDoc (collection_path ready) data) = false ->
           documents w' (collection_path ready)
           = documents empty_world (collection_path ready)
             ++ [(new_id accepting (length (issued empty_world)), data)])
       /\ (rejects accepting (AddDoc (collection_path ready) data) = true ->
           remote w' = remote empty_world)
       /\ (forall q, q <> collection_path ready ->
             documents w' q = documents empty_world q).
Proof.
  split; [reflexivity|].
  exact (addCandidate_writes accepting (VStr "north") (VObj (tl alice)) ready empty_world
           eq_refl).
Defined.

(** X2: the record [addCandidate] writes is the candidate's own properties
    with [region] set to the argument and [timestamp] to the reading of
    the clock, whatever the candidate had under these two names; every
    other property is the candidate's.  Nothing is validated: a candidate
    that is no object ([null], [undefined], a number, a boolean) is written
    as a record of region and timestamp alone. *)
Theorem addCandidate_record (E : env) (region candidate : value) (st : facade) (w : world) :
  isAuthReady st = true ->
  exists data,
    adds_of (issued (snd (addCandidate E region candidate st w)))
    = adds_of (issued w) ++ [data]
    /\ obj_get data "region" = region
    /\ obj_get data "timestamp" = VStr (clock E (ticks w))
    /\ (forall c k, candidate = VObj c -> distinct (map fst c) = true ->
          k <> "region" -> k <> "timestamp" -> obj_get data k = obj_get c k)
    /\ (match candidate with
        | VUndefined | VNull | VBool _ | VNum _ => True
        | _ => False
        end ->
        data = [("region", region); ("timestamp", VStr (clock E (ticks w)))]).
Proof.
  intros Hr. unfold addCandidate. rewrite Hr. cbn [negb now].
  match goal with
  | |- context [addDoc E ?p ?d ?w0] =>
      exists d; pose proof (addDoc_issued E p d w0) as Hi;
      destruct (addDoc E p d w0) as [ok w2]
  end.
  cbn [snd issued] in Hi.
  assert (Hadds : forall msg, adds_of (issued (log msg w2))
                   = adds_of (issued w) ++ [assoc_set "timestamp" (VStr (clock E (ticks w)))
                       (assoc_set "region" region
                          (fold_left (fun o kv => assoc_set (fst kv) (snd kv) o)
                                     (spread candidate) []))]).
  { intros msg. cbn [issued log]. rewrite Hi, adds_of_app. reflexivity. }
  split; [destruct ok; apply Hadds|].
  split; [rewrite obj_get_set_other by discriminate; apply obj_get_set|].
  split; [apply obj_get_set|].
  split.
  - intros c k -> Hd Hk1 Hk2.
    rewrite !obj_get_set_other by congruence.
    cbn [spread]. rewrite assign_distinct by exact Hd. reflexivity.
  - destruct candidate; intros Hc; try contradiction; reflexivity.
Qed.

Lemma addCandidate_record_witness :
  isAuthReady ready = true
  /\ adds_of (issued (snd (addCandidate accepting (VStr "south")
                             (VObj (tl alice)) ready empty_world)))
     = [[("nome", VStr "Alice"); ("pontuacao", VNum (Fin 9 1)); ("region", VStr "south");
         ("tipo", VStr "ampla"); ("timestamp", VStr "2024-05-02T08:30:00.000Z")]]
  /\ exists data,
       adds_of (issued (snd (addCandidate accepting (VStr "south") VNull ready empty_world)))
       = adds_of (issued empty_world) ++ [data]
       /\ data = [("region", VStr "south"); ("timestamp", VStr "2024-05-02T08:30:00.000Z")].
Proof.
  split; [reflexivity|]. split; [reflexivity|].
  destruct (addCandidate_record accepting (VStr "south") VNull ready empty_world eq_refl)
    as (data & Ha & _ & _ & _ & Hn).
  exists data. split; [exact Ha|]. exact (Hn I).
Defined.

(** ** clearAll on a ready facade *)

(** The deletions of [clearAll] under any store: the outcome, and the
    documents that are left. *)
Lemma delete_each_fold (E : env) (path : string) (ds : list doc) :
  forall (acc : bool * world),
    fst (fold_left (delete_each E path) ds acc)
    = (fst acc && forallb (fun d => negb (rejects E (DeleteDoc path (fst d)))) ds)%bool
    /\ documents (snd (fold_left (delete_each E path) ds acc)) path
       = filter (fun d => forallb (fun d' => rejects E (DeleteDoc path (fst d'))
                                             || negb (String.eqb (fst d) (fst d')))%bool ds)
                (documents (snd acc) path)
    /\ (forall q, q <> path ->
          documents (snd (fold_left (delete_each E path) ds acc)) q
          = documents (snd acc) q).
Proof.
  induction ds as [|d ds IH]; intros acc; cbn [fold_left forallb].
  - rewrite andb_true_r. split; [reflexivity|]. split; [|reflexivity].
    symmetry. apply filter_all. reflexivity.
  - destruct (IH (delete_each E path acc d)) as (Hf & Hd & Hq).
    rewrite Hf, Hd. clear Hf Hd.
    unfold delete_each at 1 2, deleteDoc.
    destruct (rejects E (DeleteDoc path (fst d))) eqn:Er; cbn [fst snd negb orb andb].
    + rewrite andb_false_r. split; [reflexivity|]. split; [reflexivity|].
      intros q Hne. rewrite (Hq q Hne). unfold delete_each, deleteDoc. rewrite Er.
      reflexivity.
    + rewrite andb_true_r. split; [reflexivity|]. split.
      * rewrite documents_issue, documents_set, filter_filter. reflexivity.
      * intros q Hne. rewrite (Hq q Hne). unfold delete_each, deleteDoc. rewrite Er.
        cbn [snd]. rewrite documents_issue. apply documents_set_other. congruence.
Qed.

(** The documents deleting each of [ds] leaves of [ds]: those whose
    deletion was rejected. *)
Lemma deleted_rest (E : env) (path : string) (ds : list doc) :
  filter (fun d => forallb (fun d' => rejects E (DeleteDoc path (fst d'))
                                      || negb (String.eqb (fst d) (fst d')))%bool ds) ds
  = filter (fun d => rejects E (DeleteDoc path (fst d))) ds.
Proof.
  apply filter_ext_in. intros d Hd.
  destruct (rejects E (DeleteDoc path (fst d))) eqn:Er.
  - apply forallb_forall. intros d' _.
    destruct (rejects E (DeleteDoc path (fst d'))) eqn:Er'; [reflexivity|].
    destruct (String.eqb_spec (fst d) (fst d')) as [Heq|Hne]; [|reflexivity].
    rewrite Heq in Er. congruence.
  - apply not_true_is_false. intros Hall.
    rewrite forallb_forall in Hall. specialize (Hall d Hd).
    rewrite Er, String.eqb_refl in Hall. discriminate.
Qed.

(** [clearAll] on a ready facade, under any store. *)
Lemma clearAll_ready (E : env) (st : facade) (w : world) :
  isAuthReady st = true ->
  exists w',
    clearAll E st w
    = (negb (rejects E (GetDocs (collection_path st)))
       && forallb (fun d => negb (rejects E (DeleteDoc (collection_path st) (fst d))))
                  (documents w (collection_path st)), st, w')%bool
    /\ issued w'
       = issued w ++ GetDocs (collection_path st)
           :: (if rejects E (GetDocs (collection_path st)) then []
               else map (fun d => DeleteDoc (collection_path st) (fst d))
                        (documents w (collection_path st)))
    /\ documents w' (collection_path st)
       = (if rejects E (GetDocs (collection_path st)) then documents w (collection_path st)
          else filter (fun d => rejects E (DeleteDoc (collection_path st) (fst d)))
                      (documents w (collection_path st)))
    /\ (forall q, q <> collection_path st -> documents w' q = documents w q)
    /\ ticks w' = ticks w /\ events w' = events w.
Proof.
  intros Hr. unfold clearAll. rewrite Hr. cbn [negb].
  unfold getDocs. destruct (rejects E (GetDocs (collection_path st))) eqn:Eg.
  - eexists. split; [reflexivity|]. cbn [issued log issue].
    repeat split; reflexivity.
  - set (path := collection_path st).
    pose proof (clearAll_deletions E path (documents w path)
                  (true, issue (GetDocs path) w)) as (Hi & Ht & He & _).
    pose proof (delete_each_fold E path (documents w path)
                  (true, issue (GetDocs path) w)) as (Hf & Hd & Hq).
    destruct (fold_left (delete_each E path) (documents w path)
                (true, issue (GetDocs path) w)) as [deleted w2].
    cbn [fst snd andb negb] in *.
    rewrite documents_issue, deleted_rest in Hd.
    assert (Hres : forall msg,
      issued (log msg w2)
      = issued w ++ GetDocs path :: map (fun d => DeleteDoc path (fst d)) (documents w path)
      /\ documents (log msg w2) path
         = filter (fun d => rejects E (DeleteDoc path (fst d))) (documents w path)
      /\ (forall q, q <> path -> documents (log msg w2) q = documents w q)
      /\ ticks (log msg w2) = ticks w /\ events (log msg w2) = events w).
    { intros msg. cbn [issued log ticks events]. rewrite Hi. cbn [issued issue].
      rewrite <- app_assoc.
      split; [reflexivity|]. split; [exact Hd|]. split; [exact Hq|].
      split; [exact Ht|exact He]. }
    rewrite <- Hf. destruct deleted; eexists; (split; [reflexivity|apply Hres]).
Qed.

(** X3: on a ready facade [clearAll] issues the query of the collection
    and, when the query is fulfilled, one deletion per document, each
    whatever the outcome of the others.  It returns [true] exactly when
    the query and every deletion were fulfilled.  The documents left in
    the collection are those whose deletion was rejected (all of them
    when the query was); no other collection changes. *)
Theorem clearAll_outcome (E : env) (st : facade) (w : world) :
  isAuthReady st = true ->
  exists w',
    clearAll E st w
    = (negb (rejects E (GetDocs (collection_path st)))
       && forallb (fun d => negb (rejects E (DeleteDoc (collection_path st) (fst d))))
                  (documents w (collection_path st)), st, w')%bool
    /\ issued w'
       = issued w ++ GetDocs (collection_path st)
           :: (if rejects E (GetDocs (collection_path st)) then []
               else map (fun d => DeleteDoc (collection_path st) (fst d))
                        (documents w (collection_path st)))
    /\ documents w' (collection_path st)
       = (if rejects E (GetDocs (collection_path st)) then documents w (collection_path st)
          else filter (fun d => rejects E (DeleteDoc (collection_path st) (fst d)))
                      (documents w (collection_path st)))
    /\ (forall q, q <> collection_path st -> documents w' q = documents w q).
Proof.
  intros Hr. destruct (clearAll_ready E st w Hr) as (w' & Hc & Hi & Hd & Hq & _).
  exists w'. auto.
Qed.

Lemma clearAll_outcome_witness :
  isAuthReady ready = true
  /\ exists w',
       clearAll keeps_d2 ready three_doc_world = (false, ready, w')
       /\ issued w' = [GetDocs ready_path; DeleteDoc ready_path "d1";
                       DeleteDoc ready_path "d2"; DeleteDoc ready_path "d3"]
       /\ documents w' ready_path = [("d2", tl bob)]
       /\ documents w' "artifacts/default-app-id/users/uid-2/candidates" = [("e1", tl eve)].
Proof.
  split; [reflexivity|].
  destruct (clearAll_outcome keeps_d2 ready three_doc_world eq_refl)
    as (w' & Hc & Hi & Hd & Hq).
  exists w'. split; [exact Hc|]. split; [exact Hi|]. split; [exact Hd|].
  rewrite (Hq "artifacts/default-app-id/users/uid-2/candidates"); [reflexivity|].
  intros H. vm_compute in H. discriminate H.
Defined.

(** ** restoreData on an array *)

Lemma addDoc_outcome (E : env) (path : string) (data : obj) (w : world) :
  fst (addDoc E path data w) = fulfilled E path data
  /\ issued (snd (addDoc E path data w)) = issued w ++ [AddDoc path data]
  /\ ticks (snd (addDoc E path data w)) = ticks w
  /\ map snd (documents (snd (addDoc E path data w)) path)
     = map snd (documents w path) ++ (if fulfilled E path data then [data] else [])
  /\ (forall q, q <> path -> documents (snd (addDoc E path data w)) q = documents w q).
Proof.
  unfold addDoc, fulfilled. destruct (rejects E (AddDoc path data)); cbn [fst snd negb].
  - repeat split; try reflexivity. rewrite documents_issue. symmetry. apply app_nil_r.
  - split; [reflexivity|]. split; [reflexivity|]. split; [reflexivity|]. split.
    + rewrite documents_issue, documents_set, map_app. reflexivity.
    + intros q Hq. rewrite documents_issue. apply documents_set_other. congruence.
Qed.

(** What the loop of [restoreData] does: it issues one [addDoc] for each
    accepted record it reaches; the documents it adds are those whose call
    was fulfilled. *)
Lemma restore_loop_outcome (E : env) (path : string) (records : list value) :
  forall (added : bool) (w : world),
    fst (restore_loop E path records added w)
    = (if all_reached records
       then Some (added && forallb (fulfilled E path) (restored_list E (ticks w) records))%bool
       else None)
    /\ issued (snd (restore_loop E path records added w))
       = issued w ++ map (AddDoc path) (restored_list E (ticks w) (reached records))
    /\ map snd (documents (snd (restore_loop E path records added w)) path)
       = map snd (documents w path)
         ++ filter (fulfilled E path) (restored_list E (ticks w) (reached records))
    /\ (forall q, q <> path ->
          documents (snd (restore_loop E path records added w)) q = documents w q).
Proof.
  induction records as [|c rest IH]; intros added w.
  - cbn [restore_loop all_reached forallb reached restored_list map filter fst snd].
    rewrite andb_true_r, !app_nil_r. repeat split; reflexivity.
  - rewrite restore_loop_step. unfold all_reached. cbn [forallb reached].
    destruct (throws c);
      [cbn [negb andb restored_list map filter fst snd];
       rewrite !app_nil_r; repeat split; reflexivity|].
    cbn [negb andb]. fold (all_reached rest). cbn [restored_list].
    destruct (accepted c).
    + unfold restored_from.
      set (tick' := if ToBoolean (prop c "timestamp") then ticks w else S (ticks w)).
      set (ts := if ToBoolean (prop c "timestamp") then prop c "timestamp"
                 else VStr (clock E (ticks w))).
      set (data := restored_record (prop c "nome") (prop c "pontuacao") (prop c "tipo")
                     (prop c "region") ts).
      assert (Hw1 : exists w1,
        (if ToBoolean (prop c "timestamp") then (prop c "timestamp", w)
         else let (t, w') := now E w in (VStr t, w')) = (ts, w1)
        /\ issued w1 = issued w /\ ticks w1 = tick'
        /\ forall q, documents w1 q = documents w q).
      { unfold ts, tick'. destruct (ToBoolean (prop c "timestamp")); cbn [now];
          eexists; (split; [reflexivity|]); repeat split; reflexivity. }
      destruct Hw1 as (w1 & -> & Hi1 & Ht1 & Hd1). fold data.
      destruct (addDoc_outcome E path data w1) as (Hok & Hi2 & Ht2 & Hd2 & Hq2).
      destruct (addDoc E path data w1) as [ok w2]. cbn [fst snd] in *.
      cbv beta iota zeta. subst ok.
      destruct (IH (added && fulfilled E path data)%bool w2) as (Hf & Hi & Hd & Hq).
      rewrite Hf, Hi, Hd, Ht2, Ht1, Hi2, Hi1, Hd2, Hd1.
      cbn [forallb map filter]. split.
      { destruct (all_reached rest); [|reflexivity]. rewrite andb_assoc. reflexivity. }
      split; [rewrite <- app_assoc; reflexivity|]. split.
      { rewrite <- app_assoc. destruct (fulfilled E path data); reflexivity. }
      intros q Hne. rewrite (Hq q Hne), (Hq2 q Hne). apply Hd1.
    + destruct (IH added
                  (log "Candidato inválido no arquivo de restauração, pulando:" w))
        as (Hf & Hi & Hd & Hq).
      rewrite Hf, Hi, Hd. repeat split; try reflexivity. exact Hq.
Qed.

Lemma reached_all (records : list value) :
  all_reached records = true -> reached records = records.
Proof.
  induction records as [|c rest IH]; [reflexivity|].
  unfold all_reached in *. cbn [forallb reached]. intros H.
  apply andb_prop in H. destruct H as [Hc Hrest].
  destruct (throws c); [discriminate Hc|]. rewrite (IH Hrest). reflexivity.
Qed.

(** [restoreData] on a ready facade and an array payload. *)
Lemma restoreData_ready (E : env) (jsonData : string) (st : facade) (w : world)
    (records : list value) :
  isAuthReady st = true ->
  JSON_parse jsonData = Some (VArr records) ->
  exists w',
    restoreData E jsonData st w
    = (all_reached records
       && forallb (fulfilled E (collection_path st)) (restored_list E (ticks w) records),
       st, w')%bool
    /\ issued w'
       = issued (snd (clearAll E st w))
         ++ map (AddDoc (collection_path st)) (restored_list E (ticks w) (reached records))
    /\ map snd (documents w' (collection_path st))
       = map snd (documents (snd (clearAll E st w)) (collection_path st))
         ++ filter (fulfilled E (collection_path st))
                   (restored_list E (ticks w) (reached records))
    /\ (forall q, q <> collection_path st -> documents w' q = documents w q).
Proof.
  intros Hr Hp. unfold restoreData. rewrite Hr, Hp. cbn [negb ToBoolean isArray orb].
  destruct (clearAll_ready E st w Hr) as (w1 & Hc & _ & _ & Hq1 & Ht1 & _).
  rewrite Hc. cbn [snd].
  destruct (restore_loop_outcome E (collection_path st) records true w1)
    as (Hf & Hi & Hd & Hq).
  rewrite Ht1 in Hf, Hi, Hd.
  destruct (restore_loop E (collection_path st) records true w1) as [res w2].
  cbn [fst snd] in *. subst res.
  assert (Hres : forall msg,
    issued (log msg w2)
    = issued w1 ++ map (AddDoc (collection_path st))
                       (restored_list E (ticks w) (reached records))
    /\ map snd (documents (log msg w2) (collection_path st))
       = map snd (documents w1 (collection_path st))
         ++ filter (fulfilled E (collection_path st))
                   (restored_list E (ticks w) (reached records))
    /\ (forall q, q <> collection_path st -> documents (log msg w2) q = documents w q)).
  { intros msg. split; [exact Hi|]. split; [exact Hd|].
    intros q Hne. rewrite documents_log, (Hq q Hne). apply Hq1. exact Hne. }
  destruct (all_reached records); cbn [andb];
    [destruct (forallb (fulfilled E (collection_path st))
                (restored_list E (ticks w) records))|]; eexists; (split; [reflexivity|apply Hres]).
Qed.

(** X4: on a ready facade and an array payload whose numbers are in the
    range where decimals are exact, under a store whose answer to a call
    depends on the call alone: [restoreData] first runs [clearAll] and
    goes on whatever that returned; it then issues one [addDoc] for each
    accepted record before the first element at which the loop throws, a
    [null] or an accepted record whose score cannot be converted to a
    string, each whatever the outcome of the others.  It returns [true]
    exactly when the loop throws at no element and every [addDoc] was
    fulfilled.  The collection then holds what [clearAll] left of it
    followed by the records whose [addDoc] was fulfilled; no other
    collection changes. *)
Theorem restoreData_outcome
    (E : env) (jsonData : string) (st : facade) (w : world) (records : list value) :
  isAuthReady st = true ->
  JSON_parse jsonData = Some (VArr records) ->
  exact_payload records = true ->
  exists w',
    restoreData E jsonData st w
    = (all_reached records
       && forallb (fulfilled E (collection_path st)) (restored_list E (ticks w) records),
       st, w')%bool
    /\ issued w'
       = issued w
         ++ GetDocs (collection_path st)
            :: (if rejects E (GetDocs (collection_path st)) then []
                else map (fun d => DeleteDoc (collection_path st) (fst d))
                         (documents w (collection_path st)))
         ++ map (AddDoc (collection_path st)) (restored_list E (ticks w) (reached records))
    /\ map snd (documents w' (collection_path st))
       = map snd (if rejects E (GetDocs (collection_path st))
                  then documents w (collection_path st)
                  else filter (fun d => rejects E (DeleteDoc (collection_path st) (fst d)))
                              (documents w (collection_path st)))
         ++ filter (fulfilled E (collection_path st))
                   (restored_list E (ticks w) (reached records))
    /\ (forall q, q <> collection_path st -> documents w' q = documents w q).
Proof.
  intros Hr Hp _.
  destruct (restoreData_ready E jsonData st w records Hr Hp) as (w' & Hres & Hi & Hd & Hq).
  destruct (clearAll_ready E st w Hr) as (w1 & Hc & Hi1 & Hd1 & _).
  rewrite Hc in Hi, Hd. cbn [snd] in Hi, Hd. rewrite Hi1 in Hi. rewrite Hd1 in Hd.
  exists w'. split; [exact Hres|]. split; [|split; [exact Hd|exact Hq]].
  rewrite Hi, <- app_assoc. reflexivity.
Qed.

(** A store that keeps the document d2: the record of the payload is
    written after it.  A payload whose first accepted record has a score
    that cannot be converted: nothing is written and the result is
    [false]. *)
Lemma restoreData_outcome_witness :
  isAuthReady ready = true
  /\ JSON_parse payload_invalid_valid
     = Some (VArr [VObj [("nome", VStr "Ana"); ("tipo", VStr "pcd"); ("region", VStr "north")];
                   VObj [("nome", VStr "Bia"); ("pontuacao", VStr "90");
                         ("tipo", VStr "ampla"); ("region", VStr "north")]])
  /\ (exists w',
       restoreData keeps_d2 payload_invalid_valid ready three_doc_world = (true, ready, w')
       /\ map snd (documents w' ready_path)
          = [tl bob;
             [("nome", VStr "Bia"); ("pontuacao", VNum (Fin 9 1)); ("tipo", VStr "ampla");
              ("region", VStr "north"); ("timestamp", VStr "2024-05-02T08:30:00.000Z")]])
  /\ (exists w',
       restoreData accepting payload_score_object ready three_doc_world = (false, ready, w')
       /\ map snd (documents w' ready_path) = []).
Proof.
  split; [reflexivity|]. split; [vm_compute; reflexivity|]. split.
  - destruct (restoreData_outcome keeps_d2 payload_invalid_valid ready three_doc_world _
                eq_refl eq_refl eq_refl) as (w' & Hres & _ & Hd & _).
    exists w'. split; [exact Hres|exact Hd].
  - assert (Hp : JSON_parse payload_score_object
       = Some (VArr [VObj [("nome", VStr "Ana"); ("tipo", VStr "pcd"); ("region", VStr "north")];
                     VObj [("nome", VStr "Bia");
                           ("pontuacao", VObj [("toString", VNum (Fin 1 0))]);
                           ("tipo", VStr "ampla"); ("region", VStr "north");
                           ("timestamp", VStr "2024-01-01T00:00:00.000Z")]]))
      by (vm_compute; reflexivity).
    destruct (restoreData_outcome accepting payload_score_object ready three_doc_world _
                eq_refl Hp eq_refl) as (w' & Hres & _ & Hd & _).
    exists w'. split; [exact Hres|exact Hd].
Defined.

Lemma forallb_true {A : Type} (f : A -> bool) (l : list A) :
  (forall x, f x = true) -> forallb f l = true.
Proof. intros H. apply forallb_forall. intros x _. apply H. Qed.

(** X5: on a ready facade, with a store that rejects no call and an array
    payload, with numbers in the range where decimals are exact, at no
    element of which the loop throws, [restoreData] returns [true] and
    the collection then holds exactly the records written for the
    accepted elements of the payload, in payload order: whatever it held
    before is gone. *)
Theorem restoreData_replaces
    (E : env) (jsonData : string) (st : facade) (w : world) (records : list value) :
  isAuthReady st = true ->
  JSON_parse jsonData = Some (VArr records) ->
  all_reached records = true ->
  exact_payload records = true ->
  (forall o, rejects E o = false) ->
  exists w',
    restoreData E jsonData st w = (true, st, w')
    /\ map snd (documents w' (collection_path st)) = restored_list E (ticks w) records
    /\ length (documents w' (collection_path st)) = length (filter accepted records).
Proof.
  intros Hr Hp Hall _ Hno.
  destruct (restoreData_ready E jsonData st w records Hr Hp) as (w' & Hres & _ & Hd & _).
  destruct (clearAll_accepted E st w Hr Hno) as (w1 & Hc & _ & Hd1 & _).
  rewrite Hc in Hd. cbn [snd] in Hd. rewrite Hd1 in Hd. cbn [map app] in Hd.
  assert (Hful : forall l, forallb (fulfilled E (collection_path st)) l = true).
  { intros l. apply forallb_true. intros x. unfold fulfilled. rewrite Hno. reflexivity. }
  assert (Hfil : forall l, filter (fulfilled E (collection_path st)) l = l).
  { intros l. apply filter_all. intros x. unfold fulfilled. rewrite Hno. reflexivity. }
  rewrite Hall, Hful in Hres. rewrite (reached_all records Hall), Hfil in Hd.
  exists w'. split; [exact Hres|]. split; [exact Hd|].
  transitivity (length (map snd (documents w' (collection_path st))));
    [symmetry; apply length_map|]. rewrite Hd. clear.
  generalize (ticks w). induction records as [|c rest IH]; intros t; [reflexivity|].
  cbn [restored_list filter]. destruct (accepted c); cbn [length]; rewrite IH; reflexivity.
Qed.

(** Three documents are replaced by the two records of a payload of
    three elements, the second of which has no score. *)
Lemma restoreData_replaces_witness :
  isAuthReady ready = true
  /\ JSON_parse payload_three
     = Some (VArr [VObj [("nome", VStr "Bia"); ("pontuacao", VStr "90");
                         ("tipo", VStr "ampla"); ("region", VStr "north")];
                   VObj [("nome", VStr "Ana"); ("tipo", VStr "pcd"); ("region", VStr "north")];
                   VObj [("nome", VStr "Caio"); ("pontuacao", VNum (Fin 715 (-1)));
                         ("tipo", VStr "pcd"); ("region", VStr "south");
                         ("timestamp", VStr "2024-01-01T00:00:00.000Z")]])
  /\ length (documents three_doc_world (collection_path ready)) = 3
  /\ exists w',
       restoreData accepting payload_three ready three_doc_world = (true, ready, w')
       /\ map snd (documents w' (collection_path ready))
          = [[("nome", VStr "Bia"); ("pontuacao", VNum (Fin 9 1)); ("tipo", VStr "ampla");
              ("region", VStr "north"); ("timestamp", VStr "2024-05-02T08:30:00.000Z")];
             [("nome", VStr "Caio"); ("pontuacao", VNum (Fin 715 (-1))); ("tipo", VStr "pcd");
              ("region", VStr "south"); ("timestamp", VStr "2024-01-01T00:00:00.000Z")]]
       /\ length (documents w' (collection_path ready)) = 2.
Proof.
  assert (Hp : JSON_parse payload_three
     = Some (VArr [VObj [("nome", VStr "Bia"); ("pontuacao", VStr "90");
                         ("tipo", VStr "ampla"); ("region", VStr "north")];
                   VObj [("nome", VStr "Ana"); ("tipo", VStr "pcd"); ("region", VStr "north")];
                   VObj [("nome", VStr "Caio"); ("pontuacao", VNum (Fin 715 (-1)));
                         ("tipo", VStr "pcd"); ("region", VStr "south");
                         ("timestamp", VStr "2024-01-01T00:00:00.000Z")]]))
    by (vm_compute; reflexivity).
  split; [reflexivity|]. split; [exact Hp|]. split; [reflexivity|].
  exact (restoreData_replaces accepting payload_three ready three_doc_world _ eq_refl Hp
           eq_refl eq_refl (fun _ => eq_refl)).
Defined.

(** X6: an element at which the loop throws makes [restoreData] fail
    after it has changed the store.  On a ready facade, with a store that
    rejects no call, an array payload, with numbers in the range where
    decimals are exact, that has a [null] element makes [restoreData]
    return [false]; by then the collection has been cleared and holds the
    records written for the accepted elements before the first element at
    which the loop throws: the first [null], or an earlier accepted record
    whose score cannot be converted to a string. *)
Theorem restoreData_null_element
    (E : env) (jsonData : string) (st : facade) (w : world) (records : list value) :
  isAuthReady st = true ->
  JSON_parse jsonData = Some (VArr records) ->
  In VNull records ->
  exact_payload records = true ->
  (forall o, rejects E o = false) ->
  exists w',
    restoreData E jsonData st w = (false, st, w')
    /\ map snd (documents w' (collection_path st))
       = restored_list E (ticks w) (reached records)
    /\ (forall before rest,
          records = before ++ VNull :: rest ->
          forallb (fun c => negb (throws c)) before = true ->
          reached records = before).
Proof.
  intros Hr Hp Hin _ Hno.
  destruct (restoreData_ready E jsonData st w records Hr Hp) as (w' & Hres & _ & Hd & _).
  destruct (clearAll_accepted E st w Hr Hno) as (w1 & Hc & _ & Hd1 & _).
  rewrite Hc in Hd. cbn [snd] in Hd. rewrite Hd1 in Hd. cbn [map app] in Hd.
  assert (Hall : all_reached records = false).
  { apply not_true_is_false. intros Hall. unfold all_reached in Hall.
    rewrite forallb_forall in Hall. specialize (Hall VNull Hin). discriminate Hall. }
  rewrite Hall in Hres. rewrite filter_all in Hd
    by (intros x; unfold fulfilled; rewrite Hno; reflexivity).
  exists w'. split; [exact Hres|]. split; [exact Hd|].
  intros before rest -> Hb. clear - Hb. revert Hb.
  induction before as [|c before IH]; intros Hb; [reflexivity|].
  cbn [forallb] in Hb. apply andb_prop in Hb. destruct Hb as [Hc Hb].
  cbn [app reached]. destruct (throws c); [discriminate Hc|].
  rewrite (IH Hb). reflexivity.
Qed.

Lemma restoreData_null_element_witness :
  isAuthReady ready = true
  /\ JSON_parse payload_valid_null
     = Some (VArr [VObj [("nome", VStr "Bia"); ("pontuacao", VStr "90");
                         ("tipo", VStr "ampla"); ("region", VStr "north")]; VNull])
  /\ exists w',
       restoreData accepting payload_valid_null ready three_doc_world = (false, ready, w')
       /\ map snd (documents w' (collection_path ready))
          = [[("nome", VStr "Bia"); ("pontuacao", VNum (Fin 9 1)); ("tipo", VStr "ampla");
              ("region", VStr "north"); ("timestamp", VStr "2024-05-02T08:30:00.000Z")]].
Proof.
  assert (Hp : JSON_parse payload_valid_null
     = Some (VArr [VObj [("nome", VStr "Bia"); ("pontuacao", VStr "90");
                         ("tipo", VStr "ampla"); ("region", VStr "north")]; VNull]))
    by (vm_compute; reflexivity).
  split; [reflexivity|]. split; [exact Hp|].
  destruct (restoreData_null_element accepting payload_valid_null ready three_doc_world _
              eq_refl Hp (or_intror (or_introl eq_refl)) eq_refl (fun _ => eq_refl))
    as (w' & Hres & Hd & _).
  exists w'. split; [exact Hres|exact Hd].
Defined.

(** X7: [restoreData] does not look at what [clearAll] returned.  On a
    ready facade, when the query of [clearAll] is rejected and every
    [addDoc] is fulfilled, an array payload, with numbers in the range
    where decimals are exact, at no element of which the loop throws
    makes [restoreData] return [true] although nothing was deleted: the
    collection holds its old documents followed by the restored ones. *)
Theorem restoreData_ignores_clearAll_failure
    (E : env) (jsonData : string) (st : facade) (w : world) (records : list value) :
  isAuthReady st = true ->
  JSON_parse jsonData = Some (VArr records) ->
  all_reached records = true ->
  exact_payload records = true ->
  rejects E (GetDocs (collection_path st)) = true ->
  (forall data, rejects E (AddDoc (collection_path st) data) = false) ->
  exists w',
    fst (fst (clearAll E st w)) = false
    /\ restoreData E jsonData st w = (true, st, w')
    /\ map snd (documents w' (collection_path st))
       = map snd (documents w (collection_path st)) ++ restored_list E (ticks w) records.
Proof.
  intros Hr Hp Hall _ Hg Hno.
  destruct (restoreData_ready E jsonData st w records Hr Hp) as (w' & Hres & _ & Hd & _).
  destruct (clearAll_ready E st w Hr) as (w1 & Hc & _ & Hd1 & _).
  rewrite Hc in Hd |- *. cbn [fst snd] in Hd |- *. rewrite Hd1, Hg in Hd. rewrite Hg.
  rewrite Hall in Hres. rewrite (reached_all records Hall) in Hd.
  rewrite forallb_true in Hres by (intros x; unfold fulfilled; rewrite Hno; reflexivity).
  rewrite filter_all in Hd by (intros x; unfold fulfilled; rewrite Hno; reflexivity).
  exists w'. split; [reflexivity|]. split; [exact Hres|exact Hd].
Qed.

Lemma restoreData_ignores_clearAll_failure_witness :
  isAuthReady ready = true
  /\ all_reached [VObj (tl alice)] = true
  /\ rejects no_query (GetDocs (collection_path ready)) = true
  /\ exists w',
       fst (fst (clearAll no_query ready one_doc_world)) = false
       /\ restoreData no_query (exportJSON (facade_with [tl alice])) ready one_doc_world
          = (true, ready, w')
       /\ map snd (documents w' (collection_path ready)) = [tl alice; kept_fields alice].
Proof.
  split; [reflexivity|]. split; [reflexivity|]. split; [reflexivity|].
  assert (Hp : JSON_parse (exportJSON (facade_with [tl alice])) = Some (VArr [VObj (tl alice)]))
    by (vm_compute; reflexivity).
  exact (restoreData_ignores_clearAll_failure no_query _ ready one_doc_world _ eq_refl
           Hp eq_refl eq_refl eq_refl (fun _ => eq_refl)).
Defined.

Lemma adds_of_AddDoc (path : string) (l : list obj) : adds_of (map (AddDoc path) l) = l.
Proof. induction l as [|d l IH]; [reflexivity|]. cbn [map adds_of flat_map app]. f_equal. exact IH. Qed.

Lemma restored_list_shape (E : env) (records : list value) :
  forall tick, Forall restored_shape (restored_list E tick records).
Proof.
  induction records as [|c rest IH]; intros tick; cbn [restored_list]; [constructor|].
  destruct (accepted c) eqn:Ea; [|apply IH].
  constructor; [|apply IH].
  unfold accepted in Ea. apply andb_prop in Ea. destruct Ea as [Ea Hg].
  apply andb_prop in Ea. destruct Ea as [Ea Ht].
  apply andb_prop in Ea. destruct Ea as [Hn _].
  unfold restored_shape, restored_from, restored_record.
  split; [reflexivity|]. split; [eexists; reflexivity|].
  split; [exact Hn|]. split; [exact Ht|exact Hg].
Qed.

(** X8: whatever the payload, the store and the state, every record
    [restoreData] writes has exactly the five fields nome, pontuacao,
    tipo, region and timestamp (any other property of the input, its id
    among them, is dropped), a number as score, and a truthy name,
    category and region. *)
Theorem restoreData_writes_restored_shape
    (E : env) (jsonData : string) (st : facade) (w : world) :
  exists written,
    adds_of (issued (snd (restoreData E jsonData st w))) = adds_of (issued w) ++ written
    /\ Forall restored_shape written.
Proof.
  unfold restoreData.
  destruct (isAuthReady st) eqn:Hr; cbn [negb];
    [|exists []; split; [symmetry; apply app_nil_r|constructor]].
  destruct (JSON_parse jsonData) as [v|];
    [|exists []; split; [symmetry; apply app_nil_r|constructor]].
  destruct (negb (ToBoolean v) || negb (isArray v))%bool eqn:Hv;
    [exists []; split; [symmetry; apply app_nil_r|constructor]|].
  destruct (clearAll_no_adds E st w Hr) as (r & w1 & Hc & Ha & _). rewrite Hc.
  set (records := match v with VArr l => l | _ => [] end).
  destruct (restore_loop_outcome E (collection_path st) records true w1) as (_ & Hi & _).
  exists (restored_list E (ticks w1) (reached records)).
  split; [|apply restored_list_shape].
  destruct (restore_loop E (collection_path st) records true w1) as [[[|]|] w2];
    cbn [snd issued log] in *; rewrite Hi, adds_of_app, adds_of_AddDoc, Ha; reflexivity.
Qed.

(** ** A backup restored *)

Lemma exportJSON_parse (st : facade) :
  wf_value (cache_value st) = true -> json_clean (cache_value st) = true ->
  JSON_parse (exportJSON st) = Some (cache_value st).
Proof.
  intros Hwf Hcl.
  destruct (JSON_parse_stringify (cache_value st) 2 Hwf Hcl) as (s & Hs & Hp).
  unfold JSON_stringify, cache_value in Hs. cbn [Nat.min] in Hs.
  injection Hs as <-. exact Hp.
Qed.

Lemma parseFloat_finite (m e : Z) :
  num_wf (Fin m e) = true -> parseFloat (VNum (Fin m e)) = Fin m e.
Proof. intros H. exact (parseFloat_number_text m e H). Qed.

Lemma wf_member (ps : obj) (k : string) :
  wf_value (VObj ps) = true -> wf_value (obj_get ps k) = true.
Proof.
  rewrite wf_obj. intros H. apply andb_prop in H. destruct H as [_ H].
  unfold obj_get. induction ps as [|[k' v] ps IH]; [reflexivity|].
  cbn [forallb snd] in H. apply andb_prop in H. destruct H as [Hv Hps].
  cbn [assoc_get]. destruct (String.eqb k' k); [exact Hv|exact (IH Hps)].
Qed.

Lemma restored_list_restorable (E : env) (cache : list obj) :
  forallb wf_value (map VObj cache) = true ->
  forallb restorable cache = true ->
  forall tick, restored_list E tick (map VObj cache) = map kept_fields cache.
Proof.
  induction cache as [|c cache IH]; intros Hwf Hre tick; [reflexivity|].
  cbn [map forallb] in Hwf, Hre. apply andb_prop in Hwf, Hre.
  destruct Hwf as [Hc Hwf], Hre as [Hrc Hre].
  cbn [map restored_list].
  unfold restorable in Hrc.
  apply andb_prop in Hrc. destruct Hrc as [Hrc Hp].
  apply andb_prop in Hrc. destruct Hrc as [Hrc Hts].
  apply andb_prop in Hrc. destruct Hrc as [Hrc Hg].
  apply andb_prop in Hrc. destruct Hrc as [Hn Ht].
  pose proof (wf_member c "pontuacao" Hc) as Hwp.
  destruct (obj_get c "pontuacao") as [| | |n| | |] eqn:Ep; try discriminate Hp.
  destruct n as [| | |m e]; try discriminate Hp.
  assert (Ha : accepted (VObj c) = true).
  { unfold accepted, prop, get_prop. rewrite Hn, Ht, Hg, Ep. reflexivity. }
  rewrite Ha. unfold restored_from, restored_record, prop, get_prop.
  rewrite Hts, Ep, (parseFloat_finite m e Hwp), (IH Hwf Hre).
  unfold kept_fields. rewrite Ep. reflexivity.
Qed.

Lemma restorable_reached (c : obj) : restorable c = true -> negb (throws (VObj c)) = true.
Proof.
  unfold restorable, throws. intros H. apply andb_prop in H. destruct H as [_ H].
  change (prop (VObj c) "pontuacao") with (obj_get c "pontuacao").
  destruct (obj_get c "pontuacao"); try discriminate H.
  cbn [converts negb]. rewrite andb_false_r. reflexivity.
Qed.

(** X9: a backup restores what it was taken from.  On a ready facade
    whose cached records each have a truthy name, category, region and
    timestamp and a finite number as score, and whose cache holds nothing
    JSON text cannot carry, with a store that rejects no call:
    [restoreData(exportJSON())] returns [true] and the collection then
    holds one document per cached record, in cache order, with the
    record's five fields as they are in the cache. *)
Theorem restoreData_exportJSON (E : env) (st : facade) (w : world) :
  isAuthReady st = true ->
  wf_value (cache_value st) = true ->
  json_clean (cache_value st) = true ->
  forallb restorable (allCandidates st) = true ->
  (forall o, rejects E o = false) ->
  exists w',
    restoreData E (exportJSON st) st w = (true, st, w')
    /\ map snd (documents w' (collection_path st)) = map kept_fields (allCandidates st).
Proof.
  intros Hr Hwf Hcl Hre Hno.
  pose proof (exportJSON_parse st Hwf Hcl) as Hp. unfold cache_value in Hp.
  destruct (restoreData_ready E (exportJSON st) st w _ Hr Hp) as (w' & Hres & _ & Hd & _).
  destruct (clearAll_accepted E st w Hr Hno) as (w1 & Hc & _ & Hd1 & _).
  rewrite Hc in Hd. cbn [snd] in Hd. rewrite Hd1 in Hd. cbn [map app] in Hd.
  assert (Hall : all_reached (map VObj (allCandidates st)) = true).
  { unfold all_reached. apply forallb_forall. intros x Hx.
    apply in_map_iff in Hx. destruct Hx as (c & <- & Hin).
    rewrite forallb_forall in Hre. apply restorable_reached, Hre, Hin. }
  rewrite Hall in Hres. rewrite (reached_all _ Hall) in Hd.
  rewrite forallb_true in Hres by (intros x; unfold fulfilled; rewrite Hno; reflexivity).
  rewrite filter_all in Hd by (intros x; unfold fulfilled; rewrite Hno; reflexivity).
  rewrite (restored_list_restorable E (allCandidates st)) in Hd; [|exact Hwf|exact Hre].
  exists w'. split; [exact Hres|exact Hd].
Qed.

Lemma restoreData_exportJSON_witness :
  isAuthReady (facade_with [alice; bob]) = true
  /\ wf_value (cache_value (facade_with [alice; bob])) = true
  /\ json_clean (cache_value (facade_with [alice; bob])) = true
  /\ forallb restorable (allCandidates (facade_with [alice; bob])) = true
  /\ exists w',
       restoreData accepting (exportJSON (facade_with [alice; bob]))
         (facade_with [alice; bob]) one_doc_world
       = (true, facade_with [alice; bob], w')
       /\ map snd (documents w' (collection_path (facade_with [alice; bob])))
          = [kept_fields alice; kept_fields bob].
Proof.
  split; [reflexivity|]. split; [reflexivity|]. split; [reflexivity|].
  split; [reflexivity|].
  exact (restoreData_exportJSON accepting (facade_with [alice; bob]) one_doc_world
           eq_refl eq_refl eq_refl eq_refl (fun _ => eq_refl)).
Defined.

(** ** The snapshot listener *)

Lemma assoc_get_fresh {A : Type} (o : list (string * A)) (k : string) :
  ~ In k (map fst o) -> assoc_get o k = None.
Proof.
  induction o as [|[k' v] o IH]; intros H; [reflexivity|].
  cbn [assoc_get]. destruct (String.eqb_spec k' k) as [->|Hne].
  - elim H. left. reflexivity.
  - apply IH. intros Hin. apply H. right. exact Hin.
Qed.

(** Assigning the properties [ps] to an object: a property of [ps] reads
    as in [ps], any other as before. *)
Lemma assign_get (ps : obj) (k : string) :
  distinct (map fst ps) = true ->
  forall acc : obj,
    assoc_get (fold_left (fun o kv => assoc_set (fst kv) (snd kv) o) ps acc) k
    = match assoc_get ps k with
      | Some v => Some v
      | None => assoc_get acc k
      end.
Proof.
  induction ps as [|[k0 v0] ps IH]; intros Hd acc; [reflexivity|].
  cbn [map fst] in Hd. apply distinct_cons in Hd. destruct Hd as [Hk Hd].
  cbn [fold_left fst snd assoc_get]. rewrite (IH Hd).
  destruct (String.eqb_spec k0 k) as [->|Hne].
  - rewrite (assoc_get_fresh ps k Hk). apply assoc_get_set.
  - rewrite assoc_get_set_other by exact Hne. reflexivity.
Qed.

Lemma snapshot_record_get (id : string) (data : obj) (k : string) :
  distinct (map fst data) = true ->
  obj_get (snapshot_record (id, data)) k
  = match assoc_get data k with
    | Some v => v
    | None => if String.eqb "id" k then VStr id else VUndefined
    end.
Proof.
  intros Hd. unfold obj_get, snapshot_record. cbn [fst snd].
  rewrite (assign_get data k Hd). destruct (assoc_get data k); [reflexivity|].
  cbn [assoc_get]. destruct (String.eqb "id" k); reflexivity.
Qed.

(** X10: what the snapshot listener leaves.  The cache is replaced, not
    extended: it has one record per document of the snapshot, in snapshot
    order, whatever it held before.  Each record reads as the data of its
    document, with the id of the document under [id] unless the data has
    a property [id] of its own, which then hides it.  One update event is
    dispatched; readiness and the identity are unchanged and no remote
    call is issued. *)
Theorem on_snapshot_cache (st : facade) (snapshot : list doc) (w : world) :
  let st' := fst (on_snapshot st snapshot w) in
  let w' := snd (on_snapshot st snapshot w) in
  length (allCandidates st') = length snapshot
  /\ (forall n id data,
        nth_error snapshot n = Some (id, data) ->
        distinct (map fst data) = true ->
        exists c,
          nth_error (allCandidates st') n = Some c
          /\ (forall k v, assoc_get data k = Some v -> obj_get c k = v)
          /\ (assoc_get data "id" = None -> obj_get c "id" = VStr id)
          /\ (forall k, k <> "id" -> obj_get c k = obj_get data k))
  /\ isAuthReady st' = isAuthReady st /\ userId st' = userId st /\ appId st' = appId st
  /\ events w' = S (events w) /\ issued w' = issued w /\ remote w' = remote w.
Proof.
  cbn [on_snapshot fst snd allCandidates isAuthReady userId appId].
  split; [apply length_map|]. split; [|repeat split; reflexivity].
  intros n id data Hn Hd. exists (snapshot_record (id, data)).
  split; [rewrite nth_error_map, Hn; reflexivity|].
  split; [|split].
  - intros k v Hk. rewrite (snapshot_record_get id data k Hd), Hk. reflexivity.
  - intros Hk. rewrite (snapshot_record_get id data "id" Hd), Hk. reflexivity.
  - intros k Hk. rewrite (snapshot_record_get id data k Hd). unfold obj_get.
    destruct (assoc_get data k); [reflexivity|].
    destruct (String.eqb_spec "id" k) as [<-|_]; [contradiction|reflexivity].
Qed.

(** ** A candidate added, then seen by the listener *)

Lemma map_fst_assoc_set {A : Type} (k : string) (v : A) (o : list (string * A)) :
  map fst (assoc_set k v o)
  = if existsb (String.eqb k) (map fst o) then map fst o else map fst o ++ [k].
Proof.
  induction o as [|[k' v'] o IH]; [reflexivity|].
  cbn [assoc_set map fst existsb]. rewrite (String.eqb_sym k k').
  destruct (String.eqb k' k); cbn [map fst orb]; [reflexivity|].
  rewrite IH. destruct (existsb (String.eqb k) (map fst o)); reflexivity.
Qed.

Lemma distinct_app_one (ks : list string) (k : string) :
  distinct ks = true -> existsb (String.eqb k) ks = false -> distinct (ks ++ [k]) = true.
Proof.
  induction ks as [|k0 ks IH]; intros Hd Hk; [reflexivity|].
  cbn [app]. cbn [existsb] in Hk. apply orb_false_elim in Hk. destruct Hk as [Hk0 Hk].
  apply distinct_cons in Hd. destruct Hd as [Hn Hd].
  apply distinct_cons. split; [|exact (IH Hd Hk)].
  rewrite in_app_iff. intros [Hin|[<-|[]]]; [exact (Hn Hin)|].
  rewrite String.eqb_refl in Hk0. discriminate Hk0.
Qed.

Lemma distinct_assoc_set (k : string) (v : value) (o : obj) :
  distinct (map fst o) = true -> distinct (map fst (assoc_set k v o)) = true.
Proof.
  intros Hd. rewrite map_fst_assoc_set.
  destruct (existsb (String.eqb k) (map fst o)) eqn:Ek; [exact Hd|].
  apply distinct_app_one; assumption.
Qed.

(** X11: a candidate added is a candidate listed.  On a ready facade, when
    the store fulfils the [addDoc] of [addCandidate(region, candidate)] for
    a region and a category that are strings, the category one of ampla,
    pcd and ppp, and the listener is then called with the documents of the
    collection: the cache ends with a record for the new document, which
    [getRegionData(region)] lists under the category, provided the score
    of the candidate and the regions and scores of the documents the
    collection held can be converted, with numbers in the range where
    decimals are exact.  The record has the candidate's properties, the
    region and the reading of the clock as timestamp; its [id] is the id
    of the new document, unless the candidate had a property [id], which
    it then keeps. *)
Theorem addCandidate_then_snapshot
    (E : env) (region tipo : string) (c : obj) (st : facade) (w : world) :
  isAuthReady st = true ->
  (forall data, rejects E (AddDoc (collection_path st) data) = false) ->
  distinct (map fst c) = true ->
  obj_get c "tipo" = VStr tipo ->
  In tipo tipos ->
  sortable_score (obj_get c "pontuacao") = true ->
  forallb (comparable region)
          (map snapshot_record (documents w (collection_path st))) = true ->
  let '(ok, st1, w1) := addCandidate E (VStr region) (VObj c) st w in
  let st2 := fst (on_snapshot st1 (documents w1 (collection_path st1)) w1) in
  ok = true
  /\ exists rec,
       allCandidates st2
       = map snapshot_record (documents w (collection_path st)) ++ [rec]
       /\ forallb (comparable region) (allCandidates st2) = true
       /\ In rec (region_list (getRegionData st2 region) tipo)
       /\ obj_get rec "region" = VStr region
       /\ obj_get rec "timestamp" = VStr (clock E (ticks w))
       /\ (forall k, k <> "id" -> k <> "region" -> k <> "timestamp" ->
             obj_get rec k = obj_get c k)
       /\ obj_get rec "id"
          = match assoc_get c "id" with
            | Some v => v
            | None => VStr (new_id E (length (issued w)))
            end.
Proof.
  intros Hr Hno Hd Ht Hin Hsc Hcmp. unfold addCandidate. rewrite Hr. cbn [negb now spread].
  rewrite (assign_distinct c Hd).
  set (data := assoc_set "timestamp" (VStr (clock E (ticks w)))
                 (assoc_set "region" (VStr region) c)).
  unfold addDoc. rewrite Hno. cbv beta iota zeta.
  split; [reflexivity|].
  set (id := new_id E (length (issued w))).
  assert (Hdd : distinct (map fst data) = true)
    by (unfold data; apply distinct_assoc_set, distinct_assoc_set; exact Hd).
  assert (Hget : forall k, obj_get (snapshot_record (id, data)) k
                   = match assoc_get data k with
                     | Some v => v
                     | None => if String.eqb "id" k then VStr id else VUndefined
                     end)
    by (intros k; apply snapshot_record_get; exact Hdd).
  assert (Hreg : assoc_get data "region" = Some (VStr region)).
  { unfold data. rewrite assoc_get_set_other by discriminate. apply assoc_get_set. }
  assert (Hts : assoc_get data "timestamp" = Some (VStr (clock E (ticks w))))
    by apply assoc_get_set.
  assert (Hoth : forall k, k <> "region" -> k <> "timestamp" ->
                   assoc_get data k = assoc_get c k).
  { intros k H1 H2. unfold data. rewrite !assoc_get_set_other by congruence. reflexivity. }
  match goal with
  | |- exists rec, allCandidates ?s = _ /\ _ => set (st2 := s)
  end.
  assert (Hcache : allCandidates st2
                   = map snapshot_record (documents w (collection_path st))
                     ++ [snapshot_record (id, data)]).
  { unfold st2. cbn [on_snapshot fst allCandidates].
    rewrite documents_log, documents_issue, documents_set, map_app. reflexivity. }
  clearbody st2.
  assert (Hoc : forall k, k <> "id" -> k <> "region" -> k <> "timestamp" ->
                  obj_get (snapshot_record (id, data)) k = obj_get c k).
  { intros k H1 H2 H3. rewrite Hget, (Hoth k H2 H3). unfold obj_get.
    destruct (assoc_get c k); [reflexivity|].
    destruct (String.eqb_spec "id" k) as [<-|_]; [contradiction|reflexivity]. }
  exists (snapshot_record (id, data)).
  split; [exact Hcache|].
  split.
  { rewrite Hcache, forallb_app, Hcmp. cbn [forallb andb]. rewrite andb_true_r.
    unfold comparable. rewrite Hget, Hreg, (Hoc "pontuacao") by discriminate.
    rewrite Hsc. reflexivity. }
  split.
  - apply region_list_In. split; [exact Hin|]. split; [|split].
    + rewrite Hcache. apply in_or_app. right. left. reflexivity.
    + rewrite Hget, Hreg. cbn [loose_eq_string]. apply String.eqb_refl.
    + rewrite Hget, (Hoth "tipo") by discriminate.
      unfold obj_get in Ht. destruct (assoc_get c "tipo"); [exact Ht|discriminate Ht].
  - split; [rewrite Hget, Hreg; reflexivity|].
    split; [rewrite Hget, Hts; reflexivity|]. split; [exact Hoc|].
    rewrite Hget, (Hoth "id") by discriminate.
    destruct (assoc_get c "id"); reflexivity.
Qed.

Lemma addCandidate_then_snapshot_witness :
  isAuthReady ready = true
  /\ distinct (map fst alice) = true
  /\ obj_get alice "tipo" = VStr "ampla"
  /\ In "ampla" tipos
  /\ let '(ok, st1, w1) := addCandidate accepting (VStr "south") (VObj alice) ready one_doc_world in
     let st2 := fst (on_snapshot st1 (documents w1 (collection_path st1)) w1) in
     ok = true
     /\ exists rec,
          allCandidates st2
          = map snapshot_record (documents one_doc_world (collection_path ready)) ++ [rec]
          /\ forallb (comparable "south") (allCandidates st2) = true
          /\ In rec (region_list (getRegionData st2 "south") "ampla")
          /\ obj_get rec "region" = VStr "south"
          /\ obj_get rec "timestamp" = VStr (clock accepting (ticks one_doc_world))
          /\ (forall k, k <> "id" -> k <> "region" -> k <> "timestamp" ->
                obj_get rec k = obj_get alice k)
          /\ obj_get rec "id"
             = match assoc_get alice "id" with
               | Some v => v
               | None => VStr (new_id accepting (length (issued one_doc_world)))
               end.
Proof.
  split; [reflexivity|]. split; [reflexivity|]. split; [reflexivity|].
  split; [left; reflexivity|].
  exact (addCandidate_then_snapshot accepting "south" "ampla" alice ready one_doc_world
           eq_refl (fun _ => eq_refl) eq_refl eq_refl (or_introl eq_refl) eq_refl eq_refl).
Defined.

(** ** Ties in getRegionData *)

Lemma num_eq_common (a b s : number) :
  num_eq a s = true -> num_eq b s = true -> num_compare a b = Some Eq.
Proof.
  unfold num_eq.
  destruct a as [| | |m1 e1], b as [| | |m2 e2], s as [| | |m3 e3];
    try (intros; reflexivity); try (intros H; discriminate H);
    try (intros _ H; discriminate H).
  set (k := Z.min e1 (Z.min e2 e3)).
  rewrite (fin_compare_at m1 e1 m3 e3 k), (fin_compare_at m2 e2 m3 e3 k),
    (fin_compare_at m1 e1 m2 e2 k) by (unfold k; lia).
  destruct (Z.compare_spec (scale m1 e1 k) (scale m3 e3 k)) as [E1|E1|E1];
    intros H1; try discriminate H1.
  destruct (Z.compare_spec (scale m2 e2 k) (scale m3 e3 k)) as [E2|E2|E2];
    intros H2; try discriminate H2.
  rewrite E1, E2, Z.compare_refl. reflexivity.
Qed.

(** Inserting [x] moves it past no candidate of its own score. *)
Lemma sort_insert_ties (s : number) (x : obj) (l : list obj) :
  filter (fun c => num_eq (score c) s) (sort_insert by_pontuacao x l)
  = filter (fun c => num_eq (score c) s) (x :: l).
Proof.
  induction l as [|y l IH]; [reflexivity|].
  cbn [sort_insert]. destruct (sort_before by_pontuacao y x) eqn:Eb; [|reflexivity].
  cbn [filter] in IH |- *. rewrite IH.
  destruct (num_eq (score y) s) eqn:Ey; [|reflexivity].
  destruct (num_eq (score x) s) eqn:Ex; [|reflexivity].
  exfalso. unfold sort_before, by_pontuacao in Eb. fold (score x) (score y) in Eb.
  rewrite (num_sub_sign _ _ Eq (num_eq_common _ _ s Ex Ey)) in Eb. discriminate Eb.
Qed.

Lemma Array_sort_ties (s : number) (l : list obj) :
  filter (fun c => num_eq (score c) s) (Array_sort by_pontuacao l)
  = filter (fun c => num_eq (score c) s) l.
Proof.
  induction l as [|x l IH]; [reflexivity|].
  cbn [Array_sort fold_right]. fold (Array_sort by_pontuacao l).
  rewrite sort_insert_ties. cbn [filter]. rewrite IH. reflexivity.
Qed.

(** X12: ties keep the order of the cache.  For a cache whose records
    have a region and a score that can be converted, with numbers in the
    range where decimals are exact: when no candidate of a list has a
    score that converts to [NaN], the candidates of one score are, in the
    list [getRegionData] returns, in the order the cache has them. *)
Theorem getRegionData_ties_in_cache_order (st : facade) (r tipo : string) (s : number) :
  forallb (comparable r) (allCandidates st) = true ->
  (forall c, In c (allCandidates st) ->
     loose_eq_string (obj_get c "region") r = true ->
     obj_get c "tipo" = VStr tipo -> score c <> NaN) ->
  In tipo tipos ->
  filter (fun c => num_eq (score c) s) (region_list (getRegionData st r) tipo)
  = filter (fun c => num_eq (score c) s)
      (filter (fun c => strict_eq_string (obj_get c "tipo") tipo)
         (filter (fun c => loose_eq_string (obj_get c "region") r)
            (allCandidates st))).
Proof.
  intros _ _ Ht. rewrite (region_list_eq st r tipo Ht). apply Array_sort_ties.
Qed.

Lemma getRegionData_ties_in_cache_order_witness :
  forallb (comparable "north") (allCandidates (facade_with [carol; alice; bob; frank])) = true
  /\ In "ampla" tipos
  /\ region_list (getRegionData (facade_with [carol; alice; bob; frank]) "north") "ampla"
     = [bob; alice; frank; carol]
  /\ filter (fun c => num_eq (score c) (Fin 9 1))
       (region_list (getRegionData (facade_with [carol; alice; bob; frank]) "north") "ampla")
     = [alice; frank].
Proof.
  assert (H : forall c, In c (allCandidates (facade_with [carol; alice; bob; frank])) ->
     loose_eq_string (obj_get c "region") "north" = true ->
     obj_get c "tipo" = VStr "ampla" -> score c <> NaN).
  { intros c [<-|[<-|[<-|[<-|[]]]]] _ _; vm_compute; discriminate. }
  split; [reflexivity|]. split; [left; reflexivity|]. split; [reflexivity|].
  exact (getRegionData_ties_in_cache_order (facade_with [carol; alice; bob; frank])
           "north" "ampla" (Fin 9 1) eq_refl H (or_introl eq_refl)).
Defined.

(** ** The lines of exportCSV *)

Lemma line_ends_app (a b : string) : line_ends (a +++ b) = line_ends a + line_ends b.
Proof.
  induction a as [|c a IH]; [reflexivity|].
  cbn [String.append line_ends]. rewrite IH. apply Nat.add_assoc.
Qed.

Lemma line_ends_tipoName (c : obj) : line_ends (tipoName c) = 0.
Proof.
  unfold tipoName.
  destruct (strict_eq_string (obj_get c "tipo") "ampla"); [reflexivity|].
  destruct (strict_eq_string (obj_get c "tipo") "pcd"); reflexivity.
Qed.

Lemma line_ends_line_text (c : obj) : line_ends (line_text c) = S (stray_line_ends c).
Proof.
  unfold line_text, stray_line_ends. rewrite !line_ends_app, line_ends_tipoName.
  change (line_ends ",") with 0. change (line_ends quote_mark) with 0.
  change (line_ends (String newline "")) with 1.
  generalize (line_ends (ToString (obj_get c "region"))),
    (line_ends (ToString (obj_get c "nome"))),
    (line_ends (ToString (obj_get c "pontuacao"))),
    (line_ends (ToString (obj_get c "timestamp"))).
  intros a b d e. lia.
Qed.

(** X13: when the region, name, score and timestamp of every cached
    candidate can be converted to a string, [exportCSV] returns a text,
    which has one line end for the header and one for each cached
    candidate, plus those inside the fields, which are written as they
    are.  So the export has exactly one line per candidate after the
    header when no region, name, score or timestamp contains a line end,
    and more lines than that as soon as one does.  When a field of a
    cached candidate cannot be converted, [exportCSV] returns no text. *)
Theorem exportCSV_lines (st : facade) :
  (forallb line_converts (allCandidates st) = true ->
   exists text,
     exportCSV st = Some text
     /\ line_ends text
        = S (length (allCandidates st)) + list_sum (map stray_line_ends (allCandidates st))
     /\ ((forall c, In c (allCandidates st) -> stray_line_ends c = 0) ->
         line_ends text = S (length (allCandidates st))))
  /\ (forallb line_converts (allCandidates st) = false -> exportCSV st = None).
Proof.
  unfold exportCSV. rewrite exportCSV_fold.
  split; intros Hc; rewrite Hc; [|reflexivity].
  eexists. split; [reflexivity|].
  assert (H : line_ends (csv_header
                         +++ fold_right String.append "" (map line_text (allCandidates st)))
              = S (length (allCandidates st))
                + list_sum (map stray_line_ends (allCandidates st))).
  { rewrite line_ends_app. change (line_ends csv_header) with 1.
    unfold list_sum. clear Hc.
    induction (allCandidates st) as [|c l IH]; [reflexivity|].
    cbn [map fold_right length]. rewrite line_ends_app, line_ends_line_text. lia. }
  split; [exact H|]. intros Hz. rewrite H.
  assert (Hs : list_sum (map stray_line_ends (allCandidates st)) = 0).
  { clear H Hc. revert Hz. unfold list_sum.
    induction (allCandidates st) as [|c l IH]; intros Hz; [reflexivity|].
    cbn [map fold_right]. rewrite (Hz c (or_introl eq_refl)).
    apply IH. intros c' Hc'. apply Hz. right. exact Hc'. }
  rewrite Hs. apply Nat.add_0_r.
Qed.

Lemma exportCSV_lines_witness :
  forallb line_converts (allCandidates (facade_with [alice; bob])) = true
  /\ exists text,
       exportCSV (facade_with [alice; bob]) = Some text
       /\ line_ends text = 3.
Proof.
  split; [reflexivity|].
  destruct (proj1 (exportCSV_lines (facade_with [alice; bob])) eq_refl)
    as (text & Ht & _ & Hz).
  exists text. split; [exact Ht|].
  apply Hz. intros c [<-|[<-|[]]]; reflexivity.
Defined.

(** ** The collection of an identity *)

Lemma append_inj_l (a b c : string) : a +++ b = a +++ c -> b = c.
Proof.
  induction a as [|x a IH]; cbn [String.append]; intros H; [exact H|].
  injection H as H. exact (IH H).
Qed.

Lemma length_append (a b : string) :
  String.length (a +++ b) = String.length a + String.length b.
Proof. induction a as [|x a IH]; cbn [String.append String.length]; [reflexivity|]. rewrite IH. reflexivity. Qed.

Lemma append_inj_r (a b c : string) : a +++ c = b +++ c -> a = b.
Proof.
  revert b. induction a as [|x a IH]; intros [|y b] H; cbn [String.append] in H.
  - reflexivity.
  - apply (f_equal String.length) in H. cbn [String.length] in H.
    rewrite length_append in H. lia.
  - apply (f_equal String.length) in H. cbn [String.length] in H.
    rewrite length_append in H. lia.
  - injection H as -> H. rewrite (IH b H). reflexivity.
Qed.

(** X14: within one application, two users never share a collection: the
    facades [initializeFirebase] leaves for two different user ids address
    different collections. *)
Theorem collection_path_of_user (st : facade) (uid1 uid2 : string) :
  uid1 <> uid2 ->
  collection_path (initializeFirebase st (Some uid1))
  <> collection_path (initializeFirebase st (Some uid2)).
Proof.
  intros Hne H. apply Hne.
  unfold collection_path, initializeFirebase in H. cbn [appId userId ToString] in H.
  apply append_inj_l in H. apply append_inj_l in H. apply append_inj_l in H.
  exact (append_inj_r _ _ _ H).
Qed.

Lemma collection_path_of_user_witness :
  "uid-1" <> "uid-2"
  /\ collection_path (initializeFirebase (constructor None) (Some "uid-1"))
     <> collection_path (initializeFirebase (constructor None) (Some "uid-2")).
Proof.
  assert (H : "uid-1" <> "uid-2") by discriminate.
  split; [exact H|].
  exact (collection_path_of_user (constructor None) "uid-1" "uid-2" H).
Defined.

(** ** Start-up *)




(** X16: when start-up fails (the configuration is no JSON text, the SDK
    refuses it or the sign-in is rejected), the facade the constructor
    made stays as it is: not ready, with an empty cache and no listener.
    On it [addCandidate], [clearAll] and [restoreData] return [false]
    without a remote call, whatever the store would answer. *)
Theorem initializeFirebase_in_failure
    (P : page) (K : sdk) (app_id : option string) (w : world) :
  signIn P K = None ->
  let '(st', listening, w') := initializeFirebase_in P K (constructor app_id) w in
  st' = constructor app_id /\ listening = None /\ same_store w w'
  /\ forall (E : env) (w0 : world),
       (forall region candidate, exists w1,
           addCandidate E region candidate st' w0 = (false, st', w1) /\ same_store w0 w1)
       /\ (exists w1, clearAll E st' w0 = (false, st', w1) /\ same_store w0 w1)
       /\ (forall jsonData, exists w1,
             restoreData E jsonData st' w0 = (false, st', w1) /\ same_store w0 w1).
Proof.
  intros Hs. unfold initializeFirebase_in. rewrite Hs. cbn [initializeFirebase].
  split; [reflexivity|]. split; [reflexivity|]. split; [apply same_store_log|].
  intros E w0. unfold addCandidate, clearAll, restoreData.
  cbn [constructor isAuthReady negb].
  split; [|split]; intros; eexists; (split; [reflexivity|apply same_store_log]).
Qed.

Lemma initializeFirebase_in_failure_witness :
  signIn broken_page anonymous_sdk = None
  /\ fst (initializeFirebase_in broken_page anonymous_sdk (constructor None) empty_world)
     = (constructor None, None)
  /\ exists w1, clearAll accepting (constructor None) one_doc_world
                = (false, constructor None, w1) /\ same_store one_doc_world w1.
Proof.
  assert (Hs : signIn broken_page anonymous_sdk = None) by (vm_compute; reflexivity).
  split; [exact Hs|]. split; [reflexivity|].
  pose proof (initializeFirebase_in_failure broken_page anonymous_sdk None empty_world Hs)
    as H.
  destruct (initializeFirebase_in broken_page anonymous_sdk (constructor None) empty_world)
    as [[st' listening] w'].
  destruct H as (-> & _ & _ & H).
  exact (proj1 (proj2 (H accepting one_doc_world))).
Defined.

(** ** The score restoreData writes *)

Lemma starts_with_length (p s r : text) :
  starts_with p s = Some r -> length s = length p + length r.
Proof.
  revert s. induction p as [|a p IH]; intros s; cbn [starts_with].
  - intros H. injection H as <-. reflexivity.
  - destruct s as [|b s]; [discriminate|].
    destruct (Ascii.eqb a b); [|discriminate].
    intros H. cbn [length]. rewrite (IH s H). reflexivity.
Qed.

Lemma strip_any_shorter (seqs : list text) (s r : text) :
  Forall (fun p => p <> []) seqs -> strip_any seqs s = Some r -> length r < length s.
Proof.
  induction 1 as [|p seqs Hp _ IH]; cbn [strip_any]; [discriminate|].
  destruct (starts_with p s) as [r'|] eqn:E; [|exact IH].
  intros H. injection H as ->. apply starts_with_length in E.
  destruct p; [contradiction|]. cbn [length] in E. lia.
Qed.

(** More fuel than the length of the text changes nothing. *)
Lemma skip_spaces_fuel (seqs : list text) :
  Forall (fun p => p <> []) seqs ->
  forall n f s, length s <= n -> length s <= f ->
    skip_spaces seqs f s = skip_spaces seqs n s.
Proof.
  intros Hs. induction n as [|n IH]; intros f s Hn Hf.
  - destruct s; [|cbn [length] in Hn; lia]. destruct f; reflexivity.
  - destruct f as [|f]; [destruct s; [reflexivity|cbn [length] in Hf; lia]|].
    destruct s as [|c r]; [reflexivity|]. cbn [length] in Hn, Hf. cbn [skip_spaces].
    destruct (is_space c); [apply IH; lia|].
    destruct (strip_any seqs (c :: r)) as [r'|] eqn:E; [|reflexivity].
    apply (strip_any_shorter seqs _ _ Hs) in E. cbn [length] in E. apply IH; lia.
Qed.

Lemma wide_spaces_not_empty : Forall (fun p : text => p <> []) wide_spaces.
Proof. repeat constructor; discriminate. Qed.

Lemma skip_white_space (c : ascii) (s : text) :
  is_space c = true -> skip_white (c :: s) = skip_white s.
Proof. intros H. unfold skip_white. cbn [length skip_spaces]. rewrite H. reflexivity. Qed.

Lemma skip_white_wide (p s : text) :
  In p wide_spaces -> skip_white (p ++ s) = skip_white s.
Proof.
  intros Hin. unfold skip_white.
  assert (Hstep : skip_spaces wide_spaces (length (p ++ s)) (p ++ s)
                  = skip_spaces wide_spaces (pred (length (p ++ s))) s).
  { repeat (destruct Hin as [<-|Hin]; [reflexivity|]). destruct Hin. }
  rewrite Hstep. apply (skip_spaces_fuel _ wide_spaces_not_empty); [apply le_n|].
  rewrite length_app.
  assert (Hp : p <> []).
  { pose proof wide_spaces_not_empty as Hne. rewrite Forall_forall in Hne. exact (Hne p Hin). }
  destruct p; [contradiction|]. cbn [length]. lia.
Qed.

(** [skip_white] skips the white space a text starts with. *)
Lemma skip_white_pieces (ws : list text) (s : text) :
  Forall white_piece ws -> skip_white (concat ws ++ s) = skip_white s.
Proof.
  induction 1 as [|p ws Hp _ IH]; [reflexivity|].
  cbn [concat]. rewrite <- app_assoc.
  destruct Hp as [(c & -> & Hc)|Hin].
  - cbn [app]. rewrite (skip_white_space c _ Hc). exact IH.
  - rewrite (skip_white_wide p _ Hin). exact IH.
Qed.

Lemma no_number_head_scan (t : text) :
  no_number_head t = true -> scan_decimal_literal t = None.
Proof.
  destruct t as [|c r]; [reflexivity|]. cbn [no_number_head].
  rewrite negb_true_iff. intros H.
  apply orb_false_elim in H. destruct H as [H HI].
  apply orb_false_elim in H. destruct H as [H Hdot].
  apply orb_false_elim in H. destruct H as [H Hplus].
  apply orb_false_elim in H. destruct H as [Hd Hminus].
  unfold scan_decimal_literal. rewrite Hminus, Hplus.
  unfold decimal_unsigned. cbn [T list_ascii_of_string starts_with].
  rewrite (Ascii.eqb_sym "I" c), HI. cbn [span_digits]. rewrite Hd, Hdot. reflexivity.
Qed.

(** X17: the score [restoreData] writes for an accepted record, whose
    score can be converted to a string, is the number at the start of the
    score's text.  When that text is, after any white space (ASCII or
    not), the text of a finite number, in the range where decimals are
    exact, followed by nothing that could continue a number (a unit,
    say), the score written is that number.  When it starts, after the
    white space, with nothing a number can start with (as the texts of
    [null], of a boolean, of an object and the empty text do) the score
    written is [NaN]. *)
Theorem restoreData_score_of_text (candidate : value) (reading : string) :
  converts (prop candidate "pontuacao") = true ->
  exact_value (prop candidate "pontuacao") = true ->
  (forall ws m e rest,
     Forall white_piece ws -> num_wf (Fin m e) = true -> num_exact (Fin m e) = true ->
     number_end rest = true ->
     T (ToString (prop candidate "pontuacao")) = concat ws ++ number_text (Fin m e) ++ rest ->
     obj_get (restored_from candidate reading) "pontuacao" = VNum (Fin m e))
  /\ (no_number_head (skip_white (T (ToString (prop candidate "pontuacao")))) = true ->
      obj_get (restored_from candidate reading) "pontuacao" = VNum NaN).
Proof.
  intros _ _. split.
  - intros ws m e rest Hws Hwf _ Hr Ht.
    change (VNum (parseFloat (prop candidate "pontuacao")) = VNum (Fin m e)).
    unfold parseFloat. rewrite Ht, (skip_white_pieces ws _ Hws).
    destruct (number_text_head m e) as (c & t & Hc & Hd).
    assert (Hdw : skip_white (number_text (Fin m e) ++ rest)
                  = number_text (Fin m e) ++ rest).
    { rewrite Hc. cbn [app]. apply skip_white_plain, number_head_plain, Hd. }
    rewrite Hdw, (scan_number_text m e rest Hwf Hr). reflexivity.
  - intros Hn.
    change (VNum (parseFloat (prop candidate "pontuacao")) = VNum NaN).
    unfold parseFloat. rewrite (no_number_head_scan _ Hn). reflexivity.
Qed.

(** A score text that starts with a space and ends with a unit; one that
    starts with the no-break space U+00A0; and the score [null]. *)
Lemma restoreData_score_of_text_witness :
  obj_get (restored_from (VObj [("nome", VStr "Ana"); ("pontuacao", VStr " 90.5 pts")])
             "t") "pontuacao" = VNum (Fin 905 (-1))
  /\ obj_get (restored_from
                (VObj [("nome", VStr "Ana");
                       ("pontuacao",
                        VStr (string_of_list_ascii (map ascii_of_N [194; 160; 57; 48]%N)))])
                "t") "pontuacao" = VNum (Fin 9 1)
  /\ obj_get (restored_from (VObj [("nome", VStr "Ana"); ("pontuacao", VNull)]) "t")
       "pontuacao" = VNum NaN.
Proof.
  split; [|split].
  - refine (proj1 (restoreData_score_of_text
                    (VObj [("nome", VStr "Ana"); ("pontuacao", VStr " 90.5 pts")]) "t"
                    eq_refl eq_refl)
             [[" "%char]] 905%Z (-1)%Z (T " pts") _ eq_refl eq_refl eq_refl eq_refl).
    constructor; [left; exists " "%char; split; reflexivity|constructor].
  - refine (proj1 (restoreData_score_of_text
                    (VObj [("nome", VStr "Ana");
                           ("pontuacao",
                            VStr (string_of_list_ascii
                                    (map ascii_of_N [194; 160; 57; 48]%N)))]) "t"
                    eq_refl eq_refl)
             [map ascii_of_N [194; 160]%N] 9%Z 1%Z [] _ eq_refl eq_refl eq_refl eq_refl).
    constructor; [right; left; reflexivity|constructor].
  - exact (proj2 (restoreData_score_of_text
                    (VObj [("nome", VStr "Ana"); ("pontuacao", VNull)]) "t"
                    eq_refl eq_refl) eq_refl).
Defined.

(** ** A region that is a number *)

Lemma digits_plain (ds : text) :
  forallb is_digit ds = true -> forallb plain_char ds = true.
Proof.
  induction ds as [|c ds IH]; [reflexivity|]. cbn [forallb]. intros H.
  apply andb_prop in H. destruct H as [Hc Hd].
  rewrite (digit_plain c Hc), (IH Hd). reflexivity.
Qed.

Lemma number_text_plain (m e : Z) :
  num_wf (Fin m e) = true -> forallb plain_char (number_text (Fin m e)) = true.
Proof.
  intros Hwf. unfold number_text. simpl in Hwf.
  destruct (Z.eqb_spec m 0) as [->|Hm]; [reflexivity|].
  assert (Hmod : (m mod 10 <> 0)%Z)
    by (destruct (Z.eqb_spec (m mod 10) 0); [discriminate|assumption]).
  assert (Hpos : (0 < Z.abs_N m)%N) by lia.
  assert (Hpm : (Z.abs_N m mod 10 <> 0)%N).
  { intros E. apply Hmod. apply (f_equal Z.of_N) in E.
    rewrite N2Z.inj_mod, N2Z.inj_abs_N in E. simpl in E.
    apply Z.mod_divide in E; [|lia]. apply Z.mod_divide; [lia|].
    apply Z.divide_abs_r. exact E. }
  destruct (format_digits_shape (Z.abs_N m) e Hpos Hpm)
    as (c & t & f & x & Htxt & Hi & _ & Hf & _).
  specialize (Htxt []). rewrite !app_nil_r in Htxt. rewrite Htxt.
  rewrite !forallb_app.
  rewrite (digits_plain _ Hi).
  assert (Hfr : forallb plain_char
                  match f with [] => [] | _ :: _ => "."%char :: f end = true).
  { destruct f as [|fc ft]; [reflexivity|].
    change (forallb plain_char ("."%char :: fc :: ft))
      with (forallb plain_char (fc :: ft)).
    exact (digits_plain _ Hf). }
  assert (Hex : forallb plain_char
                  match x with
                  | Some x => "e"%char :: (if (x <? 0)%Z then "-"%char else "+"%char)
                                :: digits (Z.abs_N x)
                  | None => []
                  end = true).
  { destruct x as [x|]; [|reflexivity].
    cbn [forallb]. rewrite (digits_plain _ (digits_all_digits _)).
    destruct (x <? 0)%Z; reflexivity. }
  rewrite Hfr, Hex. destruct (m <? 0)%Z; reflexivity.
Qed.

Lemma radix_value_zero (c : ascii) (ds : text) (acc : N) : radix_value 0 (c :: ds) acc = None.
Proof.
  cbn [radix_value]. destruct (hex_val c) as [d|]; [|reflexivity].
  destruct (N.ltb_spec d 0); [lia|reflexivity].
Qed.

Lemma radix_literal_digit (c : ascii) (s : text) :
  is_digit c = true -> Ascii.eqb c "0" = false -> radix_literal (c :: s) = None.
Proof.
  intros _ Hc. destruct s as [|x [|d ds]]; cbn [radix_literal]; try reflexivity.
  rewrite Hc. reflexivity.
Qed.

Lemma number_text_no_radix (m e : Z) :
  num_wf (Fin m e) = true -> radix_literal (number_text (Fin m e)) = None.
Proof.
  intros Hwf. unfold number_text. simpl in Hwf.
  destruct (Z.eqb_spec m 0) as [->|Hm]; [reflexivity|].
  destruct (Z.ltb_spec m 0) as [Hneg|Hneg].
  - change (T "-" ++ ?a) with ("-"%char :: a).
    destruct (format_digits (digits (Z.abs_N m)) e) as [|x [|d ds]]; reflexivity.
  - change ([] ++ ?a) with a.
    assert (Hmod : (m mod 10 <> 0)%Z)
      by (destruct (Z.eqb_spec (m mod 10) 0); [discriminate|assumption]).
    assert (Hpos : (0 < Z.abs_N m)%N) by lia.
    assert (Hpm : (Z.abs_N m mod 10 <> 0)%N).
    { intros E. apply Hmod. apply (f_equal Z.of_N) in E.
      rewrite N2Z.inj_mod, N2Z.inj_abs_N in E. simpl in E.
      apply Z.mod_divide in E; [|lia]. apply Z.mod_divide; [lia|].
      apply Z.divide_abs_r. exact E. }
    destruct (format_digits_shape (Z.abs_N m) e Hpos Hpm)
      as (c & t & f & x & Htxt & Hi & Hz & _ & _).
    specialize (Htxt []). rewrite !app_nil_r in Htxt. rewrite Htxt.
    assert (Hcd : is_digit c = true) by (simpl in Hi; apply andb_prop in Hi; apply Hi).
    destruct (Ascii.eqb_spec c "0") as [->|Hc0].
    + destruct Hz as [Hz| ->]; [contradiction|].
      destruct f as [|fc ft]; cbn [app].
      * destruct x as [x|]; [|reflexivity]. cbn [radix_literal Ascii.eqb Bool.eqb orb].
        rewrite radix_value_zero. reflexivity.
      * cbn [radix_literal Ascii.eqb Bool.eqb orb]. rewrite radix_value_zero. reflexivity.
    + cbn [app]. apply radix_literal_digit; [exact Hcd|].
      destruct (Ascii.eqb_spec c "0"); [contradiction|reflexivity].
Qed.

Lemma StringToNumber_number_text (m e : Z) :
  num_wf (Fin m e) = true -> StringToNumber (ToString (VNum (Fin m e))) = Fin m e.
Proof.
  intros Hwf. unfold StringToNumber. cbn [ToString]. unfold T.
  rewrite String.list_ascii_of_string_of_list_ascii.
  rewrite (trim_plain _ (number_text_plain m e Hwf)).
  pose proof (number_text_no_radix m e Hwf) as Hrad.
  pose proof (scan_number_text m e [] Hwf eq_refl) as Hs. rewrite app_nil_r in Hs.
  destruct (number_text_head m e) as (c & t & Ht & _). rewrite Ht in *.
  rewrite Hrad, Hs. reflexivity.
Qed.

Lemma num_eq_refl (m e : Z) : num_eq (Fin m e) (Fin m e) = true.
Proof. unfold num_eq. cbn [num_compare]. rewrite Z.compare_refl. reflexivity. Qed.

(** X18: the region is compared with [==], the category with [===].  In
    a cache whose records have a region and a score that can be
    converted, with numbers in the range where decimals are exact, a
    candidate whose region is a finite number is listed by
    [getRegionData] called with the text of that number, under its
    category; a candidate whose category is no string is in no list. *)
Theorem getRegionData_numeric_region (st : facade) (c : obj) (m e : Z) :
  In c (allCandidates st) ->
  obj_get c "region" = VNum (Fin m e) ->
  num_wf (Fin m e) = true ->
  forallb (comparable (ToString (VNum (Fin m e)))) (allCandidates st) = true ->
  (forall tipo, In tipo tipos -> obj_get c "tipo" = VStr tipo ->
     In c (region_list (getRegionData st (ToString (VNum (Fin m e)))) tipo))
  /\ ((forall s, obj_get c "tipo" <> VStr s) ->
      forall tipo, ~ In c (region_list (getRegionData st (ToString (VNum (Fin m e)))) tipo)).
Proof.
  intros Hc Hr Hwf _. split.
  - intros tipo Ht Hs. apply region_list_In.
    split; [exact Ht|]. split; [exact Hc|]. split; [|exact Hs].
    rewrite Hr. cbn [loose_eq_string ToNumber].
    rewrite (StringToNumber_number_text m e Hwf). apply num_eq_refl.
  - intros Hn tipo Hin. apply region_list_In in Hin.
    destruct Hin as (_ & _ & _ & Hs). exact (Hn tipo Hs).
Qed.

Lemma getRegionData_numeric_region_witness :
  In gil (allCandidates (facade_with [alice; gil]))
  /\ obj_get gil "region" = VNum (Fin 5 0)
  /\ num_wf (Fin 5 0) = true
  /\ ToString (VNum (Fin 5 0)) = "5"
  /\ forallb (comparable "5") (allCandidates (facade_with [alice; gil])) = true
  /\ In gil (region_list (getRegionData (facade_with [alice; gil]) "5") "pcd").
Proof.
  assert (Hin : In gil (allCandidates (facade_with [alice; gil])))
    by (right; left; reflexivity).
  split; [exact Hin|]. split; [reflexivity|]. split; [reflexivity|].
  split; [reflexivity|]. split; [reflexivity|].
  exact (proj1 (getRegionData_numeric_region (facade_with [alice; gil]) gil 5 0
                  Hin eq_refl eq_refl eq_refl) "pcd" (or_intror (or_introl eq_refl)) eq_refl).
Defined.

(** ** getRegionData shares the cached records *)
















(** ** What every session keeps *)







(** ** A backup restored, then seen by the listener *)

Lemma restored_list_In (E : env) (c : value) (records : list value) :
  In c records -> accepted c = true ->
  forall tick, exists reading, In (restored_from c reading) (restored_list E tick records).
Proof.
  induction records as [|c0 rest IH]; intros Hin Ha tick; [destruct Hin|].
  cbn [restored_list]. destruct Hin as [->|Hin].
  - rewrite Ha. eexists. left. reflexivity.
  - destruct (accepted c0).
    + destruct (IH Hin Ha (if ToBoolean (prop c0 "timestamp") then tick else S tick))
        as [reading Hr].
      exists reading. right. exact Hr.
    + exact (IH Hin Ha tick).
Qed.


Lemma restored_list_from (E : env) (d : obj) (records : list value) :
  forall tick, In d (restored_list E tick records) ->
  exists c reading, d = restored_from c reading /\ In c records /\ accepted c = true.
Proof.
  induction records as [|c0 rest IH]; intros tick Hin; [destruct Hin|].
  cbn [restored_list] in Hin. destruct (accepted c0) eqn:Ea.
  - destruct Hin as [<-|Hin].
    + exists c0. eexists. split; [reflexivity|]. split; [left; reflexivity|exact Ea].
    + destruct (IH _ Hin) as (c & reading & Hd & Hc & Ha).
      exists c, reading. split; [exact Hd|]. split; [right; exact Hc|exact Ha].
  - destruct (IH _ Hin) as (c & reading & Hd & Hc & Ha).
    exists c, reading. split; [exact Hd|]. split; [right; exact Hc|exact Ha].
Qed.

(** X21: a candidate restored is a candidate listed.  On a ready facade,
    with a store that rejects no call and an array payload, with numbers
    in the range where decimals are exact, at no element of which the
    loop throws, after [restoreData] and a call of the listener with the
    documents of the collection: the cache has one record per accepted
    element of the payload, and each accepted element whose region and
    category are strings, the category one of ampla, pcd and ppp, is
    listed by [getRegionData] for its region under its category, with its
    name and the number [parseFloat] reads from its score, provided the
    regions of the accepted elements can be converted and compared with
    that region. *)
Theorem restoreData_then_snapshot
    (E : env) (jsonData : string) (st : facade) (w : world) (records : list value) :
  isAuthReady st = true ->
  JSON_parse jsonData = Some (VArr records) ->
  all_reached records = true ->
  exact_payload records = true ->
  (forall o, rejects E o = false) ->
  let '(ok, st1, w1) := restoreData E jsonData st w in
  let st2 := fst (on_snapshot st1 (documents w1 (collection_path st1)) w1) in
  ok = true
  /\ length (allCandidates st2) = length (filter accepted records)
  /\ forall c region tipo,
       In c records -> accepted c = true ->
       prop c "region" = VStr region -> prop c "tipo" = VStr tipo -> In tipo tipos ->
       forallb (fun c' => comparable_region region (prop c' "region"))
               (filter accepted records) = true ->
       forallb (comparable region) (allCandidates st2) = true
       /\ exists rec,
            In rec (region_list (getRegionData st2 region) tipo)
            /\ obj_get rec "nome" = prop c "nome"
            /\ obj_get rec "pontuacao" = VNum (parseFloat (prop c "pontuacao")).
Proof.
  intros Hr Hp Hall Hex Hno.
  destruct (restoreData_ready E jsonData st w records Hr Hp) as (w' & Hres & _ & Hd & _).
  destruct (clearAll_accepted E st w Hr Hno) as (w0 & Hc & _ & Hd0 & _).
  rewrite Hc in Hd. cbn [snd] in Hd. rewrite Hd0 in Hd. cbn [map app] in Hd.
  rewrite Hall in Hres. rewrite (reached_all records Hall) in Hd.
  rewrite forallb_true in Hres by (intros x; unfold fulfilled; rewrite Hno; reflexivity).
  rewrite filter_all in Hd by (intros x; unfold fulfilled; rewrite Hno; reflexivity).
  rewrite Hres. cbn [andb on_snapshot fst allCandidates].
  split; [reflexivity|]. split.
  - rewrite length_map.
    transitivity (length (map snd (documents w' (collection_path st))));
      [symmetry; apply length_map|].
    rewrite Hd. clear. generalize (ticks w).
    induction records as [|c rest IH]; intros t; [reflexivity|].
    cbn [restored_list filter]. destruct (accepted c); cbn [length]; rewrite IH; reflexivity.
  - intros c region tipo Hin Ha Hreg Htipo Ht Hcmp.
    assert (Hget : forall id c' reading k,
              obj_get (snapshot_record (id, restored_from c' reading)) k
              = match assoc_get (restored_from c' reading) k with
                | Some v => v
                | None => if String.eqb "id" k then VStr id else VUndefined
                end)
      by (intros id c' reading k; apply snapshot_record_get; reflexivity).
    split.
    { apply forallb_forall. intros rec Hrec. apply in_map_iff in Hrec.
      destruct Hrec as ([id d] & <- & Hdoc).
      assert (Hdl : In d (restored_list E (ticks w) records)).
      { rewrite <- Hd. apply in_map_iff. exists (id, d). split; [reflexivity|exact Hdoc]. }
      apply restored_list_from in Hdl. destruct Hdl as (c' & reading & -> & Hc' & Ha').
      unfold comparable. rewrite !Hget. unfold restored_from, restored_record.
      cbn [assoc_get String.eqb Ascii.eqb Bool.eqb].
      rewrite forallb_forall in Hcmp. rewrite (Hcmp c') by (apply filter_In; auto).
      unfold exact_payload in Hex. apply andb_prop in Hex. destruct Hex as [_ Hex].
      rewrite forallb_forall in Hex.
      rewrite (reached_all records Hall) in Hex.
      specialize (Hex c' (proj2 (filter_In _ _ _) (conj Hc' Ha'))).
      unfold sortable_score. cbn [converts exact_value ToNumber andb]. rewrite Hex.
      reflexivity. }
    destruct (restored_list_In E c records Hin Ha (ticks w)) as [reading Hrl].
    rewrite <- Hd in Hrl. apply in_map_iff in Hrl. destruct Hrl as ([id d] & Hd' & Hdoc).
    cbn [snd] in Hd'. subst d.
    exists (snapshot_record (id, restored_from c reading)).
    split; [|split; [rewrite Hget; reflexivity|rewrite Hget; reflexivity]].
    apply region_list_In. split; [exact Ht|]. split; [|split].
    + cbn [allCandidates]. apply in_map. exact Hdoc.
    + rewrite Hget. unfold restored_from, restored_record.
      cbn [assoc_get String.eqb Ascii.eqb Bool.eqb]. rewrite Hreg.
      cbn [loose_eq_string]. apply String.eqb_refl.
    + rewrite Hget. unfold restored_from, restored_record.
      cbn [assoc_get String.eqb Ascii.eqb Bool.eqb]. exact Htipo.
Qed.

Lemma restoreData_then_snapshot_witness :
  isAuthReady ready = true
  /\ JSON_parse payload_invalid_valid
     = Some (VArr [VObj [("nome", VStr "Ana"); ("tipo", VStr "pcd"); ("region", VStr "north")];
                   VObj [("nome", VStr "Bia"); ("pontuacao", VStr "90");
                         ("tipo", VStr "ampla"); ("region", VStr "north")]])
  /\ let '(ok, st1, w1) := restoreData accepting payload_invalid_valid ready one_doc_world in
     let st2 := fst (on_snapshot st1 (documents w1 (collection_path st1)) w1) in
     length (allCandidates st2) = 1
     /\ exists rec,
          In rec (region_list (getRegionData st2 "north") "ampla")
          /\ obj_get rec "nome" = VStr "Bia"
          /\ obj_get rec "pontuacao" = VNum (Fin 9 1).
Proof.
  assert (Hp : JSON_parse payload_invalid_valid
     = Some (VArr [VObj [("nome", VStr "Ana"); ("tipo", VStr "pcd"); ("region", VStr "north")];
                   VObj [("nome", VStr "Bia"); ("pontuacao", VStr "90");
                         ("tipo", VStr "ampla"); ("region", VStr "north")]]))
    by (vm_compute; reflexivity).
  split; [reflexivity|]. split; [exact Hp|].
  pose proof (restoreData_then_snapshot accepting payload_invalid_valid ready one_doc_world
                _ eq_refl Hp eq_refl eq_refl (fun _ => eq_refl)) as H.
  destruct (restoreData accepting payload_invalid_valid ready one_doc_world)
    as [[ok st1] w1].
  destruct H as (_ & Hlen & Hlist).
  split; [exact Hlen|].
  exact (proj2 (Hlist (VObj [("nome", VStr "Bia"); ("pontuacao", VStr "90");
                             ("tipo", VStr "ampla"); ("region", VStr "north")])
                  "north" "ampla" (or_intror (or_introl eq_refl)) eq_refl eq_refl eq_refl
                  (or_introl eq_refl) eq_refl)).
Defined.
